(** * sentencepiece (R package): trainer pipeline and the wordpiece matcher

    A shallow embedding of
    - [src/rcpp_wordpiece.cpp] (module [WordPiece]) and
    - [src/sentencepiece/src/trainer_interface.cc] (module [Trainer]),
    with the properties of the specification stated and proved over it.

    Conventions.  C++ [int], [int32], [int64] values are integers of [Z];
    where the source converts between widths or relies on wrap-around the
    conversion is written out.  [std::string] is [string] (a sequence of
    bytes).  [std::map] and [std::set] are [gmap] and [gset]; [std::vector]
    is [list].  A function that returns [util::Status] returns a [result]. *)

From Stdlib Require Import ZArith QArith Qabs Qround Qpower Lia Lqa.
From Stdlib Require SpecFloat.
From stdpp Require Import gmap strings list sorting.

Local Open Scope string_scope.
Local Open Scope list_scope.
Local Open Scope Z_scope.

(* ===================================================================== *)
(** * rcpp_wordpiece.cpp                                                  *)
(* ===================================================================== *)

Module WordPiece.

(** Conversion to [unsigned int] (32 bits). *)
Definition to_uint (z : Z) : Z := z mod 2 ^ 32.

(** Conversion to [size_t] (64 bits). *)
Definition to_size_t (z : Z) : Z := z mod 2 ^ 64.

(** What a run of the function can end in: a value, the exception of
    [std::string::substr], or a loop of the model cut by its fuel. *)
Inductive outcome (A : Type) : Type :=
  | Done (a : A)
  | OutOfRange
  | OutOfFuel.
Arguments Done {A} a.
Arguments OutOfRange {A}.
Arguments OutOfFuel {A}.

(** [x.substr(pos, count)]: throws when [pos > x.size()], otherwise the
    characters of [[pos, min (pos + count) size)]. *)
Definition substr (x : string) (pos count : Z) : option string :=
  if Z.of_nat (String.length x) <? pos then None
  else Some (String.substring (Z.to_nat pos) (Z.to_nat count) x).

(** [std::find(vocabulary.begin(), vocabulary.end(), s) != vocabulary.end()] *)
Definition in_vocabulary (vocabulary : list string) (s : string) : bool :=
  existsb (String.eqb s) vocabulary.

(** The inner [while (start < end)] loop.  [n] is [end - start]; the loop
    leaves with [(end, cur_substr)]: at a match by [break], otherwise with
    [end = start] and [cur_substr] still empty. *)
Fixpoint inner_loop (x : string) (vocabulary : list string) (start : Z)
    (n : nat) : option (Z * string) :=
  match n with
  | O => Some (start, "")
  | S m =>
      let end_ := start + Z.of_nat n in
      match substr x start (to_uint (end_ - start + 1)) with
      | None => None
      | Some s =>
          let s := if 0 <? start then "##" +:+ s else s in
          if in_vocabulary vocabulary s then Some (end_, s)
          else inner_loop x vocabulary start m
      end
  end.

(** The outer [while (start < len)] loop over [sub_tokens]. *)
Fixpoint outer_loop (fuel : nat) (x : string) (vocabulary : list string)
    (unk_token : string) (len start : Z) (sub_tokens : list string)
    : outcome (list string) :=
  match fuel with
  | O => OutOfFuel
  | S fuel' =>
      if start <? len then
        match inner_loop x vocabulary start (Z.to_nat (len - start)) with
        | None => OutOfRange
        | Some (end_, cur_substr) =>
            if String.eqb cur_substr "" then Done (sub_tokens ++ [unk_token])
            else outer_loop fuel' x vocabulary unk_token len
                   (to_uint (end_ + 1)) (sub_tokens ++ [cur_substr])
        end
      else Done sub_tokens
  end.

Definition wordpiece_encode_as_subwords (fuel : nat) (x : string)
    (vocabulary : list string) (unk_token : string)
    (max_input_chars_per_word : Z) : outcome (list string) :=
  let len := to_uint (to_size_t (Z.of_nat (String.length x) - 1)) in
  if max_input_chars_per_word <? len then Done [unk_token]
  else
    match outer_loop fuel x vocabulary unk_token len 0 [] with
    | Done [] => Done [unk_token]
    | r => r
    end.

(** ** Small runs *)

Example encode_unaffable :
  wordpiece_encode_as_subwords 10 "unaffable" ["un"; "##aff"; "##able"]
    "[UNK]" 100 = Done ["un"; "##aff"; "##able"].
Proof. vm_compute. reflexivity. Qed.

Example encode_single_char_in_vocabulary :
  wordpiece_encode_as_subwords 10 "a" ["a"] "[UNK]" 100 = Done ["[UNK]"].
Proof. vm_compute. reflexivity. Qed.

(** The last character alone is never tried: the scan stops at [len]. *)
Example encode_trailing_char_dropped :
  wordpiece_encode_as_subwords 10 "abc" ["ab"; "##c"] "[UNK]" 100
  = Done ["ab"].
Proof. vm_compute. reflexivity. Qed.

(** ** Inputs of length 0 and 1 *)

Lemma substr_empty (count : Z) : substr "" 0 count = Some "".
Proof. unfold substr. simpl. by destruct (Z.to_nat count). Qed.

(** On the empty input the inner loop can only leave with an empty
    [cur_substr], however far [end] starts from. *)
Lemma inner_loop_empty (vocabulary : list string) (n : nat) :
  ∃ e, inner_loop "" vocabulary 0 n = Some (e, "").
Proof.
  induction n as [|n IH]; [by eexists|].
  cbn [inner_loop]. rewrite substr_empty. cbn [Z.ltb Z.compare].
  destruct (in_vocabulary vocabulary ""); [by eexists | exact IH].
Qed.

Lemma len_of_empty : to_uint (to_size_t (Z.of_nat (String.length "") - 1)) = 2 ^ 32 - 1.
Proof. reflexivity. Qed.

Lemma len_of_single (c : Ascii.ascii) :
  to_uint (to_size_t (Z.of_nat (String.length (String c "")) - 1)) = 0.
Proof. reflexivity. Qed.

(** C10.  On an input of length 0 or 1 the function returns exactly one
    token, the unknown token, whatever the vocabulary, the unknown token
    and the limit are (and so also when the one-character input is a
    vocabulary entry); one round of the outer loop is enough. *)
Theorem wordpiece_short_input_is_unk (fuel : nat) (x : string)
    (vocabulary : list string) (unk_token : string)
    (max_input_chars_per_word : Z) :
  (String.length x ≤ 1)%nat →
  wordpiece_encode_as_subwords (S fuel) x vocabulary unk_token
    max_input_chars_per_word = Done [unk_token].
Proof.
  intros Hlen. unfold wordpiece_encode_as_subwords.
  destruct x as [|c [|c' x]]; [ | | simpl in Hlen; lia].
  - rewrite len_of_empty.
    destruct (max_input_chars_per_word <? 2 ^ 32 - 1); [done|].
    cbn [outer_loop].
    replace (0 <? 2 ^ 32 - 1) with true by reflexivity.
    destruct (inner_loop_empty vocabulary (Z.to_nat (2 ^ 32 - 1 - 0)))
      as [e ->].
    reflexivity.
  - rewrite len_of_single.
    destruct (max_input_chars_per_word <? 0); [done|].
    reflexivity.
Qed.

Lemma wordpiece_short_input_is_unk_witness :
  (String.length "a" ≤ 1)%nat ∧
  wordpiece_encode_as_subwords 1 "a" ["a"] "[UNK]" 100 = Done ["[UNK]"].
Proof.
  split; [simpl; lia|].
  apply (wordpiece_short_input_is_unk 0 "a" ["a"] "[UNK]" 100). simpl; lia.
Defined.

(** ** Inputs of two characters and more: greedy longest match *)

(** The string tried at [start] with [count] characters, lines 20-24:
    [x.substr(start, count)], marked with ["##"] when it does not begin
    the word. *)
Definition candidate (x : string) (start count : nat) : string :=
  let s := String.substring start count x in
  match start with
  | O => s
  | S _ => "##" +:+ s
  end.

(** The tokens read at consecutive positions from [start], [cuts]
    giving their numbers of characters. *)
Fixpoint tokens_of (x : string) (start : nat) (cuts : list nat)
    : list string :=
  match cuts with
  | [] => []
  | k :: rest => candidate x start k :: tokens_of x (start + k) rest
  end.

(** No string of two characters or more that starts at [start] and is
    longer than [k] is in the vocabulary. *)
Definition no_longer_match (x : string) (vocabulary : list string)
    (start k : nat) : Prop :=
  ∀ k', (k < k' ≤ String.length x - start)%nat →
        in_vocabulary vocabulary (candidate x start k') = false.

(** Each cut is the longest match at its position, and has two
    characters at least. *)
Fixpoint greedy (x : string) (vocabulary : list string) (start : nat)
    (cuts : list nat) : Prop :=
  match cuts with
  | [] => True
  | k :: rest =>
      (2 ≤ k ≤ String.length x - start)%nat ∧
      in_vocabulary vocabulary (candidate x start k) = true ∧
      no_longer_match x vocabulary start k ∧
      greedy x vocabulary (start + k) rest
  end.

Lemma substring_not_empty (x : string) (start count : nat) :
  (start < String.length x)%nat →
  String.substring start (S count) x ≠ "".
Proof.
  revert start. induction x as [|c x IH]; intros start; cbn; [lia|].
  destruct start as [|start]; [done|]. intros ?. apply IH. lia.
Qed.

Lemma candidate_not_empty (x : string) (start count : nat) :
  (start < String.length x)%nat → candidate x start (S count) ≠ "".
Proof.
  intros H. unfold candidate. destruct start; [|done].
  by apply substring_not_empty.
Qed.

(** The inner loop from [end = start + n] down: it stops at the longest
    match, or runs down to [start]. *)
Lemma inner_loop_spec (x : string) (vocabulary : list string)
    (start n : nat) :
  (start + n < String.length x)%nat →
  Z.of_nat (String.length x) < 2 ^ 32 →
  (inner_loop x vocabulary (Z.of_nat start) n = Some (Z.of_nat start, "") ∧
   ∀ k, (1 ≤ k ≤ n)%nat →
        in_vocabulary vocabulary (candidate x start (S k)) = false) ∨
  (∃ k, (1 ≤ k ≤ n)%nat ∧
        inner_loop x vocabulary (Z.of_nat start) n
        = Some (Z.of_nat (start + k), candidate x start (S k)) ∧
        in_vocabulary vocabulary (candidate x start (S k)) = true ∧
        ∀ k', (k < k' ≤ n)%nat →
              in_vocabulary vocabulary (candidate x start (S k')) = false).
Proof.
  intros Hn Hx. induction n as [|m IH].
  - left. split; [done|]. intros k Hk. lia.
  - cbn [inner_loop]. unfold substr.
    replace (Z.of_nat (String.length x) <? Z.of_nat start) with false
      by (symmetry; apply Z.ltb_ge; lia).
    replace (Z.to_nat (to_uint (Z.of_nat start + Z.of_nat (S m)
                                - Z.of_nat start + 1)))
      with (S (S m))
      by (unfold to_uint; rewrite Z.mod_small; lia).
    rewrite Nat2Z.id.
    replace (if 0 <? Z.of_nat start
             then "##" +:+ String.substring start (S (S m)) x
             else String.substring start (S (S m)) x)
      with (candidate x start (S (S m)))
      by (unfold candidate; by destruct start).
    destruct (in_vocabulary vocabulary (candidate x start (S (S m))))
      eqn:Hin.
    + right. exists (S m). split; [lia|].
      split; [by rewrite Nat2Z.inj_add|]. split; [done|]. intros k' Hk'. lia.
    + destruct IH as [[-> Hnone]|(k & Hk & -> & Hk_in & Hmax)]; [lia|..].
      * left. split; [done|]. intros k Hk.
        destruct (decide (k = S m)) as [->|]; [done|]. apply Hnone. lia.
      * right. exists k. split; [lia|]. split; [done|]. split; [done|].
        intros k' Hk'.
        destruct (decide (k' = S m)) as [->|]; [done|]. apply Hmax. lia.
Qed.

(** The outer loop from [start] on. *)
Lemma outer_loop_spec (fuel : nat) (x : string) (vocabulary : list string)
    (unk_token : string) (start : nat) (sub_tokens : list string) :
  Z.of_nat (String.length x) < 2 ^ 32 →
  (start ≤ String.length x)%nat →
  (1 ≤ fuel)%nat → (String.length x ≤ start + fuel)%nat →
  ∃ cuts (unknown : bool),
    outer_loop fuel x vocabulary unk_token
      (Z.of_nat (String.length x) - 1) (Z.of_nat start) sub_tokens
    = Done (sub_tokens ++ tokens_of x start cuts
            ++ if unknown then [unk_token] else []) ∧
    greedy x vocabulary start cuts ∧
    if unknown
    then no_longer_match x vocabulary (start + sum_list cuts) 1
    else (String.length x - (start + sum_list cuts) ≤ 1)%nat.
Proof.
  intros Hx. revert start sub_tokens.
  induction fuel as [|fuel IH]; intros start toks Hstart Hfuel1 Hfuel;
    [lia|].
  cbn [outer_loop].
  destruct (Z.ltb_spec (Z.of_nat start) (Z.of_nat (String.length x) - 1))
    as [Hlt|Hge].
  - replace (Z.to_nat (Z.of_nat (String.length x) - 1 - Z.of_nat start))
      with (String.length x - 1 - start)%nat by lia.
    destruct (inner_loop_spec x vocabulary start
                (String.length x - 1 - start)) as
      [[-> Hnone]|(k & Hk & -> & Hk_in & Hmax)]; [lia|done|..].
    + exists [], true. cbn [tokens_of sum_list greedy app String.eqb].
      rewrite Nat.add_0_r. split; [done|]. split; [done|].
      intros k' Hk'. destruct k' as [|k']; [lia|].
      apply Hnone. lia.
    + assert (candidate x start (S k) ≠ "") as Hne
        by (apply candidate_not_empty; lia).
      apply String.eqb_neq in Hne. rewrite Hne.
      replace (to_uint (Z.of_nat (start + k) + 1))
        with (Z.of_nat (start + S k))
        by (unfold to_uint; rewrite Z.mod_small; lia).
      destruct (IH (start + S k)%nat (toks ++ [candidate x start (S k)]))
        as (cuts & unknown & -> & Hgreedy & Hend); [lia..|].
      exists (S k :: cuts), unknown. cbn [tokens_of sum_list greedy].
      split; [by rewrite <- !app_assoc|].
      split.
      * split; [lia|]. split; [done|]. split; [|done].
        intros k' Hk'. destruct k' as [|k']; [lia|]. apply Hmax. lia.
      * by rewrite Nat.add_assoc.
  - exists [], false. cbn [tokens_of sum_list greedy app].
    rewrite app_nil_r. split; [done|]. split; [done|]. lia.
Qed.

(** X11.  The matcher is greedy longest-match-first over strings of two
    characters and more.  On an input of 1 to [2^32 - 1] characters and
    with fuel for one round per character: when the input has more than
    [max_input_chars_per_word + 1] characters the result is the unknown
    token alone; otherwise the result is the tokens read at consecutive
    positions from the first character on, each the longest vocabulary
    entry that starts there (marked with ["##"] after the first), where
    no entry of one character is ever tried; it ends with the unknown
    token when no entry matches at the position reached, and without it
    when at most one character is left, which is then dropped. *)
Theorem wordpiece_greedy_longest_match (fuel : nat) (x : string)
    (vocabulary : list string) (unk_token : string)
    (max_input_chars_per_word : Z) :
  (1 ≤ String.length x)%nat → Z.of_nat (String.length x) < 2 ^ 32 →
  (String.length x ≤ fuel)%nat →
  (max_input_chars_per_word < Z.of_nat (String.length x) - 1 →
   wordpiece_encode_as_subwords fuel x vocabulary unk_token
     max_input_chars_per_word = Done [unk_token]) ∧
  (Z.of_nat (String.length x) - 1 ≤ max_input_chars_per_word →
   ∃ cuts (unknown : bool),
     wordpiece_encode_as_subwords fuel x vocabulary unk_token
       max_input_chars_per_word
     = Done (tokens_of x 0 cuts ++ if unknown then [unk_token] else []) ∧
     greedy x vocabulary 0 cuts ∧
     if unknown
     then no_longer_match x vocabulary (sum_list cuts) 1
     else cuts ≠ [] ∧ (String.length x - sum_list cuts ≤ 1)%nat).
Proof.
  intros Hlen Hx Hfuel. unfold wordpiece_encode_as_subwords.
  replace (to_uint (to_size_t (Z.of_nat (String.length x) - 1)))
    with (Z.of_nat (String.length x) - 1)
    by (unfold to_uint, to_size_t;
        rewrite (Z.mod_small _ (2 ^ 64)) by lia; rewrite Z.mod_small; lia).
  split; intros Hmax.
  - by apply Z.ltb_lt in Hmax as ->.
  - apply Z.ltb_ge in Hmax as ->.
    destruct (outer_loop_spec fuel x vocabulary unk_token 0 [])
      as (cuts & unknown & Hrun & Hgreedy & Hend); [done|lia..|].
    change (Z.of_nat 0) with 0 in Hrun. rewrite Hrun. cbn [app] in *.
    destruct cuts as [|k cuts], unknown; cbn [tokens_of app] in *.
    + exists [], true. done.
    + exists [], true. cbn [tokens_of sum_list app greedy] in *.
      split; [done|]. split; [done|]. intros k' Hk'. lia.
    + exists (k :: cuts), true. done.
    + exists (k :: cuts), false. done.
Qed.

Lemma wordpiece_greedy_longest_match_witness :
  let x := "unaffable" in
  let vocabulary := ["un"; "##aff"; "##af"; "##able"; "u"] in
  wordpiece_encode_as_subwords 9 x vocabulary "[UNK]" 100
  = Done ["un"; "##aff"; "##able"] ∧
  ∃ cuts (unknown : bool),
    wordpiece_encode_as_subwords 9 x vocabulary "[UNK]" 100
    = Done (tokens_of x 0 cuts ++ if unknown then ["[UNK]"] else []) ∧
    greedy x vocabulary 0 cuts ∧
    if unknown
    then no_longer_match x vocabulary (sum_list cuts) 1
    else cuts ≠ [] ∧ (String.length x - sum_list cuts ≤ 1)%nat.
Proof.
  intros x vocabulary. split; [reflexivity|].
  apply (wordpiece_greedy_longest_match 9 x vocabulary "[UNK]" 100);
    [simpl; lia|simpl; lia|simpl; lia|simpl; lia].
Defined.

End WordPiece.

(* ===================================================================== *)
(** * sentencepiece/src/trainer_interface.cc                              *)
(* ===================================================================== *)

Module Trainer.

(** ** Status values

    Every [CHECK_..._OR_RETURN] of the file returns a non-OK [util::Status];
    the model records which check it was. *)

Inductive error : Type :=
  (* VerifySpec *)
  | BadModelPrefix | BadInput | BadVocabSize | BadUseAllVocab
  | BadCharacterCoverage | BadMaxSentencepieceLength | BadNumSubIterations
  | BadNumThreads | BadSelfTestSampleSize | BadShrinkingFactor
  | BadMaxSentenceLength | BadInputSentenceSize
  | EmptyUnkPiece | EmptyBosPiece | EmptyEosPiece | EmptyPadPiece
  (* InitMetaPieces *)
  | MetaPiecesNotEmpty
  | BadUnkId | BadBosId | BadEosId | BadPadId
  | UnkNotDefined
  | BadControlSymbol | BadUserDefinedSymbol
  (* LoadSentences *)
  | SentencesNotEmpty | RequiredCharsNotEmpty | BadInputFormat
  | FileNotReadable
  | NullSampler  (* the abort of CHECK_NOTNULL in SentenceSelector::Add *)
  | TsvFieldCount | TsvFrequency
  | NoSentences
  | SpaceInNormalized | SpaceInCounted | SpaceInSorted
  | UnkCharRequired
  | VocabSmallerThanRequiredChars
  (* Serialize *)
  | MetaPieceIdMismatch | MetaPieceIsNormal
  | PieceNotStructurallyValid | PieceEmpty | PieceAlreadyDefined
  | FinalPiecesLeft
  | TooManyPieces | TooManyDistinctPieces
  | PieceCountMismatch | DistinctPieceCountMismatch.

Inductive result (A : Type) : Type :=
  | Ok (a : A)
  | Err (e : error).
Arguments Ok {A} a.
Arguments Err {A} e.

(** [RETURN_IF_ERROR]: go on with the value, or return the error. *)
Definition bind {A B : Type} (r : result A) (k : A → result B) : result B :=
  match r with
  | Ok a => k a
  | Err e => Err e
  end.

Declare Scope result_scope.
Notation "x ← y ; z" := (bind y (λ x, z))
  (at level 20, y at level 100, z at level 200, only parsing) : result_scope.
Notation "' x ← y ; z" := (bind y (λ x, z))
  (at level 20, x pattern, y at level 100, z at level 200, only parsing)
  : result_scope.
Notation "x ;; z" := (bind x (λ _, z))
  (at level 100, z at level 200, only parsing, right associativity)
  : result_scope.
Local Open Scope result_scope.

(** [CHECK_OR_RETURN(cond)] *)
Definition CHECK_OR_RETURN (cond : bool) (e : error) : result unit :=
  if cond then Ok () else Err e.

Definition is_ok {A : Type} (r : result A) : bool :=
  match r with Ok _ => true | Err _ => false end.

Lemma bind_Ok {A B : Type} (r : result A) (k : A → result B) (b : B) :
  bind r k = Ok b ↔ ∃ a, r = Ok a ∧ k a = Ok b.
Proof.
  destruct r as [a|e]; simpl; split.
  - intros H. by exists a.
  - by intros (a' & [= <-] & H).
  - done.
  - by intros (a' & [=] & _).
Qed.

Lemma CHECK_Ok (cond : bool) (e : error) :
  CHECK_OR_RETURN cond e = Ok () ↔ cond = true.
Proof. by destruct cond. Qed.

Lemma CHECK_bind_Ok {B : Type} (cond : bool) (e : error) (k : result B)
    (b : B) :
  (CHECK_OR_RETURN cond e ;; k) = Ok b ↔ cond = true ∧ k = Ok b.
Proof. destruct cond; simpl; [tauto | split; [done | by intros [? _]]]. Qed.

(** ** The trainer's data *)

Inductive ModelType : Type := UNIGRAM | BPE | WORD | CHAR.

(** [ModelProto::SentencePiece::Type] *)
Inductive PieceType : Type := NORMAL | UNKNOWN | CONTROL | USER_DEFINED.

#[global] Instance ModelType_eq_dec : EqDecision ModelType.
Proof. solve_decision. Defined.
#[global] Instance PieceType_eq_dec : EqDecision PieceType.
Proof. solve_decision. Defined.
#[global] Instance error_eq_dec : EqDecision error.
Proof. solve_decision. Defined.

(** The fields of [TrainerSpec] the file reads.  The two [float] fields
    hold their (finite) values as rationals. *)
Record TrainerSpec : Type := {
  model_prefix : string;
  input : list string;
  input_format : string;
  vocab_size : Z;
  model_type : ModelType;
  use_all_vocab : bool;
  hard_vocab_limit : bool;
  (** a [float]: its value *)
  character_coverage : Q;
  max_sentencepiece_length : Z;
  num_sub_iterations : Z;
  num_threads : Z;
  self_test_sample_size : Z;
  shrinking_factor : Q;
  max_sentence_length : Z;
  input_sentence_size : Z;
  shuffle_input_sentence : bool;
  unk_piece : string;
  bos_piece : string;
  eos_piece : string;
  pad_piece : string;
  unk_id : Z;
  bos_id : Z;
  eos_id : Z;
  pad_id : Z;
  control_symbols : list string;
  user_defined_symbols : list string;
  treat_whitespace_as_suffix : bool;
  split_by_whitespace : bool;
  split_by_number : bool;
  split_by_unicode_script : bool;
}.

Definition set_vocab_size (n : Z) (ts : TrainerSpec) : TrainerSpec :=
  {| model_prefix := model_prefix ts; input := input ts;
     input_format := input_format ts; vocab_size := n;
     model_type := model_type ts; use_all_vocab := use_all_vocab ts;
     hard_vocab_limit := hard_vocab_limit ts;
     character_coverage := character_coverage ts;
     max_sentencepiece_length := max_sentencepiece_length ts;
     num_sub_iterations := num_sub_iterations ts;
     num_threads := num_threads ts;
     self_test_sample_size := self_test_sample_size ts;
     shrinking_factor := shrinking_factor ts;
     max_sentence_length := max_sentence_length ts;
     input_sentence_size := input_sentence_size ts;
     shuffle_input_sentence := shuffle_input_sentence ts;
     unk_piece := unk_piece ts; bos_piece := bos_piece ts;
     eos_piece := eos_piece ts; pad_piece := pad_piece ts;
     unk_id := unk_id ts; bos_id := bos_id ts; eos_id := eos_id ts;
     pad_id := pad_id ts; control_symbols := control_symbols ts;
     user_defined_symbols := user_defined_symbols ts;
     treat_whitespace_as_suffix := treat_whitespace_as_suffix ts;
     split_by_whitespace := split_by_whitespace ts;
     split_by_number := split_by_number ts;
     split_by_unicode_script := split_by_unicode_script ts |}.

(** [s.empty()] *)
Definition empty (s : string) : bool := String.eqb s "".

Lemma empty_true (s : string) : empty s = true ↔ s = "".
Proof. unfold empty. apply String.eqb_eq. Qed.

Lemma empty_false (s : string) : empty s = false ↔ s ≠ "".
Proof. unfold empty. apply String.eqb_neq. Qed.

(** ** VerifySpec *)

(** [CHECK_RANGE(variable, minval, maxval)] on an integer field ... *)
Definition in_range (variable minval maxval : Z) : bool :=
  (minval <=? variable) && (variable <=? maxval).

(** ... and on a [float] field.  The bounds are [double] literals; no
    [float] value lies between the [double] nearest to 0.98 (or to 0.95)
    and the decimal itself, so the comparison with the decimal gives the
    same answer on every value the field can hold. *)
Definition in_rangeQ (variable minval maxval : Q) : bool :=
  Qle_bool minval variable && Qle_bool variable maxval.

Definition VerifySpec (trainer_spec : TrainerSpec) : result unit :=
  CHECK_OR_RETURN (negb (empty (model_prefix trainer_spec))) BadModelPrefix ;;
  CHECK_OR_RETURN (0 <? Z.of_nat (length (input trainer_spec))) BadInput ;;
  CHECK_OR_RETURN (0 <? vocab_size trainer_spec) BadVocabSize ;;
  (if bool_decide (model_type trainer_spec = UNIGRAM)
      || bool_decide (model_type trainer_spec = BPE)
   then CHECK_OR_RETURN (negb (use_all_vocab trainer_spec)) BadUseAllVocab
   else Ok ()) ;;
  CHECK_OR_RETURN
    (in_rangeQ (character_coverage trainer_spec) (98 # 100) 1)
    BadCharacterCoverage ;;
  CHECK_OR_RETURN (in_range (max_sentencepiece_length trainer_spec) 1 512)
    BadMaxSentencepieceLength ;;
  CHECK_OR_RETURN (in_range (num_sub_iterations trainer_spec) 1 10)
    BadNumSubIterations ;;
  CHECK_OR_RETURN (in_range (num_threads trainer_spec) 1 128)
    BadNumThreads ;;
  CHECK_OR_RETURN (in_range (self_test_sample_size trainer_spec) 0 1000)
    BadSelfTestSampleSize ;;
  CHECK_OR_RETURN
    (in_rangeQ (shrinking_factor trainer_spec) (5 # 10) (95 # 100))
    BadShrinkingFactor ;;
  CHECK_OR_RETURN
    (in_range (max_sentence_length trainer_spec) 10 1073741824)
    BadMaxSentenceLength ;;
  CHECK_OR_RETURN
    ((input_sentence_size trainer_spec <=? 0)
     || (100 <? input_sentence_size trainer_spec))
    BadInputSentenceSize ;;
  CHECK_OR_RETURN (negb (empty (unk_piece trainer_spec))) EmptyUnkPiece ;;
  CHECK_OR_RETURN (negb (empty (bos_piece trainer_spec))) EmptyBosPiece ;;
  CHECK_OR_RETURN (negb (empty (eos_piece trainer_spec))) EmptyEosPiece ;;
  CHECK_OR_RETURN (negb (empty (pad_piece trainer_spec))) EmptyPadPiece ;;
  Ok ().

(** [default = 0.9995] of the [float] field [character_coverage]: the
    [float] nearest to 0.9995. *)
Definition default_character_coverage : Q := 16768827 # 16777216.

(** The default values of the command line, with one input file. *)
Definition default_spec : TrainerSpec :=
  {| model_prefix := "m"; input := ["corpus.txt"]; input_format := "";
     vocab_size := 8000; model_type := UNIGRAM; use_all_vocab := false;
     hard_vocab_limit := true; character_coverage := default_character_coverage;
     max_sentencepiece_length := 16; num_sub_iterations := 2;
     num_threads := 16; self_test_sample_size := 0;
     shrinking_factor := 75 # 100; max_sentence_length := 4192;
     input_sentence_size := 0; shuffle_input_sentence := true;
     unk_piece := "<unk>"; bos_piece := "<s>"; eos_piece := "</s>";
     pad_piece := "<pad>"; unk_id := 0; bos_id := 1; eos_id := 2;
     pad_id := -1; control_symbols := []; user_defined_symbols := [];
     treat_whitespace_as_suffix := false; split_by_whitespace := true;
     split_by_number := true; split_by_unicode_script := true |}.

Example VerifySpec_default : VerifySpec default_spec = Ok ().
Proof. vm_compute. reflexivity. Qed.

(** ** The trainer object *)

(** [NormalizerSpec] is only handed on to the normalizer. *)
Record NormalizerSpec : Type := { name : string }.

(** [Sentence]: the text and its frequency. *)
Definition Sentence : Type := string * Z.

(** An entry of [ModelProto::pieces].  [add_pieces()] makes one with an
    empty text, score 0 and type [NORMAL]. *)
Record SentencePiece : Type := {
  piece : string;
  score : Q;
  type : PieceType;
}.

Record ModelProto : Type := {
  pieces : list SentencePiece;
  proto_trainer_spec : option TrainerSpec;
  proto_normalizer_spec : option NormalizerSpec;
}.

(** A [ModelProto] as [SaveModel] and [SaveVocab] declare it. *)
Definition new_ModelProto : ModelProto :=
  {| pieces := []; proto_trainer_spec := None;
     proto_normalizer_spec := None |}.

Definition pieces_size (model_proto : ModelProto) : Z :=
  Z.of_nat (length (pieces model_proto)).

Record TrainerInterface : Type := {
  trainer_spec_ : TrainerSpec;
  normalizer_spec_ : NormalizerSpec;
  status_ : result unit;
  meta_pieces_ : gmap Z (string * PieceType);
  sentences_ : list Sentence;
  required_chars_ : gmap Z Z;
  final_pieces_ : list (string * Q);
  self_test_samples_ : list string;
}.

(** A loop body run over a list, left at the first failing check. *)
Fixpoint for_each {A S : Type} (body : A → S → result S) (l : list A)
    (s : S) : result S :=
  match l with
  | [] => Ok s
  | a :: l' => s' ← body a s; for_each body l' s'
  end.

(** ** InitMetaPieces *)

Definition CHECK_SOME {A : Type} (o : option A) (e : error) : result A :=
  match o with
  | Some a => Ok a
  | None => Err e
  end.

(** The lambda [insert_id].  Its captured state is [has_unk] and
    [meta_pieces_]; [None] stands for the return value [false] (the
    state is then unchanged and the caller's check fails). *)
Definition insert_id (trainer_spec : TrainerSpec) (id : Z) (w : string)
    (st : bool * gmap Z (string * PieceType))
    : option (bool * gmap Z (string * PieceType)) :=
  let '(has_unk, meta_pieces) := st in
  if id <? 0 then Some st
  else if (vocab_size trainer_spec <=? id)
          || bool_decide (is_Some (meta_pieces !! id))
          || (has_unk && String.eqb w (unk_piece trainer_spec))
  then None
  else
    Some (has_unk || String.eqb w (unk_piece trainer_spec),
          <[id := (w, if String.eqb w (unk_piece trainer_spec)
                      then UNKNOWN else CONTROL)]> meta_pieces).

(** [while (meta_pieces_.find(id) != meta_pieces_.end()) ++id;]
    The map is finite: [size meta_pieces + 1] rounds are enough
    (lemma [skip_used_free]). *)
Fixpoint skip_used_loop (fuel : nat) (meta_pieces : gmap Z (string * PieceType))
    (id : Z) : Z :=
  match fuel with
  | O => id
  | S fuel' =>
      if bool_decide (is_Some (meta_pieces !! id))
      then skip_used_loop fuel' meta_pieces (id + 1)
      else id
  end.

Definition skip_used (meta_pieces : gmap Z (string * PieceType)) (id : Z)
    : Z :=
  skip_used_loop (S (size meta_pieces)) meta_pieces id.

(** [meta_pieces_[k].second = type]; [operator[]] makes the entry when
    it is missing. *)
Definition set_type (k : Z) (ty : PieceType)
    (meta_pieces : gmap Z (string * PieceType))
    : gmap Z (string * PieceType) :=
  match meta_pieces !! k with
  | Some (w, _) => <[k := (w, ty)]> meta_pieces
  | None => <[k := ("", ty)]> meta_pieces
  end.

(** The state captured by the lambda [insert_meta_symbol]. *)
Record symbol_state : Type := {
  next_id : Z;
  dup : gset string;
  registry : gmap Z (string * PieceType);
}.

(** The lambda [insert_meta_symbol]; [None] stands for [false]. *)
Definition insert_meta_symbol (trainer_spec : TrainerSpec) (w : string)
    (ty : PieceType) (st : symbol_state) : option symbol_state :=
  if bool_decide (w ∈ dup st) then None
  else
    let dup' := {[w]} ∪ dup st in
    if String.eqb w (unk_piece trainer_spec) then None
    else if String.eqb w (bos_piece trainer_spec)
            && (0 <=? bos_id trainer_spec) then
      Some {| next_id := next_id st; dup := dup';
              registry := set_type (bos_id trainer_spec) ty (registry st) |}
    else if String.eqb w (eos_piece trainer_spec)
            && (0 <=? eos_id trainer_spec) then
      Some {| next_id := next_id st; dup := dup';
              registry := set_type (eos_id trainer_spec) ty (registry st) |}
    else if String.eqb w (pad_piece trainer_spec)
            && (0 <=? pad_id trainer_spec) then
      Some {| next_id := next_id st; dup := dup';
              registry := set_type (pad_id trainer_spec) ty (registry st) |}
    else
      let id := skip_used (registry st) (next_id st) in
      Some {| next_id := id; dup := dup';
              registry := <[id := (w, ty)]> (registry st) |}.

(** The four reserved symbols (lines 556-574). *)
Definition insert_reserved (trainer_spec : TrainerSpec)
    (meta_pieces : gmap Z (string * PieceType))
    : result (gmap Z (string * PieceType)) :=
  st ← CHECK_SOME (insert_id trainer_spec (unk_id trainer_spec)
                     (unk_piece trainer_spec) (false, meta_pieces)) BadUnkId;
  st ← CHECK_SOME (insert_id trainer_spec (bos_id trainer_spec)
                     (bos_piece trainer_spec) st) BadBosId;
  st ← CHECK_SOME (insert_id trainer_spec (eos_id trainer_spec)
                     (eos_piece trainer_spec) st) BadEosId;
  st ← CHECK_SOME (insert_id trainer_spec (pad_id trainer_spec)
                     (pad_piece trainer_spec) st) BadPadId;
  CHECK_OR_RETURN st.1 UnkNotDefined ;;
  Ok st.2.

(** One round of either [for] loop over the configured symbols. *)
Definition symbol_step (trainer_spec : TrainerSpec) (ty : PieceType)
    (e : error) (w : string) (st : symbol_state) : result symbol_state :=
  CHECK_SOME (insert_meta_symbol trainer_spec w ty st) e.

(** The control symbols, then the user defined symbols (lines 576-614). *)
Definition insert_symbols (trainer_spec : TrainerSpec) (st : symbol_state)
    : result symbol_state :=
  st ← for_each (symbol_step trainer_spec CONTROL BadControlSymbol)
         (control_symbols trainer_spec) st;
  for_each (symbol_step trainer_spec USER_DEFINED BadUserDefinedSymbol)
    (user_defined_symbols trainer_spec) st.

Definition InitMetaPieces (trainer_spec : TrainerSpec)
    (meta_pieces : gmap Z (string * PieceType))
    : result (gmap Z (string * PieceType)) :=
  CHECK_OR_RETURN (bool_decide (meta_pieces = ∅)) MetaPiecesNotEmpty ;;
  meta_pieces ← insert_reserved trainer_spec meta_pieces;
  st ← insert_symbols trainer_spec
         {| next_id := 0; dup := ∅; registry := meta_pieces |};
  Ok (registry st).

(** The constructor: [VerifySpec], then [InitMetaPieces] if that went
    well.  After a failure no method reads [meta_pieces_] (each starts
    with [RETURN_IF_ERROR(status())]), and the model leaves it empty. *)
Definition new_TrainerInterface (trainer_spec : TrainerSpec)
    (normalizer_spec : NormalizerSpec) : TrainerInterface :=
  let r := VerifySpec trainer_spec ;; InitMetaPieces trainer_spec ∅ in
  {| trainer_spec_ := trainer_spec;
     normalizer_spec_ := normalizer_spec;
     status_ := r ;; Ok ();
     meta_pieces_ := match r with Ok m => m | Err _ => ∅ end;
     sentences_ := [];
     required_chars_ := ∅;
     final_pieces_ := [];
     self_test_samples_ := [] |}.

(** What a subclass's [Train] leaves in [final_pieces_]. *)
Definition with_final_pieces (final_pieces : list (string * Q))
    (t : TrainerInterface) : TrainerInterface :=
  {| trainer_spec_ := trainer_spec_ t;
     normalizer_spec_ := normalizer_spec_ t;
     status_ := status_ t;
     meta_pieces_ := meta_pieces_ t;
     sentences_ := sentences_ t;
     required_chars_ := required_chars_ t;
     final_pieces_ := final_pieces;
     self_test_samples_ := self_test_samples_ t |}.

Example InitMetaPieces_default :
  InitMetaPieces default_spec ∅
  = Ok {[ 0 := ("<unk>", UNKNOWN); 1 := ("<s>", CONTROL);
          2 := ("</s>", CONTROL) ]}.
Proof. vm_compute. reflexivity. Qed.

(** ** What the file uses and does not define

    [random::ReservoirSampler<T>] of util.h: [Add] changes the sampler and
    the vector it was given.  [sampler_new size seed] is the constructor
    ([seed] is [None] where the source gives none). *)
Record ReservoirSampler (T : Type) : Type := {
  sampler : Type;
  sampler_new : Z → option Z → sampler;
  sampler_Add : T → sampler * list T → sampler * list T;
}.
Arguments sampler {T} _.
Arguments sampler_new {T} _ _ _.
Arguments sampler_Add {T} _ _ _.

Record Externals : Type := {
  (** filesystem.h: the lines [ReadLine] gives for a file name, [None]
      when the file's status is not OK *)
  NewReadableFile : string → option (list string);
  (** util.h *)
  Split : string → string → list string;
  IsValidCodepoint : Z → bool;
  IsStructurallyValid : string → bool;
  UTF8ToUnicodeText : string → list Z;
  UnicodeTextToUTF8 : list Z → string;
  sentence_sampler : ReservoirSampler Sentence;
  test_sampler : ReservoirSampler string;
  (** <cstdlib> *)
  atoll : string → Z;
  (** normalizer.h: [Normalizer(spec).Normalize] and
      [PrefixMatcher(set).GlobalReplace] *)
  Normalize : NormalizerSpec → string → string;
  GlobalReplace : gset string → string → string → string;
  (** unicode_script.h: the script of a codepoint, with the values of the
      three [ScriptType]s the file names *)
  GetScript : Z → Z;
  U_Han : Z;
  U_Hiragana : Z;
  U_Katakana : Z;
}.

(** ** Constants *)

Definition kWSChar : Z := 0x2581.
Definition kUNKChar : Z := 0x2585.
Definition kUPPBoundaryChar : Z := 0x0009.

Definition byte (n : nat) : Ascii.ascii := Ascii.ascii_of_nat n.

(** ["\xe2\x96\x81"] *)
Definition kWSStr : string :=
  String (byte 226) (String (byte 150) (String (byte 129) "")).
(** ["\xe2\x96\x85"] *)
Definition kUNKStr : string :=
  String (byte 226) (String (byte 150) (String (byte 133) "")).
(** ["\t"] *)
Definition kUPPBoundaryStr : string := String (byte 9) "".

(** [static_cast<int>] of a size. *)
Definition to_int (z : Z) : Z := (z + 2 ^ 31) mod 2 ^ 32 - 2 ^ 31.

(** [s.find(pattern) != std::string::npos] *)
Definition contains (s pattern : string) : bool :=
  bool_decide (is_Some (String.index 0 pattern s)).

(** ** IsValidSentencePiece *)

(** [static_cast<unicode_script::ScriptType>(-1)] *)
Definition kAnyType : Z := -1.

Definition is_number (c : Z) : bool := (0x30 <=? c) && (c <=? 0x39).

(** The [for] loop of lines 181-245 from position [pos] on, [false] for
    a [return false] and [true] when the loop runs to its end. *)
Fixpoint valid_from (X : Externals) (spec : TrainerSpec) (size pos : Z)
    (prev_script : Z) (sentencepiece : list Z) : bool :=
  match sentencepiece with
  | [] => true
  | c :: rest =>
      if c =? kUNKChar then false
      else if c =? 0x0000 then false
      else if c =? kUPPBoundaryChar then false
      else if c =? 0x0020 then false
      else if negb (IsValidCodepoint X c) then false
      else if c =? kWSChar then
        if treat_whitespace_as_suffix spec then
          if (split_by_whitespace spec && (pos <? size - 1))
             || (negb (split_by_whitespace spec) && (pos <? size - 1)
                 && (pos =? 0))
          then false
          else valid_from X spec size (pos + 1) prev_script rest
        else
          if (split_by_whitespace spec && (0 <? pos))
             || (negb (split_by_whitespace spec) && (0 <? pos)
                 && (pos =? size - 1))
          then false
          else valid_from X spec size (pos + 1) prev_script rest
      else
        let s := GetScript X c in
        let s := if (s =? U_Hiragana X) || (s =? U_Katakana X)
                    || (c =? 0x30FC)
                 then U_Han X else s in
        let s := if negb (split_by_number spec) && is_number c
                 then kAnyType else s in
        if split_by_unicode_script spec && negb (s =? kAnyType)
           && negb (prev_script =? kAnyType) && negb (prev_script =? s)
        then false
        else valid_from X spec size (pos + 1) s rest
  end.

(** [sentencepiece] is the piece as [string_util::UnicodeText], a vector
    of codepoints; the limit is compared as [size_t]. *)
Definition IsValidSentencePiece (X : Externals) (spec : TrainerSpec)
    (sentencepiece : list Z) : bool :=
  let size := Z.of_nat (length sentencepiece) in
  if bool_decide (sentencepiece = [])
     || (max_sentencepiece_length spec mod 2 ^ 64 <? size)
  then false
  else valid_from X spec size 0 kAnyType sentencepiece.

(** ** LoadSentences: reading the corpus *)

(** [SentenceSelector]: [sampler_] is set when a sentence limit is given
    with shuffling. *)
Definition new_SentenceSelector (X : Externals) (spec : TrainerSpec)
    : option (sampler (sentence_sampler X)) :=
  if (0 <? input_sentence_size spec) && shuffle_input_sentence spec
  then Some (sampler_new (sentence_sampler X) (input_sentence_size spec)
               (Some 12345678))
  else None.

(** [SentenceSelector::Add]: the returned flag, the selector and the
    vector [sentences_] after the call. *)
Definition selector_Add (X : Externals) (spec : TrainerSpec)
    (sentence : Sentence)
    (st : option (sampler (sentence_sampler X)) * list Sentence)
    : result (bool * (option (sampler (sentence_sampler X)) * list Sentence)) :=
  let '(sampler_, sentences) := st in
  if input_sentence_size spec <=? 0 then
    Ok (true, (sampler_, sentences ++ [sentence]))
  else if shuffle_input_sentence spec then
    match sampler_ with
    | Some smp =>
        let '(smp', sentences') :=
          sampler_Add (sentence_sampler X) sentence (smp, sentences) in
        Ok (true, (Some smp', sentences'))
    | None => Err NullSampler
    end
  else
    let sentences' := sentences ++ [sentence] in
    if input_sentence_size spec <=? Z.of_nat (length sentences')
    then Ok (false, (sampler_, sentences'))
    else Ok (true, (sampler_, sentences')).

(** Lines 272-280: the candidate sentence and its frequency. *)
Definition read_candidate (X : Externals) (is_tsv : bool) (line : string)
    : result (string * Z) :=
  if is_tsv then
    let v := Split X line kUPPBoundaryStr in
    CHECK_OR_RETURN (Z.of_nat (length v) =? 2) TsvFieldCount ;;
    let sentence := v !!! 0%nat in
    let freq := atoll X (v !!! 1%nat) in
    CHECK_OR_RETURN (1 <=? freq) TsvFrequency ;;
    Ok (sentence, freq)
  else Ok (line, 1).

(** What the loops of lines 266-308 carry along. *)
Record load_state (X : Externals) : Type := {
  selector : option (sampler (sentence_sampler X));
  loaded : list Sentence;
  test_sentence_sampler : sampler (test_sampler X);
  test_samples : list string;
  too_long_lines : Z;
}.
Arguments selector {X} _.
Arguments loaded {X} _.
Arguments test_sentence_sampler {X} _.
Arguments test_samples {X} _.
Arguments too_long_lines {X} _.

(** How a round of the [while] loop ends: with the next line, or by
    [goto END]. *)
Inductive flow (S : Type) : Type :=
  | Next (s : S)
  | GotoEnd (s : S).
Arguments Next {S} s.
Arguments GotoEnd {S} s.

(** The body of [while (input->ReadLine(&sentence))]. *)
Definition load_line (X : Externals) (spec : TrainerSpec) (is_tsv : bool)
    (line : string) (st : load_state X) : result (flow (load_state X)) :=
  '(sentence, freq) ← read_candidate X is_tsv line;
  if empty sentence then Ok (Next st)
  else if max_sentence_length spec
          <? to_int (Z.of_nat (String.length sentence)) then
    Ok (Next {| selector := selector st; loaded := loaded st;
                test_sentence_sampler := test_sentence_sampler st;
                test_samples := test_samples st;
                too_long_lines := too_long_lines st + 1 |})
  else if contains sentence kUNKStr then Ok (Next st)
  else
    let '(tsmp, tests) :=
      sampler_Add (test_sampler X) sentence
        (test_sentence_sampler st, test_samples st) in
    '(more, (sel, sentences)) ←
      selector_Add X spec (sentence, freq) (selector st, loaded st);
    let st' := {| selector := sel; loaded := sentences;
                  test_sentence_sampler := tsmp; test_samples := tests;
                  too_long_lines := too_long_lines st |} in
    Ok (if more then Next st' else GotoEnd st').

Fixpoint load_lines (X : Externals) (spec : TrainerSpec) (is_tsv : bool)
    (lines : list string) (st : load_state X)
    : result (flow (load_state X)) :=
  match lines with
  | [] => Ok (Next st)
  | line :: lines' =>
      r ← load_line X spec is_tsv line st;
      match r with
      | Next st' => load_lines X spec is_tsv lines' st'
      | GotoEnd st' => Ok (GotoEnd st')
      end
  end.

(** [for (const auto &filename : trainer_spec_.input())]: the state at
    the label [END], reached past the last file ([Next]) or by the
    jump ([GotoEnd]). *)
Fixpoint load_files (X : Externals) (spec : TrainerSpec) (is_tsv : bool)
    (filenames : list string) (st : load_state X)
    : result (flow (load_state X)) :=
  match filenames with
  | [] => Ok (Next st)
  | filename :: filenames' =>
      lines ← CHECK_SOME (NewReadableFile X filename) FileNotReadable;
      r ← load_lines X spec is_tsv lines st;
      match r with
      | Next st' => load_files X spec is_tsv filenames' st'
      | GotoEnd st' => Ok (GotoEnd st')
      end
  end.

Definition at_END {S : Type} (r : flow S) : S :=
  match r with
  | Next s => s
  | GotoEnd s => s
  end.

(** The selector, the two samplers and the counter of lines 260-264. *)
Definition new_load_state (X : Externals) (t : TrainerInterface)
    : load_state X :=
  {| selector := new_SentenceSelector X (trainer_spec_ t);
     loaded := sentences_ t;
     test_sentence_sampler :=
       sampler_new (test_sampler X)
         (self_test_sample_size (trainer_spec_ t)) None;
     test_samples := self_test_samples_ t;
     too_long_lines := 0 |}.

(** ** LoadSentences: normalization *)

Definition on_text (f : string → string) (w : Sentence) : Sentence :=
  (f w.1, w.2).

(** The task scheduled for worker [n]:
    [for (size_t i = n; i < sentences_.size(); i += num_threads)].
    [i] grows by at least one a round, so [length sentences] rounds are
    enough. *)
Fixpoint worker_loop (fuel : nat) (f : string → string) (num_threads i : Z)
    (sentences : list Sentence) : list Sentence :=
  match fuel with
  | O => sentences
  | S fuel' =>
      if i <? Z.of_nat (length sentences) then
        worker_loop fuel' f num_threads (i + num_threads)
          (alter (on_text f) (Z.to_nat i) sentences)
      else sentences
  end.

(** The pool of lines 338-349, joined.  The workers write disjoint slots
    and read only their own, so the vector after the join is the one the
    workers leave when run one after the other. *)
Definition normalize_all (f : string → string) (num_threads : Z)
    (sentences : list Sentence) : list Sentence :=
  foldl (λ ss n, worker_loop (length ss) f num_threads n ss) sentences
    (seqZ 0 num_threads).

(** [std::swap(sentences_[i], sentences_[size - 1]); resize(size - 1)] *)
Definition swap_with_last_and_shrink (i : nat) (sentences : list Sentence)
    : list Sentence :=
  match sentences !! i, last sentences with
  | Some s, Some l =>
      take (length sentences - 1)
        (<[(length sentences - 1)%nat := s]> (<[i := l]> sentences))
  | _, _ => sentences
  end.

(** The loop of lines 351-359.  Every round adds one to [i] and never
    grows the vector, so [length sentences] rounds from [i = 0] are
    enough: when the fuel is used up, [i] has reached the size. *)
Fixpoint check_and_remove_empty (fuel : nat) (i : nat)
    (sentences : list Sentence) : result (list Sentence) :=
  match fuel with
  | O => Ok sentences
  | S fuel' =>
      match sentences !! i with
      | None => Ok sentences
      | Some s =>
          CHECK_OR_RETURN (negb (contains s.1 " ")) SpaceInNormalized ;;
          if empty s.1 then
            check_and_remove_empty fuel' (S i)
              (swap_with_last_and_shrink i sentences)
          else check_and_remove_empty fuel' (S i) sentences
      end
  end.

(** [meta_pieces_set] of lines 328-332. *)
Definition meta_pieces_set (meta_pieces : gmap Z (string * PieceType))
    : gset string :=
  list_to_set ((λ it, it.2.1) <$> map_to_list meta_pieces).

(** The block of lines 326-360 ("Normalize and removes empty string"). *)
Definition normalize_sentences (X : Externals) (t : TrainerInterface)
    (sentences : list Sentence) : result (list Sentence) :=
  let matcher := meta_pieces_set (meta_pieces_ t) in
  CHECK_OR_RETURN (negb (bool_decide (sentences = []))) NoSentences ;;
  let sentences :=
    normalize_all
      (λ s, GlobalReplace X matcher (Normalize X (normalizer_spec_ t) s)
              kUPPBoundaryStr)
      (num_threads (trainer_spec_ t)) sentences in
  check_and_remove_empty (length sentences) 0 sentences.

(** ** LoadSentences: character coverage *)

(** [chars_count[c] += n] *)
Definition add_count (c n : Z) (chars_count : gmap Z Z) : gmap Z Z :=
  <[c := default 0 (chars_count !! c) + n]> chars_count.

(** The body of the inner loop of lines 366-382, on
    [(all_chars_count, chars_count)]. *)
Definition count_char (X : Externals) (w : Sentence) (c : Z)
    (st : Z * gmap Z Z) : result (Z * gmap Z Z) :=
  if negb (IsValidCodepoint X c) then Ok st
  else if c =? 0x0000 then Ok st
  else if c =? 0x0020 then
    CHECK_OR_RETURN (negb (contains w.1 " ")) SpaceInCounted ;;
    Ok st
  else Ok (st.1 + w.2, add_count c w.2 st.2).

(** Lines 363-383. *)
Definition count_chars (X : Externals) (sentences : list Sentence)
    : result (Z * gmap Z Z) :=
  for_each (λ w, for_each (count_char X w) (UTF8ToUnicodeText X w.1))
    sentences (0, ∅).

(** The order of [Sorted]: larger count first, then smaller key. *)
Definition before (p1 p2 : Z * Z) : Prop :=
  p2.2 < p1.2 ∨ (p1.2 = p2.2 ∧ p1.1 < p2.1).

Definition before_eq (p1 p2 : Z * Z) : Prop :=
  p2.2 < p1.2 ∨ (p1.2 = p2.2 ∧ p1.1 ≤ p2.1).

#[global] Instance before_eq_dec (p1 p2 : Z * Z) : Decision (before_eq p1 p2).
Proof. unfold before_eq. apply _. Defined.

(** Modelled from the spec: [Sorted] of util.h, which is not among the
    sources; "sort distinct codepoints by descending frequency (ties
    broken by codepoint value for determinism)".  The entries of the map
    are put in that order. *)
Definition util_Sorted (m : gmap Z Z) : list (Z * Z) :=
  merge_sort before_eq (map_to_list m).

(** [required_chars_.insert(w)]: an entry already there is kept. *)
Definition insert_new (w : Z * Z) (m : gmap Z Z) : gmap Z Z :=
  match m !! w.1 with
  | Some _ => m
  | None => <[w.1 := w.2]> m
  end.

(** *** The coverage of lines 389-391

    [double] and [float] are the binary64 and binary32 formats of
    IEEE 754, with 53 and 24 bits of precision: a value is a rational,
    and a conversion or an operation gives the number of the format that
    is nearest to the exact result, ties to the even mantissa.  The
    range of the exponent is not limited here: with [int64] counts a
    quotient is 0 or lies between [2^-63] and [2^63], where neither
    format overflows or loses precision to subnormal numbers. *)

(** The integer nearest to [z], ties to the even one. *)
Definition rne (z : Q) : Z :=
  let f := Qfloor z in
  match Qcompare (z - inject_Z f) (1 # 2) with
  | Lt => f
  | Gt => f + 1
  | Eq => if Z.even f then f else f + 1
  end.

(** For [0 < x], the exponent [e] with [2^e <= x < 2^(e+1)]. *)
Definition ilog2 (x : Q) : Z :=
  let d := Z.log2 (Qnum x) - Z.log2 (Z.pos (Qden x)) in
  if Qle_bool (2 ^ d) x then d else d - 1.

(** Rounding to [p] bits of precision: the multiple of the unit in the
    last place that is nearest to [x], ties to even. *)
Definition RN (p : Z) (x : Q) : Q :=
  match Qnum x with
  | Z0 => 0%Q
  | Z.pos _ =>
      let u := (2 ^ (ilog2 x - p + 1))%Q in
      (inject_Z (rne (x / u)) * u)%Q
  | Z.neg _ =>
      let u := (2 ^ (ilog2 (- x) - p + 1))%Q in
      (- (inject_Z (rne (- x / u)) * u))%Q
  end.

(** The conversion of an [int64] to [double]. *)
Definition to_double (n : Z) : Q := RN 53 (inject_Z n).

(** Line 389: [const float coverage =
    1.0 * accumulated_chars_count / all_chars_count], the product and
    the quotient in [double], the result converted to [float].  (For
    [all_chars_count = 0] see [coverage_ge].) *)
Definition coverage (accumulated_chars_count all_chars_count : Z) : Q :=
  RN 24
    (RN 53
       (RN 53 (1 * to_double accumulated_chars_count)
        / to_double all_chars_count)).

(** Line 391: [coverage >= trainer_spec_.character_coverage()].  A
    division by [0.0] gives an infinity with the sign of the dividend,
    and [0.0 / 0.0] gives a NaN, which compares false. *)
Definition coverage_ge (accumulated_chars_count all_chars_count : Z)
    (target : Q) : bool :=
  if all_chars_count =? 0 then 0 <? accumulated_chars_count
  else Qle_bool target (coverage accumulated_chars_count all_chars_count).

(** The loop of lines 387-400 over the sorted entries, on
    [(accumulated_chars_count, required_chars_)]. *)
Fixpoint required_chars_loop (spec : TrainerSpec)
    (all_chars_count : Z) (sorted : list (Z * Z)) (st : Z * gmap Z Z)
    : result (Z * gmap Z Z) :=
  match sorted with
  | [] => Ok st
  | w :: sorted' =>
      if negb (use_all_vocab spec)
         && coverage_ge st.1 all_chars_count (character_coverage spec)
      then Ok st
      else
        let accumulated := st.1 + w.2 in
        CHECK_OR_RETURN (negb (w.1 =? 0x0020)) SpaceInSorted ;;
        if w.1 =? kUPPBoundaryChar then
          required_chars_loop spec all_chars_count sorted'
            (accumulated, st.2)
        else
          required_chars_loop spec all_chars_count sorted'
            (accumulated, insert_new w st.2)
  end.

(** Lines 410-420. *)
Definition replace_rare (X : Externals) (required_chars : gmap Z Z)
    (w : Sentence) : Sentence :=
  on_text (λ text,
    UnicodeTextToUTF8 X
      ((λ c, if bool_decide (is_Some (required_chars !! c))
             then c else kUNKChar) <$> UTF8ToUnicodeText X text)) w.

(** ** LoadSentences *)

Definition LoadSentences (X : Externals) (t : TrainerInterface)
    : result TrainerInterface :=
  let spec := trainer_spec_ t in
  status_ t ;;
  CHECK_OR_RETURN (bool_decide (sentences_ t = [])) SentencesNotEmpty ;;
  CHECK_OR_RETURN (bool_decide (required_chars_ t = ∅))
    RequiredCharsNotEmpty ;;
  CHECK_OR_RETURN
    (empty (input_format spec) || String.eqb (input_format spec) "text"
     || String.eqb (input_format spec) "tsv") BadInputFormat ;;
  let is_tsv := String.eqb (input_format spec) "tsv" in
  r ← load_files X spec is_tsv (input spec) (new_load_state X t);
  let st := at_END r in
  sentences ← normalize_sentences X t (loaded st);
  '(all_chars_count, chars_count) ← count_chars X sentences;
  '(_, required_chars) ←
    required_chars_loop spec all_chars_count (util_Sorted chars_count)
      (0, required_chars_ t);
  CHECK_OR_RETURN (negb (bool_decide (is_Some (required_chars !! kUNKChar))))
    UnkCharRequired ;;
  let sentences := replace_rare X required_chars <$> sentences in
  (if negb (bool_decide (model_type spec = WORD))
      && negb (bool_decide (model_type spec = CHAR))
   then CHECK_OR_RETURN
          (to_int (Z.of_nat (size required_chars + size (meta_pieces_ t)))
           <=? vocab_size spec) VocabSmallerThanRequiredChars
   else Ok ()) ;;
  Ok {| trainer_spec_ := spec;
        normalizer_spec_ := normalizer_spec_ t;
        status_ := status_ t;
        meta_pieces_ := meta_pieces_ t;
        sentences_ := sentences;
        required_chars_ := required_chars;
        final_pieces_ := final_pieces_ t;
        self_test_samples_ := test_samples st |}.

(** ** Serialize *)

(** [static_cast<int32>] of a size. *)
Definition to_int32 (z : Z) : Z := to_int z.

(** What the loop of lines 466-483 carries along: the pieces of
    [model_proto], the set [dup] and the index [fid]. *)
Record serialize_state : Type := {
  out_pieces : list SentencePiece;
  seen : gset string;
  fid : nat;
}.

(** The macro [CHECK_PIECE], on the set [dup]. *)
Definition CHECK_PIECE (X : Externals) (piece : string) (dup : gset string)
    : result (gset string) :=
  CHECK_OR_RETURN (IsStructurallyValid X piece) PieceNotStructurallyValid ;;
  CHECK_OR_RETURN (negb (empty piece)) PieceEmpty ;;
  CHECK_OR_RETURN (negb (bool_decide (piece ∈ dup))) PieceAlreadyDefined ;;
  Ok ({[piece]} ∪ dup).

(** The body of [for (int id = 0; id < vocab_size; ++id)]. *)
Definition serialize_step (X : Externals) (t : TrainerInterface) (id : Z)
    (st : serialize_state) : result serialize_state :=
  match meta_pieces_ t !! id with
  | Some (w, ty) =>
      let sp := {| piece := w; score := 0; type := ty |} in
      let pieces' := out_pieces st ++ [sp] in
      CHECK_OR_RETURN (Z.of_nat (length pieces') - 1 =? id)
        MetaPieceIdMismatch ;;
      CHECK_OR_RETURN (negb (bool_decide (NORMAL = type sp)))
        MetaPieceIsNormal ;;
      dup' ← CHECK_PIECE X (piece sp) (seen st);
      Ok {| out_pieces := pieces'; seen := dup'; fid := fid st |}
  | None =>
      match final_pieces_ t !! fid st with
      | Some w =>
          let sp := {| piece := w.1; score := w.2; type := NORMAL |} in
          dup' ← CHECK_PIECE X (piece sp) (seen st);
          Ok {| out_pieces := out_pieces st ++ [sp]; seen := dup';
                fid := S (fid st) |}
      | None => Ok st
      end
  end.

Definition Serialize (X : Externals) (t : TrainerInterface)
    (model_proto : ModelProto) : result ModelProto :=
  let spec := trainer_spec_ t in
  status_ t ;;
  st ← for_each (serialize_step X t) (seqZ 0 (vocab_size spec))
         {| out_pieces := pieces model_proto; seen := ∅; fid := 0 |};
  CHECK_OR_RETURN (fid st =? length (final_pieces_ t))%nat FinalPiecesLeft ;;
  let n := Z.of_nat (length (out_pieces st)) in
  if negb (hard_vocab_limit spec) || bool_decide (model_type spec = CHAR)
  then
    CHECK_OR_RETURN (n <=? vocab_size spec) TooManyPieces ;;
    CHECK_OR_RETURN (to_int32 (Z.of_nat (size (seen st))) <=? vocab_size spec)
      TooManyDistinctPieces ;;
    Ok {| pieces := out_pieces st;
          proto_trainer_spec := Some (set_vocab_size n spec);
          proto_normalizer_spec := Some (normalizer_spec_ t) |}
  else
    CHECK_OR_RETURN (vocab_size spec =? n) PieceCountMismatch ;;
    CHECK_OR_RETURN (vocab_size spec =? to_int32 (Z.of_nat (size (seen st))))
      DistinctPieceCountMismatch ;;
    Ok {| pieces := out_pieces st;
          proto_trainer_spec := Some spec;
          proto_normalizer_spec := Some (normalizer_spec_ t) |}.

(** ** An environment to run the model in

    The functions the file takes from util.h, filesystem.h, normalizer.h
    and the C library, written out so that the definitions above can be
    evaluated.  The theorems hold for every [Externals]; only the runs on
    concrete inputs below use this one. *)

Definition bytes (s : string) : list Z :=
  (λ a, Z.of_nat (Ascii.nat_of_ascii a)) <$> String.list_ascii_of_string s.

Definition of_bytes (l : list Z) : string :=
  String.string_of_list_ascii ((λ b, byte (Z.to_nat b)) <$> l).

Definition continuation (b : Z) : bool := (0x80 <=? b) && (b <? 0xC0).

(** UTF-8 decoding; [None] at a byte that starts no well-formed
    sequence. *)
Fixpoint utf8_decode (l : list Z) : list (option Z) :=
  match l with
  | [] => []
  | b0 :: r0 =>
      if b0 <? 0x80 then Some b0 :: utf8_decode r0
      else
        match r0 with
        | [] => [None]
        | b1 :: r1 =>
            if (0xC2 <=? b0) && (b0 <? 0xE0) && continuation b1 then
              Some ((b0 - 0xC0) * 64 + (b1 - 0x80)) :: utf8_decode r1
            else
              match r1 with
              | [] => None :: utf8_decode r0
              | b2 :: r2 =>
                  if (0xE0 <=? b0) && (b0 <? 0xF0) && continuation b1
                     && continuation b2 then
                    Some ((b0 - 0xE0) * 4096 + (b1 - 0x80) * 64 + (b2 - 0x80))
                      :: utf8_decode r2
                  else
                    match r2 with
                    | [] => None :: utf8_decode r0
                    | b3 :: r3 =>
                        if (0xF0 <=? b0) && (b0 <? 0xF5) && continuation b1
                           && continuation b2 && continuation b3 then
                          Some ((b0 - 0xF0) * 262144 + (b1 - 0x80) * 4096
                                + (b2 - 0x80) * 64 + (b3 - 0x80))
                            :: utf8_decode r3
                        else None :: utf8_decode r0
                    end
              end
        end
  end.

Definition utf8_encode (c : Z) : list Z :=
  if c <? 0x80 then [c]
  else if c <? 0x800 then [0xC0 + c / 64; 0x80 + c mod 64]
  else if c <? 0x10000 then
    [0xE0 + c / 4096; 0x80 + (c / 64) mod 64; 0x80 + c mod 64]
  else
    [0xF0 + c / 262144; 0x80 + (c / 4096) mod 64; 0x80 + (c / 64) mod 64;
     0x80 + c mod 64].

Definition valid_codepoint (c : Z) : bool :=
  ((0 <=? c) && (c <? 0xD800)) || ((0xE000 <=? c) && (c <=? 0x10FFFF)).

Definition structurally_valid (s : string) : bool :=
  forallb (λ o, match o with Some c => valid_codepoint c | None => false end)
    (utf8_decode (bytes s)).

(** Splitting at the characters of [delim], empty fields left out. *)
Fixpoint split_from (delim : list Ascii.ascii) (field s : string)
    : list string :=
  match s with
  | "" => if empty field then [] else [field]
  | String c s' =>
      if existsb (Ascii.eqb c) delim then
        (if empty field then [] else [field]) ++ split_from delim "" s'
      else split_from delim (field +:+ String c "") s'
  end.

Fixpoint leading_digits (acc : Z) (s : string) : Z :=
  match s with
  | "" => acc
  | String c s' =>
      let n := Z.of_nat (Ascii.nat_of_ascii c) in
      if (48 <=? n) && (n <=? 57) then leading_digits (acc * 10 + (n - 48)) s'
      else acc
  end.

(** [atoll] on a string without leading white space: an optional sign
    and the leading decimal digits, 0 when there are none. *)
Definition leading_integer (s : string) : Z :=
  match s with
  | String c s' =>
      if Ascii.eqb c (byte 45) then - leading_digits 0 s'
      else if Ascii.eqb c (byte 43) then leading_digits 0 s'
      else leading_digits 0 s
  | "" => 0
  end.

(** A sampler run in which no draw replaces a kept item: the first
    [size] items stay. *)
Definition head_sampler (T : Type) : ReservoirSampler T :=
  {| sampler := Z;
     sampler_new := λ size _, size;
     sampler_Add := λ item st,
       if Z.of_nat (length st.2) <? st.1 then (st.1, st.2 ++ [item]) else st |}.

(** A few scripts: 1 for the Latin letters, 2 for the unified Han
    ideographs, 3 and 4 for the two kana blocks, 0 for the rest. *)
Definition scripts (c : Z) : Z :=
  if ((0x41 <=? c) && (c <=? 0x5A)) || ((0x61 <=? c) && (c <=? 0x7A)) then 1
  else if (0x4E00 <=? c) && (c <=? 0x9FFF) then 2
  else if (0x3040 <=? c) && (c <=? 0x309F) then 3
  else if (0x30A0 <=? c) && (c <=? 0x30FF) then 4
  else 0.

(** The comparison of the coverage with the target on the exact
    quotient, without the rounding of [coverage_ge]. *)
Definition exact_coverage_ge (acc all : Z) (target : Q) : bool :=
  match all with
  | Z.pos d => Qle_bool target (acc # d)
  | _ => false
  end.

(** The environment with the given files and normalization; meta
    pieces are taken not to occur in the corpus. *)
Definition run_env (files : list (string * list string))
    (normalize : string → string) : Externals :=
  {| NewReadableFile := λ filename,
       (list_to_map files : gmap string (list string)) !! filename;
     Split := λ s delim, split_from (String.list_ascii_of_string delim) "" s;
     IsValidCodepoint := valid_codepoint;
     IsStructurallyValid := structurally_valid;
     UTF8ToUnicodeText := λ s, default 0xFFFD <$> utf8_decode (bytes s);
     UnicodeTextToUTF8 := λ u, of_bytes (u ≫= utf8_encode);
     sentence_sampler := head_sampler Sentence;
     test_sampler := head_sampler string;
     atoll := leading_integer;
     Normalize := λ _, normalize;
     GlobalReplace := λ _ s _, s;
     GetScript := scripts;
     U_Han := 2; U_Hiragana := 3; U_Katakana := 4 |}.

Example utf8_decode_kWSStr : utf8_decode (bytes kWSStr) = [Some kWSChar].
Proof. vm_compute. reflexivity. Qed.

Example utf8_roundtrip_kUNKChar :
  of_bytes (utf8_encode kUNKChar) = kUNKStr.
Proof. vm_compute. reflexivity. Qed.

Example split_tsv_line :
  split_from (String.list_ascii_of_string kUPPBoundaryStr) ""
    ("word" +:+ kUPPBoundaryStr +:+ "12") = ["word"; "12"].
Proof. vm_compute. reflexivity. Qed.


(* ===================================================================== *)
(** * Properties                                                          *)
(* ===================================================================== *)

(** ** General facts on checks and loops *)

Lemma seq_Ok {B : Type} (c : result unit) (k : result B) (b : B) :
  (c ;; k) = Ok b ↔ c = Ok () ∧ k = Ok b.
Proof.
  destruct c as [[]|e]; simpl; split; try tauto; try done.
  by intros [? _].
Qed.

Lemma seq_Err {B : Type} (c : result unit) (k : result B) (e : error) :
  c = Err e → (c ;; k) = Err e.
Proof. by intros ->. Qed.

Lemma negb_empty (s : string) : negb (empty s) = true ↔ s ≠ "".
Proof. rewrite negb_true_iff. apply empty_false. Qed.

Lemma in_range_spec (v lo hi : Z) : in_range v lo hi = true ↔ lo ≤ v ≤ hi.
Proof. unfold in_range. rewrite andb_true_iff, !Z.leb_le. tauto. Qed.

Lemma in_rangeQ_spec (v lo hi : Q) :
  in_rangeQ v lo hi = true ↔ (lo <= v)%Q ∧ (v <= hi)%Q.
Proof. unfold in_rangeQ. rewrite andb_true_iff, !Qle_bool_iff. tauto. Qed.

(** ** VerifySpec (C8) *)

(** The conditions the specification lists for an accepted
    configuration. *)
Definition listed_conditions (ts : TrainerSpec) : Prop :=
  model_prefix ts ≠ "" ∧
  input ts ≠ [] ∧
  0 < vocab_size ts ∧
  (model_type ts = UNIGRAM ∨ model_type ts = BPE → use_all_vocab ts = false) ∧
  ((98 # 100) <= character_coverage ts)%Q ∧ (character_coverage ts <= 1)%Q ∧
  1 ≤ max_sentencepiece_length ts ≤ 512 ∧
  1 ≤ num_threads ts ≤ 128 ∧
  0 ≤ self_test_sample_size ts ≤ 1000 ∧
  10 ≤ max_sentence_length ts ≤ 2 ^ 30 ∧
  unk_piece ts ≠ "" ∧ bos_piece ts ≠ "" ∧ eos_piece ts ≠ "" ∧
  pad_piece ts ≠ "".

(** The three checks of [VerifySpec] that the list leaves out. *)
Definition further_conditions (ts : TrainerSpec) : Prop :=
  1 ≤ num_sub_iterations ts ≤ 10 ∧
  ((5 # 10) <= shrinking_factor ts)%Q ∧ (shrinking_factor ts <= (95 # 100))%Q ∧
  (input_sentence_size ts ≤ 0 ∨ 100 < input_sentence_size ts).

Lemma use_all_vocab_check (ts : TrainerSpec) :
  (if bool_decide (model_type ts = UNIGRAM) || bool_decide (model_type ts = BPE)
   then CHECK_OR_RETURN (negb (use_all_vocab ts)) BadUseAllVocab
   else Ok ()) = Ok ()
  ↔ (model_type ts = UNIGRAM ∨ model_type ts = BPE → use_all_vocab ts = false).
Proof.
  destruct (model_type ts), (use_all_vocab ts); simpl; split;
    first [ done | by intros _ [|] | by intros H; discriminate H; auto ].
Qed.

(** A configuration with every listed field in range and
    [num_sub_iterations = 0]. *)
Definition no_sub_iterations : TrainerSpec :=
  {| model_prefix := "m"; input := ["corpus.txt"]; input_format := "";
     vocab_size := 8000; model_type := UNIGRAM; use_all_vocab := false;
     hard_vocab_limit := true; character_coverage := default_character_coverage;
     max_sentencepiece_length := 16; num_sub_iterations := 0;
     num_threads := 16; self_test_sample_size := 0;
     shrinking_factor := 75 # 100; max_sentence_length := 4192;
     input_sentence_size := 0; shuffle_input_sentence := true;
     unk_piece := "<unk>"; bos_piece := "<s>"; eos_piece := "</s>";
     pad_piece := "<pad>"; unk_id := 0; bos_id := 1; eos_id := 2;
     pad_id := -1; control_symbols := []; user_defined_symbols := [];
     treat_whitespace_as_suffix := false; split_by_whitespace := true;
     split_by_number := true; split_by_unicode_script := true |}.

(** C8, as stated, fails: this configuration meets every listed condition
    and is rejected, by the range check on [num_sub_iterations]. *)
Lemma VerifySpec_listed_conditions_not_enough :
  listed_conditions no_sub_iterations ∧
  VerifySpec no_sub_iterations = Err BadNumSubIterations.
Proof.
  split; [|vm_compute; reflexivity].
  unfold listed_conditions; simpl.
  repeat split; try done; try lia; try (by intros [|]).
Qed.

(** C8, amended.  [VerifySpec] accepts a configuration if and only if the
    listed conditions hold and, besides, the number of sub-iterations is
    in [1, 10], the shrinking factor is in [0.5, 0.95] and the input
    sentence size is at most 0 or more than 100.  A configuration it
    rejects leaves the trainer with that error as its status, and
    [LoadSentences] and [Serialize] return it before they do anything. *)
Theorem VerifySpec_accepts_iff (X : Externals) (ts : TrainerSpec)
    (ns : NormalizerSpec) (model_proto : ModelProto) :
  (VerifySpec ts = Ok () ↔ listed_conditions ts ∧ further_conditions ts) ∧
  (∀ e, VerifySpec ts = Err e →
     status_ (new_TrainerInterface ts ns) = Err e ∧
     LoadSentences X (new_TrainerInterface ts ns) = Err e ∧
     Serialize X (new_TrainerInterface ts ns) model_proto = Err e).
Proof.
  split.
  - unfold VerifySpec, listed_conditions, further_conditions.
    rewrite !seq_Ok, use_all_vocab_check, !CHECK_Ok, !negb_empty,
      !in_range_spec, !in_rangeQ_spec, orb_true_iff, !Z.ltb_lt, Z.leb_le.
    change 1073741824 with (2 ^ 30).
    assert (0 < Z.of_nat (length (input ts)) ↔ input ts ≠ []) as ->.
    { destruct (input ts); simpl; split; try done; lia. }
    tauto.
  - intros e He.
    unfold LoadSentences, Serialize, new_TrainerInterface; simpl.
    by rewrite He.
Qed.

(** ** InitMetaPieces: the reserved symbols (C5) *)

(** The four reserved symbols in the order of lines 569-572. *)
Definition reserved (ts : TrainerSpec) : list (Z * string) :=
  [ (unk_id ts, unk_piece ts); (bos_id ts, bos_piece ts);
    (eos_id ts, eos_piece ts); (pad_id ts, pad_piece ts) ].

(** Those with a non-negative identifier. *)
Definition registered (l : list (Z * string)) : list (Z * string) :=
  filter (λ p, 0 ≤ p.1) l.

(** How many of them carry the text of the unknown piece. *)
Definition unk_count (ts : TrainerSpec) (l : list (Z * string)) : nat :=
  length (filter (λ p, p.2 = unk_piece ts) l).

Definition entry (ts : TrainerSpec) (w : string) : string * PieceType :=
  (w, if String.eqb w (unk_piece ts) then UNKNOWN else CONTROL).

Definition add_all (ts : TrainerSpec) (l : list (Z * string))
    (m : gmap Z (string * PieceType)) : gmap Z (string * PieceType) :=
  foldl (λ m p, <[p.1 := entry ts p.2]> m) m l.

Fixpoint insert_ids (ts : TrainerSpec) (l : list (Z * string))
    (st : bool * gmap Z (string * PieceType))
    : option (bool * gmap Z (string * PieceType)) :=
  match l with
  | [] => Some st
  | p :: l' =>
      match insert_id ts p.1 p.2 st with
      | Some st' => insert_ids ts l' st'
      | None => None
      end
  end.

Lemma insert_reserved_Ok (ts : TrainerSpec) (m m' : gmap Z (string * PieceType)) :
  insert_reserved ts m = Ok m'
  ↔ insert_ids ts (reserved ts) (false, m) = Some (true, m').
Proof.
  unfold insert_reserved, reserved. cbn [insert_ids fst snd].
  destruct (insert_id ts (unk_id ts) _ _) as [st1|]; simpl; [|done].
  destruct (insert_id ts (bos_id ts) _ _) as [st2|]; simpl; [|done].
  destruct (insert_id ts (eos_id ts) _ _) as [st3|]; simpl; [|done].
  destruct (insert_id ts (pad_id ts) _ _) as [[[] m4]|]; simpl; [| |done].
  - split; congruence.
  - split; congruence.
Qed.

Lemma insert_id_Some (ts : TrainerSpec) (id : Z) (w : string) (h h' : bool)
    (m m' : gmap Z (string * PieceType)) :
  insert_id ts id w (h, m) = Some (h', m') ↔
    (id < 0 ∧ h' = h ∧ m' = m) ∨
    (0 ≤ id ∧ id < vocab_size ts ∧ m !! id = None ∧
     ¬ (h = true ∧ w = unk_piece ts) ∧
     h' = (h || String.eqb w (unk_piece ts)) ∧ m' = <[id := entry ts w]> m).
Proof.
  unfold insert_id, entry.
  destruct (Z.ltb_spec id 0).
  { split; [intros [= <- <-]; left; done|].
    intros [(_ & -> & ->)|(? & _)]; [done|lia]. }
  destruct (Z.leb_spec (vocab_size ts) id); simpl.
  { split; [done|]. intros [(? & _)|(_ & ? & _)]; lia. }
  destruct (m !! id) as [e|] eqn:Hm; simpl.
  { split; [done|]. intros [(? & _)|(_ & _ & ? & _)]; [lia|done]. }
  destruct (String.eqb_spec w (unk_piece ts)) as [->|Hw], h; simpl.
  - split; [done|]. intros [(? & _)|(_ & _ & _ & Hn & _)]; [lia|tauto].
  - split; [intros [= <- <-]|]; [right; repeat split; try done; try lia; tauto|].
    intros [(? & _)|(_ & _ & _ & _ & -> & ->)]; [lia|done].
  - split; [intros [= <- <-]|]; [right; repeat split; try done; try lia; tauto|].
    intros [(? & _)|(_ & _ & _ & _ & -> & ->)]; [lia|done].
  - split; [intros [= <- <-]|]; [right; repeat split; try done; try lia; tauto|].
    intros [(? & _)|(_ & _ & _ & _ & -> & ->)]; [lia|done].
Qed.


Lemma unk_count_cons (ts : TrainerSpec) (p : Z * string) (l : list (Z * string)) :
  unk_count ts (p :: l)
  = if String.eqb p.2 (unk_piece ts) then S (unk_count ts l)
    else unk_count ts l.
Proof.
  unfold unk_count.
  destruct (String.eqb_spec p.2 (unk_piece ts)) as [He|He].
  - by rewrite filter_cons_True.
  - by rewrite filter_cons_False.
Qed.

Lemma Forall_fresh_insert (ts : TrainerSpec) (k : Z) (e : string * PieceType)
    (m : gmap Z (string * PieceType)) (l : list (Z * string)) :
  Forall (λ q, q.1 < vocab_size ts ∧ <[k := e]> m !! q.1 = None) l
  ↔ Forall (λ q, q.1 < vocab_size ts ∧ m !! q.1 = None) l ∧ k ∉ l.*1.
Proof.
  induction l as [|q l IH]; simpl.
  - split; [intros _; split; [constructor|by intros ?%elem_of_nil]|constructor].
  - rewrite !Forall_cons, IH, not_elem_of_cons, lookup_insert_None. tauto.
Qed.

(** The reserved symbols go in if and only if the registered identifiers
    are below the vocabulary size, free and pairwise distinct and at most
    one of them claims the unknown text. *)
Lemma insert_ids_Some (ts : TrainerSpec) (l : list (Z * string)) (h h' : bool)
    (m m' : gmap Z (string * PieceType)) :
  insert_ids ts l (h, m) = Some (h', m') ↔
    Forall (λ p, p.1 < vocab_size ts ∧ m !! p.1 = None) (registered l) ∧
    NoDup (registered l).*1 ∧
    (Nat.b2n h + unk_count ts (registered l) ≤ 1)%nat ∧
    h' = bool_decide (1 ≤ Nat.b2n h + unk_count ts (registered l))%nat ∧
    m' = add_all ts (registered l) m.
Proof.
  revert h m. induction l as [|p l IH]; intros h m.
  - change (registered []) with (@nil (Z * string)). simpl. split.
    + intros [= <- <-].
      split; [constructor|]. split; [constructor|].
      unfold unk_count. simpl.
      destruct h; simpl; repeat split; try lia; try done.
    + intros (_ & _ & _ & -> & ->). by destruct h.
  - cbn [insert_ids].
    destruct (insert_id ts p.1 p.2 (h, m)) as [[h1 m1]|] eqn:Hid.
    + apply insert_id_Some in Hid. rewrite IH. unfold registered.
      destruct Hid as [(Hneg & -> & ->)|(Hpos & Hv & Hm & Hunk & -> & ->)].
      * rewrite filter_cons_False by lia. done.
      * rewrite filter_cons_True by done. fold (registered l).
        rewrite Forall_fresh_insert, Forall_cons, fmap_cons, NoDup_cons,
          unk_count_cons.
        cbn [add_all foldl].
        assert (Nat.b2n (h || String.eqb p.2 (unk_piece ts))
                + unk_count ts (registered l)
                = Nat.b2n h + (if String.eqb p.2 (unk_piece ts)
                               then S (unk_count ts (registered l))
                               else unk_count ts (registered l)))%nat as ->.
        { destruct h, (String.eqb_spec p.2 (unk_piece ts)); simpl; try lia.
          tauto. }
        tauto.
    + split; [done|]. intros (HF & HN & Hc & _ & _). exfalso.
      assert (is_Some (insert_id ts p.1 p.2 (h, m))) as [[h1 m1] Hs];
        [|congruence].
      destruct (Z.lt_ge_cases p.1 0) as [Hneg|Hpos].
      { exists (h, m). apply insert_id_Some. by left. }
      eexists (_, _). apply insert_id_Some. right.
      unfold registered in HF, Hc. rewrite filter_cons_True in HF, Hc by done.
      apply Forall_cons in HF as [[? ?] _]. rewrite unk_count_cons in Hc.
      repeat split; try done.
      intros [-> He]. rewrite He, String.eqb_refl in Hc. simpl in Hc. lia.
Qed.

Lemma add_all_lookup (ts : TrainerSpec) (l : list (Z * string))
    (m : gmap Z (string * PieceType)) (k : Z) (e : string * PieceType) :
  NoDup (l.*1) →
  add_all ts l m !! k = Some e ↔
    (∃ w, (k, w) ∈ l ∧ e = entry ts w) ∨ ((k ∉ l.*1) ∧ m !! k = Some e).
Proof.
  revert m. induction l as [|[k1 w1] l IH]; intros m Hnd.
  - simpl. split.
    + intros H. right. split; [by intros ?%elem_of_nil|done].
    + intros [(w & Hw%elem_of_nil & _)|[_ H]]; done.
  - rewrite fmap_cons in Hnd. apply NoDup_cons in Hnd as [Hk1 Hnd].
    cbn [add_all foldl fst snd]. fold (add_all ts l (<[k1:=entry ts w1]> m)).
    rewrite IH by done. rewrite fmap_cons, not_elem_of_cons. cbn [fst].
    rewrite lookup_insert_Some. split.
    + intros [(w & Hw & ->)|(Hk & [(<- & <-)|(Hne & Hm)])].
      * left. exists w. split; [by right|done].
      * left. exists w1. split; [by left|done].
      * right. done.
    + intros [(w & Hw & ->)|((Hne & Hk) & Hm)].
      * apply elem_of_cons in Hw as [[= -> ->]|Hw].
        -- right. split; [done|]. by left.
        -- left. by exists w.
      * right. split; [done|]. right. done.
Qed.

(** ** InitMetaPieces: control and user defined symbols (C4) *)

Lemma skip_used_loop_spec (fuel : nat) (m : gmap Z (string * PieceType))
    (id : Z) :
  let k := skip_used_loop fuel m id in
  id ≤ k ∧ (∀ j, id ≤ j < k → is_Some (m !! j)) ∧
  (m !! k = None ∨ k = id + Z.of_nat fuel).
Proof.
  revert id. induction fuel as [|fuel IH]; intros id; cbn [skip_used_loop].
  - split; [lia|]. split; [intros j ?; lia|right; lia].
  - destruct (m !! id) as [e|] eqn:Hid.
    + rewrite bool_decide_true by eauto.
      destruct (IH (id + 1)) as (Hle & Hused & Hend).
      split; [lia|]. split.
      * intros j Hj. destruct (decide (j = id)) as [->|]; [eauto|].
        apply Hused. lia.
      * destruct Hend as [?|Hend]; [by left|right; lia].
    + rewrite bool_decide_false by (by intros [? ?]).
      split; [lia|]. split; [intros j ?; lia|by left].
Qed.

(** The [while] loop stops at the first free identifier from [id] on. *)
Lemma skip_used_free (m : gmap Z (string * PieceType)) (id : Z) :
  id ≤ skip_used m id ∧ m !! skip_used m id = None ∧
  ∀ j, id ≤ j < skip_used m id → is_Some (m !! j).
Proof.
  unfold skip_used.
  destruct (skip_used_loop_spec (S (size m)) m id) as (Hle & Hused & Hend).
  split; [done|]. split; [|done].
  destruct Hend as [?|Hend]; [done|]. exfalso.
  assert (list_to_set (seqZ id (Z.of_nat (S (size m)))) ⊆ dom m) as Hsub.
  { intros j Hj. apply elem_of_list_to_set, elem_of_seqZ in Hj.
    apply elem_of_dom, Hused. lia. }
  apply subseteq_size in Hsub.
  rewrite size_dom, size_list_to_set, length_seqZ in Hsub
    by apply NoDup_seqZ.
  lia.
Qed.

(** The configured symbols with the category each loop gives them. *)
Definition symbols (ts : TrainerSpec) : list (string * PieceType) :=
  ((λ w, (w, CONTROL)) <$> control_symbols ts)
  ++ ((λ w, (w, USER_DEFINED)) <$> user_defined_symbols ts).

Fixpoint insert_meta_symbols (ts : TrainerSpec) (l : list (string * PieceType))
    (st : symbol_state) : option symbol_state :=
  match l with
  | [] => Some st
  | p :: l' =>
      match insert_meta_symbol ts p.1 p.2 st with
      | Some st' => insert_meta_symbols ts l' st'
      | None => None
      end
  end.

Lemma insert_meta_symbols_app (ts : TrainerSpec)
    (l1 l2 : list (string * PieceType)) (st : symbol_state) :
  insert_meta_symbols ts (l1 ++ l2) st
  = match insert_meta_symbols ts l1 st with
    | Some st' => insert_meta_symbols ts l2 st'
    | None => None
    end.
Proof.
  revert st. induction l1 as [|p l1 IH]; intros st; simpl; [done|].
  destruct (insert_meta_symbol ts p.1 p.2 st); [apply IH|done].
Qed.

Lemma for_each_symbol_step (ts : TrainerSpec) (ty : PieceType) (e : error)
    (ws : list string) (st : symbol_state) :
  for_each (symbol_step ts ty e) ws st
  = match insert_meta_symbols ts ((λ w, (w, ty)) <$> ws) st with
    | Some st' => Ok st'
    | None => Err e
    end.
Proof.
  revert st. induction ws as [|w ws IH]; intros st; simpl; [done|].
  unfold symbol_step at 1.
  destruct (insert_meta_symbol ts w ty st); simpl; [apply IH|done].
Qed.

(** The two loops accept the symbols exactly when the one pass over
    [symbols] does. *)
Lemma insert_symbols_Ok (ts : TrainerSpec) (st st' : symbol_state) :
  insert_symbols ts st = Ok st'
  ↔ insert_meta_symbols ts (symbols ts) st = Some st'.
Proof.
  unfold insert_symbols, symbols.
  rewrite insert_meta_symbols_app, !for_each_symbol_step.
  destruct (insert_meta_symbols ts _ st) as [st1|]; simpl; [|done].
  rewrite for_each_symbol_step.
  destruct (insert_meta_symbols ts _ st1); split; congruence.
Qed.

Lemma insert_symbols_Err (ts : TrainerSpec) (st : symbol_state) :
  insert_meta_symbols ts (symbols ts) st = None →
  insert_symbols ts st = Err BadControlSymbol ∨
  insert_symbols ts st = Err BadUserDefinedSymbol.
Proof.
  unfold insert_symbols, symbols.
  rewrite insert_meta_symbols_app, !for_each_symbol_step.
  destruct (insert_meta_symbols ts _ st) as [st1|]; simpl; [|by left].
  rewrite for_each_symbol_step.
  destruct (insert_meta_symbols ts _ st1); [done|by right].
Qed.

Lemma symbols_type (ts : TrainerSpec) (p : string * PieceType) :
  p ∈ symbols ts → p.2 = CONTROL ∨ p.2 = USER_DEFINED.
Proof.
  unfold symbols. rewrite elem_of_app, !list_elem_of_fmap.
  intros [(w & -> & _)|(w & -> & _)]; [by left|by right].
Qed.

(** A symbol is an alias when its text is that of the begin, end or pad
    symbol and that symbol has a non-negative identifier. *)
Definition aliased (ts : TrainerSpec) (w : string) : Prop :=
  (w = bos_piece ts ∧ 0 ≤ bos_id ts) ∨
  (w = eos_piece ts ∧ 0 ≤ eos_id ts) ∨
  (w = pad_piece ts ∧ 0 ≤ pad_id ts).

(** Exactly one entry of the registry has category [UNKNOWN], and it
    carries the unknown text. *)
Definition one_unknown (ts : TrainerSpec) (m : gmap Z (string * PieceType))
    : Prop :=
  ∃ k, m !! k = Some (unk_piece ts, UNKNOWN) ∧
       ∀ k' w, m !! k' = Some (w, UNKNOWN) → k' = k.

(** What holds of the state of [insert_meta_symbol] after the symbols
    [done_] have gone in. *)
Record symbols_inv (ts : TrainerSpec) (done_ : list string)
    (st : symbol_state) : Prop := {
  inv_dup : ∀ w, w ∈ dup st ↔ w ∈ done_;
  inv_next_id : 0 ≤ next_id st;
  inv_used : ∀ j, 0 ≤ j < next_id st → is_Some (registry st !! j);
  inv_reserved : ∀ k w, (k, w) ∈ registered (reserved ts) →
                        ∃ c, registry st !! k = Some (w, c);
  inv_unknown : one_unknown ts (registry st);
}.

Ltac in_reserved :=
  unfold reserved;
  repeat first [ apply list_elem_of_here | apply list_elem_of_further ].

(** What one call of [insert_meta_symbol] does in such a state. *)
Lemma insert_meta_symbol_spec (ts : TrainerSpec) (done_ : list string)
    (st : symbol_state) (w : string) (ty : PieceType) :
  symbols_inv ts done_ st →
  (w ∈ done_ ∨ w = unk_piece ts → insert_meta_symbol ts w ty st = None) ∧
  (w ∉ done_ → w ≠ unk_piece ts → aliased ts w →
     ∃ k c, (k, w) ∈ registered (reserved ts) ∧
            registry st !! k = Some (w, c) ∧
            insert_meta_symbol ts w ty st
            = Some {| next_id := next_id st; dup := {[w]} ∪ dup st;
                      registry := <[k := (w, ty)]> (registry st) |}) ∧
  (w ∉ done_ → w ≠ unk_piece ts → ¬ aliased ts w →
     ∃ k, 0 ≤ k ∧ registry st !! k = None ∧
          (∀ j, 0 ≤ j < k → is_Some (registry st !! j)) ∧
          insert_meta_symbol ts w ty st
          = Some {| next_id := k; dup := {[w]} ∪ dup st;
                    registry := <[k := (w, ty)]> (registry st) |}).
Proof.
  intros [Hdup Hnext Hused Hres Hunk]. unfold insert_meta_symbol.
  split; [|split].
  - intros [Hin| ->].
    + rewrite bool_decide_true by by apply Hdup. done.
    + case_bool_decide; [done|]. by rewrite String.eqb_refl.
  - intros Hin Hne Hal.
    rewrite bool_decide_false by by rewrite Hdup.
    rewrite (proj2 (String.eqb_neq _ _) Hne).
    assert (∀ id p, 0 ≤ id → (id, p) ∈ reserved ts →
              (id, p) ∈ registered (reserved ts)) as Hreg.
    { intros id p ? ?. by apply list_elem_of_filter. }
    unfold aliased in Hal.
    destruct (String.eqb_spec w (bos_piece ts)) as [Hb|Hb];
      [destruct (Z.leb_spec 0 (bos_id ts)) as [Hbi|Hbi]|]; simpl.
    1: { destruct (Hres (bos_id ts) w) as [c Hc];
           [apply Hreg; [done|]; rewrite Hb; in_reserved|].
         exists (bos_id ts), c. split; [apply Hreg; [done|]; rewrite Hb; in_reserved|].
         split; [done|]. unfold set_type. by rewrite Hc. }
    all: destruct (String.eqb_spec w (eos_piece ts)) as [He|He];
      [destruct (Z.leb_spec 0 (eos_id ts)) as [Hei|Hei]|]; simpl.
    all: try (destruct (Hres (eos_id ts) w) as [c Hc];
           [apply Hreg; [done|]; rewrite He; in_reserved|];
         exists (eos_id ts), c; split; [apply Hreg; [done|]; rewrite He; in_reserved|];
         split; [done|]; unfold set_type; by rewrite Hc).
    all: destruct (String.eqb_spec w (pad_piece ts)) as [Hp|Hp];
      [destruct (Z.leb_spec 0 (pad_id ts)) as [Hpi|Hpi]|]; simpl.
    all: try (destruct (Hres (pad_id ts) w) as [c Hc];
           [apply Hreg; [done|]; rewrite Hp; in_reserved|];
         exists (pad_id ts), c; split; [apply Hreg; [done|]; rewrite Hp; in_reserved|];
         split; [done|]; unfold set_type; by rewrite Hc).
    all: exfalso; destruct Hal as [[? ?]|[[? ?]|[? ?]]]; done || lia.
  - intros Hin Hne Hal.
    rewrite bool_decide_false by by rewrite Hdup.
    rewrite (proj2 (String.eqb_neq _ _) Hne).
    unfold aliased in Hal.
    assert (String.eqb w (bos_piece ts) && (0 <=? bos_id ts) = false) as ->.
    { apply andb_false_iff.
      destruct (String.eqb_spec w (bos_piece ts)); [|by left].
      right. apply Z.leb_gt. destruct (Z.lt_ge_cases (bos_id ts) 0); tauto. }
    assert (String.eqb w (eos_piece ts) && (0 <=? eos_id ts) = false) as ->.
    { apply andb_false_iff.
      destruct (String.eqb_spec w (eos_piece ts)); [|by left].
      right. apply Z.leb_gt. destruct (Z.lt_ge_cases (eos_id ts) 0); tauto. }
    assert (String.eqb w (pad_piece ts) && (0 <=? pad_id ts) = false) as ->.
    { apply andb_false_iff.
      destruct (String.eqb_spec w (pad_piece ts)); [|by left].
      right. apply Z.leb_gt. destruct (Z.lt_ge_cases (pad_id ts) 0); tauto. }
    destruct (skip_used_free (registry st) (next_id st)) as (Hle & Hfree & Hbelow).
    exists (skip_used (registry st) (next_id st)).
    split; [lia|]. split; [done|]. split; [|done].
    intros j Hj. destruct (Z.lt_ge_cases j (next_id st)).
    + apply Hused. lia.
    + apply Hbelow. lia.
Qed.

#[local] Instance aliased_dec (ts : TrainerSpec) (w : string) :
  Decision (aliased ts w).
Proof. unfold aliased. apply _. Defined.

Lemma one_unknown_insert (ts : TrainerSpec) (m : gmap Z (string * PieceType))
    (k : Z) (w : string) (ty : PieceType) :
  one_unknown ts m → ty ≠ UNKNOWN →
  (∀ c, m !! k = Some (unk_piece ts, c) → False) →
  one_unknown ts (<[k := (w, ty)]> m).
Proof.
  intros (k0 & Hk0 & Huniq) Hty Hk.
  assert (k ≠ k0) as Hne by (intros ->; eauto).
  exists k0. split; [by rewrite lookup_insert_ne|].
  intros k' w' Hk'. apply lookup_insert_Some in Hk' as [[_ [= _ ?]]|[_ Hk']].
  - by subst ty.
  - eauto.
Qed.

(** A call that accepts its symbol keeps the invariant. *)
Lemma symbols_inv_step (ts : TrainerSpec) (done_ : list string)
    (st st' : symbol_state) (w : string) (ty : PieceType) :
  symbols_inv ts done_ st → ty ≠ UNKNOWN →
  insert_meta_symbol ts w ty st = Some st' →
  symbols_inv ts (done_ ++ [w]) st'.
Proof.
  intros Hinv Hty Hst.
  destruct (insert_meta_symbol_spec ts done_ st w ty Hinv)
    as (Hrej & Halias & Halloc).
  destruct (decide (w ∈ done_)) as [Hin|Hin];
    [rewrite Hrej in Hst by (by left); done|].
  destruct (decide (w = unk_piece ts)) as [Hu|Hu];
    [rewrite Hrej in Hst by (by right); done|].
  destruct Hinv as [Hdup Hnext Hused Hres Hunk].
  assert (∀ x, x ∈ {[w]} ∪ dup st ↔ x ∈ done_ ++ [w]) as Hdup'.
  { intros x. rewrite elem_of_union, elem_of_singleton, elem_of_app,
      list_elem_of_singleton, Hdup. tauto. }
  destruct (decide (aliased ts w)) as [Hal|Hal].
  - destruct (Halias Hin Hu Hal) as (k & c & Hk & Hc & Heq).
    rewrite Heq in Hst. injection Hst as <-.
    split; simpl; try done.
    + intros j Hj. rewrite lookup_insert_is_Some. destruct (decide (k = j)); eauto.
    + intros k' w' Hk'. destruct (decide (k' = k)) as [->|Hne].
      * rewrite lookup_insert_eq. destruct (Hres k w' Hk') as [c' Hc'].
        rewrite Hc in Hc'. injection Hc' as -> _. eauto.
      * rewrite lookup_insert_ne by done. eauto.
    + apply one_unknown_insert; [done..|].
      intros c' Hc'. rewrite Hc in Hc'. by injection Hc' as -> _.
  - destruct (Halloc Hin Hu Hal) as (k & Hk0 & Hfree & Hbelow & Heq).
    rewrite Heq in Hst. injection Hst as <-.
    split; simpl; try done.
    + intros j Hj. rewrite lookup_insert_is_Some. destruct (decide (k = j)); eauto.
    + intros k' w' Hk'. destruct (Hres k' w' Hk') as [c' Hc'].
      assert (k ≠ k') by (intros ->; congruence).
      rewrite lookup_insert_ne by done. eauto.
    + apply one_unknown_insert; [done..|].
      intros c' Hc'. congruence.
Qed.

Lemma symbols_inv_run (ts : TrainerSpec) (l : list (string * PieceType))
    (done_ : list string) (st st' : symbol_state) :
  symbols_inv ts done_ st → Forall (λ p, p.2 ≠ UNKNOWN) l →
  insert_meta_symbols ts l st = Some st' →
  symbols_inv ts (done_ ++ l.*1) st'.
Proof.
  revert done_ st. induction l as [|p l IH]; intros done_ st Hinv Hl Hst.
  - simpl in *. injection Hst as <-. by rewrite app_nil_r.
  - apply Forall_cons in Hl as [Hp Hl]. cbn [insert_meta_symbols] in Hst.
    destruct (insert_meta_symbol ts p.1 p.2 st) as [st1|] eqn:Hst1; [|done].
    rewrite fmap_cons, cons_middle, app_assoc.
    eapply IH; [|done|done]. by eapply symbols_inv_step.
Qed.

Lemma unk_count_one (ts : TrainerSpec) (l : list (Z * string)) :
  unk_count ts l = 1%nat →
  ∃ k0, (k0, unk_piece ts) ∈ l ∧
        ∀ k, (k, unk_piece ts) ∈ l → k = k0.
Proof.
  unfold unk_count. intros Hlen.
  destruct (filter (λ p, p.2 = unk_piece ts) l) as [|[k0 w0] [|]] eqn:Hf;
    try done.
  assert ((k0, w0) ∈ filter (λ p, p.2 = unk_piece ts) l) as Hin
    by (rewrite Hf; apply list_elem_of_here).
  apply list_elem_of_filter in Hin as [Hw0 Hin]. simpl in Hw0. subst w0.
  exists k0. split; [done|]. intros k Hk.
  assert ((k, unk_piece ts) ∈ filter (λ p, p.2 = unk_piece ts) l) as Hk'
    by (by apply list_elem_of_filter).
  rewrite Hf in Hk'. apply list_elem_of_singleton in Hk'. congruence.
Qed.

(** The reserved symbols go in exactly under these conditions, and the
    registry is then the one that holds each registered symbol at its
    identifier. *)
Lemma insert_reserved_Ok_iff (ts : TrainerSpec)
    (m : gmap Z (string * PieceType)) :
  insert_reserved ts ∅ = Ok m ↔
    Forall (λ p, p.1 < vocab_size ts) (registered (reserved ts)) ∧
    NoDup ((registered (reserved ts)).*1) ∧
    unk_count ts (registered (reserved ts)) = 1%nat ∧
    m = add_all ts (registered (reserved ts)) ∅.
Proof.
  rewrite insert_reserved_Ok, insert_ids_Some. simpl.
  assert (Forall (λ p, p.1 < vocab_size ts ∧ (∅ : gmap Z (string * PieceType)) !! p.1 = None)
            (registered (reserved ts))
          ↔ Forall (λ p, p.1 < vocab_size ts) (registered (reserved ts))) as ->.
  { apply Forall_proper; [|done]. intros p. rewrite lookup_empty. tauto. }
  split.
  - intros (? & ? & ? & Hb & ?). repeat split; try done.
    symmetry in Hb. apply bool_decide_eq_true in Hb. lia.
  - intros (? & ? & -> & ?). repeat split; done.
Qed.

Lemma symbols_inv_init (ts : TrainerSpec) (m : gmap Z (string * PieceType)) :
  insert_reserved ts ∅ = Ok m →
  symbols_inv ts [] {| next_id := 0; dup := ∅; registry := m |}.
Proof.
  intros (Hv & Hnd & Hc & ->)%insert_reserved_Ok_iff.
  split; simpl.
  - intros w. rewrite elem_of_nil. set_solver.
  - done.
  - intros j ?. lia.
  - intros k w Hk. exists (entry ts w).2.
    apply add_all_lookup; [done|]. left. by exists w.
  - destruct (unk_count_one _ _ Hc) as (k0 & Hk0 & Huniq).
    exists k0. split.
    + apply add_all_lookup; [done|]. left. exists (unk_piece ts).
      split; [done|]. unfold entry. by rewrite String.eqb_refl.
    + intros k' w Hk'.
      apply add_all_lookup in Hk' as [(w' & Hw' & He)|[_ He]]; [|done|done].
      unfold entry in He.
      destruct (String.eqb_spec w' (unk_piece ts)) as [->|]; [|done].
      by apply Huniq.
Qed.


Lemma InitMetaPieces_Ok (ts : TrainerSpec) (m : gmap Z (string * PieceType)) :
  InitMetaPieces ts ∅ = Ok m ↔
    ∃ m0 st, insert_reserved ts ∅ = Ok m0 ∧
             insert_meta_symbols ts (symbols ts)
               {| next_id := 0; dup := ∅; registry := m0 |} = Some st ∧
             m = registry st.
Proof.
  unfold InitMetaPieces. rewrite bool_decide_true by done. simpl.
  destruct (insert_reserved ts ∅) as [m0|e]; simpl.
  - destruct (insert_symbols ts _) as [st|e] eqn:Hst; simpl.
    + apply insert_symbols_Ok in Hst. split.
      * intros [= <-]. by exists m0, st.
      * intros (? & ? & [= <-] & Hst' & ->). congruence.
    + split; [done|]. intros (? & st & [= <-] & Hst' & _).
      apply insert_symbols_Ok in Hst'. congruence.
  - split; [done|]. by intros (? & ? & ? & _).
Qed.

Lemma symbols_not_unknown (ts : TrainerSpec) (l : list (string * PieceType)) :
  l ⊆ symbols ts → Forall (λ p, p.2 ≠ UNKNOWN) l.
Proof.
  intros Hl. apply Forall_forall. intros p Hp.
  apply Hl, symbols_type in Hp. destruct Hp as [-> | ->]; done.
Qed.


(** The identifier whose entry a symbol with the text [w] is an alias
    of: that of the first of the begin, end and pad symbols that has the
    text [w] and a non-negative identifier. *)
Definition alias_of (ts : TrainerSpec) (w : string) (k : Z) : Prop :=
  (w = bos_piece ts ∧ 0 ≤ bos_id ts ∧ k = bos_id ts) ∨
  (¬ (w = bos_piece ts ∧ 0 ≤ bos_id ts) ∧
   w = eos_piece ts ∧ 0 ≤ eos_id ts ∧ k = eos_id ts) ∨
  (¬ (w = bos_piece ts ∧ 0 ≤ bos_id ts) ∧
   ¬ (w = eos_piece ts ∧ 0 ≤ eos_id ts) ∧
   w = pad_piece ts ∧ 0 ≤ pad_id ts ∧ k = pad_id ts).

Lemma aliased_alias_of (ts : TrainerSpec) (w : string) :
  aliased ts w ↔ ∃ k, alias_of ts w k.
Proof.
  unfold aliased, alias_of. split.
  - intros Hal.
    destruct (decide (w = bos_piece ts ∧ 0 ≤ bos_id ts)) as [[? ?]|Hb];
      [exists (bos_id ts); by left|].
    destruct (decide (w = eos_piece ts ∧ 0 ≤ eos_id ts)) as [[? ?]|He];
      [exists (eos_id ts); right; by left|].
    destruct Hal as [?|[?|[? ?]]]; [done|done|].
    exists (pad_id ts). right. by right.
  - intros [k [(? & ? & _)|[(_ & ? & ? & _)|(_ & _ & ? & ? & _)]]]; tauto.
Qed.

(** What one call of [insert_meta_symbol] that accepts its symbol does
    to the registry, [done_] being the symbols that went in before. *)
Lemma insert_meta_symbol_registered (ts : TrainerSpec) (done_ : list string)
    (st st' : symbol_state) (w : string) (ty : PieceType) :
  symbols_inv ts done_ st →
  insert_meta_symbol ts w ty st = Some st' →
  (w ∉ done_) ∧ w ≠ unk_piece ts ∧
  ∃ k, 0 ≤ k ∧ registry st' = <[k := (w, ty)]> (registry st) ∧
       (aliased ts w →
          alias_of ts w k ∧ (∃ c, registry st !! k = Some (w, c)) ∧
          dom (registry st') = dom (registry st)) ∧
       (¬ aliased ts w →
          registry st !! k = None ∧
          ∀ j, 0 ≤ j < k → is_Some (registry st !! j)).
Proof.
  intros Hinv Hst.
  destruct (insert_meta_symbol_spec ts done_ st w ty Hinv)
    as (Hrej & _ & Halloc).
  destruct (decide (w ∈ done_)) as [Hin|Hin];
    [rewrite Hrej in Hst by (by left); done|].
  destruct (decide (w = unk_piece ts)) as [Hu|Hu];
    [rewrite Hrej in Hst by (by right); done|].
  split; [done|]. split; [done|].
  destruct (decide (aliased ts w)) as [Hal|Hal].
  - destruct (proj1 (aliased_alias_of ts w) Hal) as [k Hk]. exists k.
    destruct Hinv as [Hdup Hnext Hused Hres Hunk].
    assert (0 ≤ k ∧ (k, w) ∈ reserved ts) as [Hk0 Hkw].
    { destruct Hk as [(-> & ? & ->)|[(_ & -> & ? & ->)|(_ & _ & -> & ? & ->)]];
        (split; [done|in_reserved]). }
    destruct (Hres k w) as [c Hc]; [by apply list_elem_of_filter|].
    assert (insert_meta_symbol ts w ty st
            = Some {| next_id := next_id st; dup := {[w]} ∪ dup st;
                      registry := <[k := (w, ty)]> (registry st) |}) as Heq.
    { unfold insert_meta_symbol.
      rewrite bool_decide_false by by rewrite Hdup.
      rewrite (proj2 (String.eqb_neq _ _) Hu).
      assert (∀ p id, ¬ (w = p ∧ 0 ≤ id) →
                String.eqb w p && (0 <=? id) = false) as Hno.
      { intros p id Hn. apply andb_false_iff.
        destruct (String.eqb_spec w p); [|by left].
        right. apply Z.leb_gt. destruct (Z.lt_ge_cases id 0); tauto. }
      assert (∀ p id, w = p → 0 ≤ id →
                String.eqb w p && (0 <=? id) = true) as Hyes.
      { intros p id -> Hid. rewrite String.eqb_refl.
        by apply Z.leb_le in Hid as ->. }
      destruct Hk as [(Hw & ? & Hkk)|[(Hb & Hw & ? & Hkk)|
                                       (Hb & He & Hw & ? & Hkk)]].
      - rewrite (Hyes _ _ Hw) by done. rewrite <- Hkk.
        unfold set_type. by rewrite Hc.
      - rewrite (Hno _ _ Hb), (Hyes _ _ Hw) by done. rewrite <- Hkk.
        unfold set_type. by rewrite Hc.
      - rewrite (Hno _ _ Hb), (Hno _ _ He), (Hyes _ _ Hw) by done.
        rewrite <- Hkk. unfold set_type. by rewrite Hc. }
    rewrite Heq in Hst. injection Hst as <-. cbn.
    split; [done|]. split; [done|]. split; [|done].
    intros _. split; [done|]. split; [by exists c|].
    apply dom_insert_lookup_L. eauto.
  - destruct (Halloc Hin Hu Hal) as (k & Hk0 & Hfree & Hbelow & Heq).
    rewrite Heq in Hst. injection Hst as <-. cbn. exists k.
    split; [done|]. split; [done|]. split; [done|]. by intros _.
Qed.

(** An entry that a symbol has got stays when later symbols go in. *)
Lemma insert_meta_symbols_keep (ts : TrainerSpec)
    (l : list (string * PieceType)) (done_ : list string)
    (st st' : symbol_state) (k : Z) (w : string) (ty : PieceType) :
  symbols_inv ts done_ st → Forall (λ p, p.2 ≠ UNKNOWN) l →
  w ∈ done_ → registry st !! k = Some (w, ty) →
  insert_meta_symbols ts l st = Some st' →
  registry st' !! k = Some (w, ty).
Proof.
  revert done_ st.
  induction l as [|[w1 ty1] l IH]; intros done_ st Hinv Hl Hw Hk Hst.
  - cbn in Hst. by injection Hst as <-.
  - apply Forall_cons in Hl as [Hty Hl].
    cbn [insert_meta_symbols fst snd] in Hst.
    destruct (insert_meta_symbol ts w1 ty1 st) as [st1|] eqn:Hst1; [|done].
    pose proof (symbols_inv_step ts _ st st1 w1 ty1 Hinv Hty Hst1) as Hinv1.
    destruct (insert_meta_symbol_registered ts _ st st1 w1 ty1 Hinv Hst1)
      as (Hin & _ & k1 & _ & Hreg & Hal & Hnal).
    apply (IH (done_ ++ [w1]) st1); [done|done|..|done].
    + apply elem_of_app. by left.
    + rewrite Hreg. rewrite lookup_insert_ne; [done|]. intros ->.
      destruct (decide (aliased ts w1)) as [H1|H1].
      * destruct (Hal H1) as (_ & [c Hc] & _). rewrite Hc in Hk.
        injection Hk as -> _. done.
      * destruct (Hnal H1) as [Hnone _]. congruence.
Qed.

(** The registries that the loops over the symbols go through. *)
Lemma insert_meta_symbols_trace (ts : TrainerSpec)
    (l : list (string * PieceType)) (done_ : list string)
    (st st' : symbol_state) :
  symbols_inv ts done_ st → Forall (λ p, p.2 ≠ UNKNOWN) l →
  insert_meta_symbols ts l st = Some st' →
  ∃ regs : list (gmap Z (string * PieceType)),
    length regs = S (length l) ∧
    regs !! 0%nat = Some (registry st) ∧
    last regs = Some (registry st') ∧
    ∀ (i : nat) w ty, l !! i = Some (w, ty) →
      ∃ r r' k,
        regs !! i = Some r ∧ regs !! S i = Some r' ∧
        (w ∉ done_ ++ (take i l).*1) ∧ w ≠ unk_piece ts ∧
        0 ≤ k ∧ r' = <[k := (w, ty)]> r ∧
        registry st' !! k = Some (w, ty) ∧
        (aliased ts w →
           alias_of ts w k ∧ (∃ c, r !! k = Some (w, c)) ∧ dom r' = dom r) ∧
        (¬ aliased ts w →
           r !! k = None ∧ ∀ j, 0 ≤ j < k → is_Some (r !! j)).
Proof.
  revert done_ st.
  induction l as [|[w1 ty1] l IH]; intros done_ st Hinv Hl Hst.
  - cbn in Hst. injection Hst as <-. exists [registry st].
    split; [done|]. split; [done|]. split; [done|]. by intros i w ty ?.
  - apply Forall_cons in Hl as [Hty Hl].
    cbn [insert_meta_symbols fst snd] in Hst.
    destruct (insert_meta_symbol ts w1 ty1 st) as [st1|] eqn:Hst1; [|done].
    pose proof (symbols_inv_step ts _ st st1 w1 ty1 Hinv Hty Hst1) as Hinv1.
    destruct (IH (done_ ++ [w1]) st1 Hinv1 Hl Hst)
      as (regs & Hlen & Hfirst & Hlast & Hsteps).
    exists (registry st :: regs).
    split; [cbn; by rewrite Hlen|]. split; [done|]. split.
    { destruct regs as [|r0 regs]; [done|]. exact Hlast. }
    intros [|i] w ty Hi.
    + cbn in Hi. injection Hi as -> ->.
      destruct (insert_meta_symbol_registered ts _ st st1 w ty Hinv Hst1)
        as (Hin & Hu & k & Hk0 & Hreg & Hal & Hnal).
      exists (registry st), (registry st1), k.
      split; [done|]. split; [done|].
      split; [by rewrite take_0, app_nil_r|]. split; [done|].
      split; [done|]. split; [done|]. split; [|done].
      apply (insert_meta_symbols_keep ts l (done_ ++ [w]) st1);
        [done|done| |by rewrite Hreg, lookup_insert_eq|done].
      apply elem_of_app. right. apply list_elem_of_here.
    + cbn in Hi.
      destruct (Hsteps i w ty Hi)
        as (r & r' & k & Hr & Hr' & Hin & Hrest).
      exists r, r', k. split; [done|]. split; [done|]. split; [|done].
      cbn [take fmap list_fmap fst].
      by rewrite cons_middle, app_assoc.
Qed.

(** Symbols that are distinct, new and not the unknown text all go
    in. *)
Lemma insert_meta_symbols_accepts (ts : TrainerSpec)
    (l : list (string * PieceType)) (done_ : list string)
    (st : symbol_state) :
  symbols_inv ts done_ st → Forall (λ p, p.2 ≠ UNKNOWN) l →
  NoDup (done_ ++ l.*1) → (unk_piece ts ∉ l.*1) →
  is_Some (insert_meta_symbols ts l st).
Proof.
  revert done_ st.
  induction l as [|[w ty] l IH]; intros done_ st Hinv Hl Hnd Hunk; [done|].
  apply Forall_cons in Hl as [Hty Hl].
  cbn [insert_meta_symbols fst snd fmap list_fmap] in *.
  assert (w ∉ done_) as Hin.
  { apply NoDup_app in Hnd as (_ & Hdisj & _). intros Hw.
    apply (Hdisj w Hw). apply list_elem_of_here. }
  assert (w ≠ unk_piece ts) as Hu.
  { intros ->. apply Hunk. apply list_elem_of_here. }
  destruct (insert_meta_symbol_spec ts done_ st w ty Hinv)
    as (_ & Halias & Halloc).
  assert (is_Some (insert_meta_symbol ts w ty st)) as [st1 Hst1].
  { destruct (decide (aliased ts w)) as [Hal|Hal].
    - destruct (Halias Hin Hu Hal) as (k & c & _ & _ & ->). eauto.
    - destruct (Halloc Hin Hu Hal) as (k & _ & _ & _ & ->). eauto. }
  rewrite Hst1.
  apply (IH (done_ ++ [w]) st1).
  - by eapply symbols_inv_step.
  - done.
  - by rewrite <- app_assoc.
  - intros Hw. apply Hunk. by apply list_elem_of_further.
Qed.

(** A symbol that is among those before it, or is the unknown text,
    stops the pass over the symbols. *)
Lemma insert_meta_symbols_rejects (ts : TrainerSpec)
    (pre post : list (string * PieceType)) (w : string) (ty : PieceType)
    (done_ : list string) (st : symbol_state) :
  symbols_inv ts done_ st →
  Forall (λ p, p.2 ≠ UNKNOWN) pre →
  w ∈ done_ ++ pre.*1 ∨ w = unk_piece ts →
  insert_meta_symbols ts (pre ++ (w, ty) :: post) st = None.
Proof.
  intros Hinv Hpre Hw. rewrite insert_meta_symbols_app.
  destruct (insert_meta_symbols ts pre st) as [st1|] eqn:Hst1; [|done].
  apply (symbols_inv_run ts pre done_ st st1 Hinv Hpre) in Hst1.
  cbn [insert_meta_symbols fst snd] in *.
  destruct (insert_meta_symbol_spec ts _ st1 w ty Hst1) as (Hrej & _).
  by rewrite Hrej.
Qed.

(** The error of the first symbol that is refused is that of its
    loop. *)
Lemma insert_symbols_first_rejected (ts : TrainerSpec)
    (pre post : list (string * PieceType)) (w : string) (ty : PieceType)
    (st : symbol_state) :
  symbols_inv ts [] st →
  symbols ts = pre ++ (w, ty) :: post →
  NoDup (pre.*1) → (unk_piece ts ∉ pre.*1) →
  w ∈ pre.*1 ∨ w = unk_piece ts →
  insert_symbols ts st
  = Err (match ty with
         | CONTROL => BadControlSymbol
         | _ => BadUserDefinedSymbol
         end).
Proof.
  intros Hinv Hsym Hnd Hunk Hw.
  assert (∀ l, l ⊆ symbols ts → Forall (λ p, p.2 ≠ UNKNOWN) l) as Hty
    by apply symbols_not_unknown.
  unfold insert_symbols. rewrite !for_each_symbol_step.
  unfold symbols in Hsym, Hty.
  set (cs := (λ w, (w, CONTROL)) <$> control_symbols ts) in *.
  set (us := (λ w, (w, USER_DEFINED)) <$> user_defined_symbols ts) in *.
  assert (∀ p, p ∈ cs → p.2 = CONTROL) as Hcs.
  { intros p (x & -> & _)%list_elem_of_fmap. done. }
  assert (∀ p, p ∈ us → p.2 = USER_DEFINED) as Hus.
  { intros p (x & -> & _)%list_elem_of_fmap. done. }
  assert ((∃ post', cs = pre ++ (w, ty) :: post' ∧ ty = CONTROL) ∨
          (∃ pre', pre = cs ++ pre' ∧ us = pre' ++ (w, ty) :: post ∧
                   ty = USER_DEFINED)) as [(post' & Hc & ->)|(pre' & Hp & Hu & ->)].
  { apply app_eq_inv in Hsym as [(k & Hc & Hk)|(k & Hp & Hu)].
    - destruct k as [|x k].
      + right. exists []. rewrite app_nil_r in Hc. cbn in Hk.
        split; [by rewrite app_nil_r|]. split; [done|].
        apply (Hus (w, ty)). rewrite <- Hk. apply list_elem_of_here.
      + cbn in Hk. injection Hk as <- _. left. exists k. split; [done|].
        apply (Hcs (w, ty)). rewrite Hc. apply elem_of_app. right.
        apply list_elem_of_here.
    - right. exists k. split; [done|]. split; [done|].
      apply (Hus (w, ty)). rewrite Hu. apply elem_of_app. right.
      apply list_elem_of_here. }
  - rewrite Hc.
    rewrite (insert_meta_symbols_rejects ts pre post' w CONTROL [] st);
      [done|done| |done].
    apply Hty. rewrite Hc. intros p Hp. apply elem_of_app. left.
    apply elem_of_app. by left.
  - subst pre. rewrite fmap_app in Hnd, Hunk, Hw.
    assert (Forall (λ p, p.2 ≠ UNKNOWN) cs) as Htc.
    { apply Hty. intros p Hp. apply elem_of_app. by left. }
    destruct (insert_meta_symbols_accepts ts cs [] st Hinv Htc)
      as [st1 Hst1].
    { by apply NoDup_app in Hnd as [? _]. }
    { intros Hin. apply Hunk. apply elem_of_app. by left. }
    rewrite Hst1. cbn [bind].
    rewrite for_each_symbol_step. fold us. rewrite Hu.
    apply (symbols_inv_run ts cs [] st st1 Hinv Htc) in Hst1.
    rewrite (insert_meta_symbols_rejects ts pre' post w USER_DEFINED
               ([] ++ cs.*1) st1); [done|done| |done].
    apply Hty. rewrite Hu. intros p Hp. apply elem_of_app. right.
    apply elem_of_app. by left.
Qed.

(** C4.  The control and user defined symbols, in the order of the
    configuration, after the reserved symbols have gone in with the
    registry [m0].
    If a symbol is among those before it, or is the unknown text,
    [InitMetaPieces] fails, with the error of the loop of the control
    symbols or of the user defined symbols: that of the loop of the
    first such symbol.
    If the symbols are pairwise distinct and none is the unknown text,
    [InitMetaPieces] returns OK.
    When it returns OK with the registry [m], the registry goes through
    a sequence [regs] from [m0] to [m], one step for each symbol: the
    symbol [w] of category [ty] is not among those before it and is not
    the unknown text, and the step from [r] to [r'] sets one identifier
    [k] to [(w, ty)], where [m] still has it.  If [w] is the text of the
    begin, end or pad symbol and that symbol has a non-negative
    identifier, [k] is the identifier of the first such symbol, [r] has
    [w] at [k] already, and no identifier is added.  Otherwise [k] is
    the smallest non-negative identifier that is not in [r]. *)
Theorem InitMetaPieces_symbol_allocation (ts : TrainerSpec)
    (m0 : gmap Z (string * PieceType)) :
  insert_reserved ts ∅ = Ok m0 →
  (∀ pre post w ty,
     symbols ts = pre ++ (w, ty) :: post →
     w ∈ pre.*1 ∨ w = unk_piece ts →
     InitMetaPieces ts ∅ = Err BadControlSymbol ∨
     InitMetaPieces ts ∅ = Err BadUserDefinedSymbol) ∧
  (∀ pre post w ty,
     symbols ts = pre ++ (w, ty) :: post →
     NoDup (pre.*1) → (unk_piece ts ∉ pre.*1) →
     w ∈ pre.*1 ∨ w = unk_piece ts →
     InitMetaPieces ts ∅
     = Err (match ty with
            | CONTROL => BadControlSymbol
            | _ => BadUserDefinedSymbol
            end)) ∧
  (NoDup ((symbols ts).*1) → (unk_piece ts ∉ (symbols ts).*1) →
     ∃ m, InitMetaPieces ts ∅ = Ok m) ∧
  (∀ m, InitMetaPieces ts ∅ = Ok m →
     ∃ regs : list (gmap Z (string * PieceType)),
       length regs = S (length (symbols ts)) ∧
       regs !! 0%nat = Some m0 ∧
       last regs = Some m ∧
       ∀ (i : nat) w ty, symbols ts !! i = Some (w, ty) →
         ∃ r r' k,
           regs !! i = Some r ∧ regs !! S i = Some r' ∧
           (w ∉ (take i (symbols ts)).*1) ∧ w ≠ unk_piece ts ∧
           0 ≤ k ∧ r' = <[k := (w, ty)]> r ∧
           m !! k = Some (w, ty) ∧
           (aliased ts w →
              alias_of ts w k ∧ (∃ c, r !! k = Some (w, c)) ∧
              dom r' = dom r) ∧
           (¬ aliased ts w →
              r !! k = None ∧ ∀ j, 0 ≤ j < k → is_Some (r !! j))).
Proof.
  intros Hm0.
  pose proof (symbols_inv_init ts m0 Hm0) as Hinit.
  pose proof (symbols_not_unknown ts (symbols ts) (λ p Hp, Hp)) as Hty.
  assert (InitMetaPieces ts ∅
          = (st ← insert_symbols ts
                    {| next_id := 0; dup := ∅; registry := m0 |};
             Ok (registry st))) as Hrun.
  { unfold InitMetaPieces. rewrite bool_decide_true by done.
    cbn [CHECK_OR_RETURN bind]. by rewrite Hm0. }
  split; [|split; [|split]].
  - intros pre post w ty Hsym Hw. rewrite Hrun.
    destruct (insert_symbols_Err ts
                {| next_id := 0; dup := ∅; registry := m0 |})
      as [-> | ->]; [|by left|by right].
    rewrite Hsym.
    apply (insert_meta_symbols_rejects ts pre post w ty []);
      [done| |done].
    apply (symbols_not_unknown ts). rewrite Hsym.
    intros p Hp. apply elem_of_app. by left.
  - intros pre post w ty Hsym Hnd Hunk Hw. rewrite Hrun.
    by rewrite (insert_symbols_first_rejected ts pre post w ty _
                  Hinit Hsym Hnd Hunk Hw).
  - intros Hnd Hunk.
    destruct (insert_meta_symbols_accepts ts (symbols ts) []
                {| next_id := 0; dup := ∅; registry := m0 |}
                Hinit Hty Hnd Hunk) as [st Hst].
    exists (registry st). rewrite Hrun.
    apply insert_symbols_Ok in Hst. by rewrite Hst.
  - intros m (m0' & st & Hm0' & Hst & ->)%InitMetaPieces_Ok.
    rewrite Hm0 in Hm0'. injection Hm0' as <-.
    destruct (insert_meta_symbols_trace ts (symbols ts) [] _ st
                Hinit Hty Hst) as (regs & Hlen & Hfirst & Hlast & Hsteps).
    exists regs. split; [done|]. split; [done|]. split; [done|].
    intros i w ty Hi.
    destruct (Hsteps i w ty Hi) as (r & r' & k & Hr & Hr' & Hin & Hrest).
    exists r, r', k. done.
Qed.


(** ** Serialize (C1, C6) *)

Lemma for_each_inv {A S : Type} (body : A → S → result S) (P : S → Prop)
    (l : list A) (s s' : S) :
  (∀ a s s', P s → body a s = Ok s' → P s') →
  P s → for_each body l s = Ok s' → P s'.
Proof.
  intros Hbody. revert s. induction l as [|a l IH]; intros s Hs; simpl.
  - by intros [= <-].
  - destruct (body a s) as [s1|e] eqn:Hs1; simpl; [|done]. eauto.
Qed.

Lemma CHECK_PIECE_Ok (X : Externals) (piece : string) (dup dup' : gset string) :
  CHECK_PIECE X piece dup = Ok dup' ↔
    IsStructurallyValid X piece = true ∧ piece ≠ "" ∧ (piece ∉ dup) ∧
    dup' = {[piece]} ∪ dup.
Proof.
  unfold CHECK_PIECE.
  rewrite !seq_Ok, !CHECK_Ok, negb_empty, negb_true_iff, bool_decide_eq_false.
  split; [intros (? & ? & ? & [= <-]); done|].
  intros (? & ? & ? & ->); done.
Qed.

(** What holds of the pieces written so far. *)
Record serialize_inv (X : Externals) (st : serialize_state) : Prop := {
  inv_seen : ∀ w, w ∈ seen st ↔ w ∈ piece <$> out_pieces st;
  inv_distinct : NoDup (piece <$> out_pieces st);
  inv_checked :
    Forall (λ sp, piece sp ≠ "" ∧ IsStructurallyValid X (piece sp) = true)
      (out_pieces st);
}.

Lemma serialize_inv_snoc (X : Externals) (st : serialize_state)
    (sp : SentencePiece) (dup' : gset string) (n : nat) :
  serialize_inv X st →
  CHECK_PIECE X (piece sp) (seen st) = Ok dup' →
  serialize_inv X {| out_pieces := out_pieces st ++ [sp]; seen := dup';
                     fid := n |}.
Proof.
  intros [Hseen Hnd Hck] (Hv & Hne & Hnew & ->)%CHECK_PIECE_Ok.
  split; simpl.
  - intros w. rewrite fmap_app, elem_of_union, elem_of_singleton, elem_of_app,
      Hseen. simpl. rewrite list_elem_of_singleton. tauto.
  - rewrite fmap_app. apply NoDup_app. split; [done|]. split.
    + intros w Hw. simpl. rewrite list_elem_of_singleton. intros ->.
      by apply Hnew, Hseen.
    + apply NoDup_singleton.
  - apply Forall_app. split; [done|]. by apply Forall_singleton.
Qed.

Lemma serialize_step_inv (X : Externals) (t : TrainerInterface) (id : Z)
    (st st' : serialize_state) :
  serialize_inv X st → serialize_step X t id st = Ok st' →
  serialize_inv X st'.
Proof.
  intros Hinv. unfold serialize_step.
  destruct (meta_pieces_ t !! id) as [[w ty]|].
  - rewrite !seq_Ok. intros (_ & _ & Hst).
    apply bind_Ok in Hst as (dup' & Hdup & [= <-]).
    by apply (serialize_inv_snoc X st {| piece := w; score := 0; type := ty |}).
  - destruct (final_pieces_ t !! fid st) as [p|]; [|by intros [= <-]].
    intros Hst. apply bind_Ok in Hst as (dup' & Hdup & [= <-]).
    by apply (serialize_inv_snoc X st
                {| piece := p.1; score := p.2; type := NORMAL |}).
Qed.

(** The size of [dup] is the number of pieces. *)
Lemma serialize_inv_size (X : Externals) (st : serialize_state) :
  serialize_inv X st →
  seen st = list_to_set (piece <$> out_pieces st) ∧
  size (seen st) = length (out_pieces st).
Proof.
  intros [Hseen Hnd _].
  assert (seen st = list_to_set (piece <$> out_pieces st)) as Heq.
  { apply set_eq. intros w. by rewrite Hseen, elem_of_list_to_set. }
  split; [done|].
  by rewrite Heq, size_list_to_set, length_fmap.
Qed.

(** What a run of [Serialize] that returns OK went through. *)
Lemma Serialize_Ok (X : Externals) (t : TrainerInterface)
    (model_proto mp : ModelProto) :
  Serialize X t model_proto = Ok mp →
  ∃ st,
    for_each (serialize_step X t) (seqZ 0 (vocab_size (trainer_spec_ t)))
      {| out_pieces := pieces model_proto; seen := ∅; fid := 0 |} = Ok st ∧
    fid st = length (final_pieces_ t) ∧
    pieces mp = out_pieces st ∧
    proto_normalizer_spec mp = Some (normalizer_spec_ t) ∧
    if negb (hard_vocab_limit (trainer_spec_ t))
       || bool_decide (model_type (trainer_spec_ t) = CHAR)
    then pieces_size mp ≤ vocab_size (trainer_spec_ t) ∧
         proto_trainer_spec mp
         = Some (set_vocab_size (pieces_size mp) (trainer_spec_ t))
    else vocab_size (trainer_spec_ t) = pieces_size mp ∧
         proto_trainer_spec mp = Some (trainer_spec_ t).
Proof.
  unfold Serialize. intros H.
  apply seq_Ok in H as [_ H]. apply bind_Ok in H as (st & Hst & H).
  apply seq_Ok in H as [Hfid%CHECK_Ok%Nat.eqb_eq H].
  exists st. split; [done|]. split; [done|].
  destruct (negb _ || _).
  - rewrite !seq_Ok, !CHECK_Ok in H. destruct H as (Hn%Z.leb_le & _ & [= <-]).
    unfold pieces_size. simpl. done.
  - rewrite !seq_Ok, !CHECK_Ok in H. destruct H as (Hn%Z.eqb_eq & _ & [= <-]).
    unfold pieces_size. simpl. done.
Qed.

Lemma Serialize_inv (X : Externals) (t : TrainerInterface) (mp : ModelProto) :
  Serialize X t new_ModelProto = Ok mp →
  NoDup (piece <$> pieces mp) ∧
  Forall (λ sp, piece sp ≠ "" ∧ IsStructurallyValid X (piece sp) = true)
    (pieces mp).
Proof.
  intros (st & Hst & _ & -> & _)%Serialize_Ok.
  apply (for_each_inv _ (serialize_inv X)) in Hst as [_ ? ?]; [done| |].
  - intros a s s'. apply serialize_step_inv.
  - split; simpl; [|constructor|constructor].
    intros w. rewrite elem_of_nil. set_solver.
Qed.

(** C1.  When [Serialize] returns OK on a new [ModelProto]: under the hard
    limit, for a model type other than CHAR, the number of pieces and the
    number of distinct piece texts are both the configured vocabulary
    size; under the soft limit, or for the model type CHAR, the number of
    pieces is at most the configured vocabulary size and is the
    vocabulary size of the trainer spec stored in the model. *)
Theorem Serialize_vocab_size (X : Externals) (t : TrainerInterface)
    (mp : ModelProto) :
  Serialize X t new_ModelProto = Ok mp →
  (hard_vocab_limit (trainer_spec_ t) = true ∧
   model_type (trainer_spec_ t) ≠ CHAR →
     pieces_size mp = vocab_size (trainer_spec_ t) ∧
     Z.of_nat (size (list_to_set (piece <$> pieces mp) : gset string))
     = vocab_size (trainer_spec_ t)) ∧
  (hard_vocab_limit (trainer_spec_ t) = false ∨
   model_type (trainer_spec_ t) = CHAR →
     pieces_size mp ≤ vocab_size (trainer_spec_ t) ∧
     vocab_size <$> proto_trainer_spec mp = Some (pieces_size mp)).
Proof.
  intros Hmp. destruct (Serialize_inv X t mp Hmp) as [Hnd _].
  apply Serialize_Ok in Hmp as (st & _ & _ & _ & _ & Hmode).
  split.
  - intros [Hhard Hchar]. rewrite Hhard, bool_decide_false in Hmode by done.
    simpl in Hmode. destruct Hmode as [Hn _]. split; [done|].
    rewrite size_list_to_set, length_fmap by done. done.
  - intros Hsoft.
    assert (negb (hard_vocab_limit (trainer_spec_ t))
            || bool_decide (model_type (trainer_spec_ t) = CHAR) = true) as Hb.
    { destruct Hsoft as [-> | ->]; [done|]. apply orb_true_r. }
    rewrite Hb in Hmode. destruct Hmode as [Hn ->]. done.
Qed.


(** A configuration with a control symbol that contains a space and a
    user defined symbol that is the unknown-character marker. *)
Definition spec_with_odd_symbols : TrainerSpec :=
  {| model_prefix := "m"; input := ["corpus.txt"]; input_format := "";
     vocab_size := 5; model_type := UNIGRAM; use_all_vocab := false;
     hard_vocab_limit := true; character_coverage := default_character_coverage;
     max_sentencepiece_length := 16; num_sub_iterations := 2;
     num_threads := 16; self_test_sample_size := 0;
     shrinking_factor := 75 # 100; max_sentence_length := 4192;
     input_sentence_size := 0; shuffle_input_sentence := true;
     unk_piece := "<unk>"; bos_piece := "<s>"; eos_piece := "</s>";
     pad_piece := "<pad>"; unk_id := 0; bos_id := 1; eos_id := 2;
     pad_id := -1; control_symbols := ["a b"];
     user_defined_symbols := [kUNKStr];
     treat_whitespace_as_suffix := false; split_by_whitespace := true;
     split_by_number := true; split_by_unicode_script := true |}.

(** The model [Serialize] makes of it, without learned pieces. *)
Definition odd_symbols_model : ModelProto :=
  {| pieces :=
       [ {| piece := "<unk>"; score := 0; type := UNKNOWN |};
         {| piece := "<s>"; score := 0; type := CONTROL |};
         {| piece := "</s>"; score := 0; type := CONTROL |};
         {| piece := "a b"; score := 0; type := CONTROL |};
         {| piece := kUNKStr; score := 0; type := USER_DEFINED |} ];
     proto_trainer_spec := Some spec_with_odd_symbols;
     proto_normalizer_spec := Some {| name := "identity" |} |}.

Lemma Serialize_odd_symbols :
  Serialize (run_env [] id)
    (new_TrainerInterface spec_with_odd_symbols {| name := "identity" |})
    new_ModelProto = Ok odd_symbols_model.
Proof. vm_compute. reflexivity. Qed.

(** C6, as stated, fails: for this configuration [Serialize] returns OK
    and the model has the piece ["a b"], with a raw space, and a piece
    that is the unknown-character marker. *)
Lemma Serialize_keeps_space_and_unk_marker :
  ∃ mp,
    Serialize (run_env [] id)
      (new_TrainerInterface spec_with_odd_symbols {| name := "identity" |})
      new_ModelProto = Ok mp ∧
    piece <$> pieces mp = ["<unk>"; "<s>"; "</s>"; "a b"; kUNKStr] ∧
    contains "a b" " " = true ∧
    UTF8ToUnicodeText (run_env [] id) kUNKStr = [kUNKChar].
Proof.
  eexists. split; [vm_compute; reflexivity|].
  split; [reflexivity|]. split; vm_compute; reflexivity.
Qed.

Lemma valid_from_sound (X : Externals) (spec : TrainerSpec) (size pos : Z)
    (prev_script : Z) (u : list Z) :
  valid_from X spec size pos prev_script u = true →
  Forall (λ c, c ≠ 0x0020 ∧ c ≠ kUNKChar ∧ c ≠ 0x0000 ∧
               c ≠ kUPPBoundaryChar ∧ IsValidCodepoint X c = true) u.
Proof.
  revert pos prev_script. induction u as [|c u IH]; intros pos prev;
    [constructor|].
  cbn [valid_from].
  destruct (Z.eqb_spec c kUNKChar); [done|].
  destruct (Z.eqb_spec c 0); [done|].
  destruct (Z.eqb_spec c kUPPBoundaryChar); [done|].
  destruct (Z.eqb_spec c 32); [done|].
  destruct (IsValidCodepoint X c) eqn:Hv; [|done]. cbn [negb].
  intros Hrest. constructor; [done|].
  repeat match type of Hrest with
  | (if ?b then _ else _) = true => destruct b; [try done|]
  | (let _ := _ in _) = true => cbv zeta in Hrest
  end; try done; by eapply IH.
Qed.

(** What [IsValidSentencePiece] accepts is not empty, not longer than the
    limit, and has no space, unknown character, NUL or tab in it. *)
Lemma IsValidSentencePiece_sound (X : Externals) (spec : TrainerSpec)
    (u : list Z) :
  IsValidSentencePiece X spec u = true →
  u ≠ [] ∧
  Z.of_nat (length u) ≤ max_sentencepiece_length spec mod 2 ^ 64 ∧
  Forall (λ c, c ≠ 0x0020 ∧ c ≠ kUNKChar ∧ c ≠ 0x0000 ∧
               c ≠ kUPPBoundaryChar ∧ IsValidCodepoint X c = true) u.
Proof.
  unfold IsValidSentencePiece. case_bool_decide as Hu; [done|].
  destruct (Z.ltb_spec (max_sentencepiece_length spec mod 2 ^ 64)
              (Z.of_nat (length u))) as [Hlen|Hlen]; [done|].
  cbn [orb]. intros Hall%valid_from_sound. done.
Qed.

(** C6, amended.  In every model that [Serialize] returns, meta pieces
    and learned pieces alike, every piece text is structurally valid and
    not empty, and no two pieces have the same text.  [Serialize] does
    not look for raw spaces or the unknown character; it is
    [IsValidSentencePiece] that refuses a piece that is empty or has a
    space or the unknown character in it, and that check is not applied
    to the meta pieces. *)
Theorem Serialize_pieces_checked (X : Externals) (t : TrainerInterface)
    (mp : ModelProto) :
  Serialize X t new_ModelProto = Ok mp →
  Forall (λ sp, piece sp ≠ "" ∧ IsStructurallyValid X (piece sp) = true)
    (pieces mp) ∧
  (∀ i j sp sp', pieces mp !! i = Some sp → pieces mp !! j = Some sp' →
                 piece sp = piece sp' → i = j) ∧
  (∀ u, IsValidSentencePiece X (trainer_spec_ t) u = true →
        u ≠ [] ∧ Forall (λ c, c ≠ 0x0020 ∧ c ≠ kUNKChar) u).
Proof.
  intros [Hnd Hck]%Serialize_inv. split; [done|]. split.
  - intros i j sp sp' Hi Hj Heq.
    apply (NoDup_lookup _ i j (piece sp) Hnd).
    + by rewrite list_lookup_fmap, Hi.
    + by rewrite list_lookup_fmap, Hj, Heq.
  - intros u (Hne & _ & Hall)%IsValidSentencePiece_sound. split; [done|].
    eapply Forall_impl; [exact Hall|]. simpl. tauto.
Qed.

Lemma Serialize_pieces_checked_witness :
  Serialize (run_env [] id)
    (new_TrainerInterface spec_with_odd_symbols {| name := "identity" |})
    new_ModelProto = Ok odd_symbols_model ∧
  Forall (λ sp, piece sp ≠ "" ∧ structurally_valid (piece sp) = true)
    (pieces odd_symbols_model) ∧
  (∀ i j sp sp',
     pieces odd_symbols_model !! i = Some sp →
     pieces odd_symbols_model !! j = Some sp' →
     piece sp = piece sp' → i = j) ∧
  (∀ u, IsValidSentencePiece (run_env [] id) spec_with_odd_symbols u = true →
        u ≠ [] ∧ Forall (λ c, c ≠ 0x0020 ∧ c ≠ kUNKChar) u).
Proof.
  split; [exact Serialize_odd_symbols|].
  exact (Serialize_pieces_checked _ _ _ Serialize_odd_symbols).
Defined.

Example IsValidSentencePiece_word :
  IsValidSentencePiece (run_env [] id) default_spec
    (UTF8ToUnicodeText (run_env [] id) (kWSStr +:+ "pen")) = true.
Proof. vm_compute. reflexivity. Qed.

Example IsValidSentencePiece_space :
  IsValidSentencePiece (run_env [] id) default_spec
    (UTF8ToUnicodeText (run_env [] id) "a b") = false.
Proof. vm_compute. reflexivity. Qed.

Example IsValidSentencePiece_whitespace_inside :
  IsValidSentencePiece (run_env [] id) default_spec
    (UTF8ToUnicodeText (run_env [] id) ("a" +:+ kWSStr +:+ "b")) = false.
Proof. vm_compute. reflexivity. Qed.

Lemma Serialize_vocab_size_witness :
  Serialize (run_env [] id)
    (new_TrainerInterface spec_with_odd_symbols {| name := "identity" |})
    new_ModelProto = Ok odd_symbols_model ∧
  pieces_size odd_symbols_model = 5 ∧
  Z.of_nat (size (list_to_set (piece <$> pieces odd_symbols_model)
                  : gset string)) = 5.
Proof.
  split; [exact Serialize_odd_symbols|].
  apply (Serialize_vocab_size _ _ _ Serialize_odd_symbols).
  split; [reflexivity|discriminate].
Defined.

(** A configuration with an alias of the begin symbol among its control
    symbols. *)
Definition spec_with_alias : TrainerSpec :=
  {| model_prefix := "m"; input := ["corpus.txt"]; input_format := "";
     vocab_size := 8000; model_type := UNIGRAM; use_all_vocab := false;
     hard_vocab_limit := true; character_coverage := default_character_coverage;
     max_sentencepiece_length := 16; num_sub_iterations := 2;
     num_threads := 16; self_test_sample_size := 0;
     shrinking_factor := 75 # 100; max_sentence_length := 4192;
     input_sentence_size := 0; shuffle_input_sentence := true;
     unk_piece := "<unk>"; bos_piece := "<s>"; eos_piece := "</s>";
     pad_piece := "<pad>"; unk_id := 0; bos_id := 1; eos_id := 2;
     pad_id := -1; control_symbols := ["<s>"; "<mask>"];
     user_defined_symbols := ["<sep>"];
     treat_whitespace_as_suffix := false; split_by_whitespace := true;
     split_by_number := true; split_by_unicode_script := true |}.

Example InitMetaPieces_with_alias :
  InitMetaPieces spec_with_alias ∅
  = Ok {[ 0 := ("<unk>", UNKNOWN); 1 := ("<s>", CONTROL);
          2 := ("</s>", CONTROL); 3 := ("<mask>", CONTROL);
          4 := ("<sep>", USER_DEFINED) ]}.
Proof. vm_compute. reflexivity. Qed.

(** The same configuration with other control and user defined
    symbols. *)
Definition with_symbols (cs us : list string) : TrainerSpec :=
  {| model_prefix := "m"; input := ["corpus.txt"]; input_format := "";
     vocab_size := 8000; model_type := UNIGRAM; use_all_vocab := false;
     hard_vocab_limit := true; character_coverage := default_character_coverage;
     max_sentencepiece_length := 16; num_sub_iterations := 2;
     num_threads := 16; self_test_sample_size := 0;
     shrinking_factor := 75 # 100; max_sentence_length := 4192;
     input_sentence_size := 0; shuffle_input_sentence := true;
     unk_piece := "<unk>"; bos_piece := "<s>"; eos_piece := "</s>";
     pad_piece := "<pad>"; unk_id := 0; bos_id := 1; eos_id := 2;
     pad_id := -1; control_symbols := cs; user_defined_symbols := us;
     treat_whitespace_as_suffix := false; split_by_whitespace := true;
     split_by_number := true; split_by_unicode_script := true |}.

(** A user defined symbol that repeats a control symbol, the unknown
    text among the control symbols, and a pad text without an identifier,
    which is a symbol like any other. *)
Example InitMetaPieces_rejects :
  InitMetaPieces (with_symbols ["<mask>"] ["<sep>"; "<mask>"]) ∅
  = Err BadUserDefinedSymbol ∧
  InitMetaPieces (with_symbols ["<mask>"; "<unk>"] ["<sep>"]) ∅
  = Err BadControlSymbol ∧
  InitMetaPieces (with_symbols ["<pad>"] ["</s>"]) ∅
  = Ok {[ 0 := ("<unk>", UNKNOWN); 1 := ("<s>", CONTROL);
          2 := ("</s>", USER_DEFINED); 3 := ("<pad>", CONTROL) ]}.
Proof. repeat split; vm_compute; reflexivity. Qed.

Lemma InitMetaPieces_symbol_allocation_witness :
  let m0 : gmap Z (string * PieceType) :=
    {[ 0 := ("<unk>", UNKNOWN); 1 := ("<s>", CONTROL);
       2 := ("</s>", CONTROL) ]} in
  let m : gmap Z (string * PieceType) :=
    {[ 0 := ("<unk>", UNKNOWN); 1 := ("<s>", CONTROL);
       2 := ("</s>", CONTROL); 3 := ("<mask>", CONTROL);
       4 := ("<sep>", USER_DEFINED) ]} in
  insert_reserved spec_with_alias ∅ = Ok m0 ∧
  InitMetaPieces spec_with_alias ∅ = Ok m ∧
  ∃ regs : list (gmap Z (string * PieceType)),
    length regs = S (length (symbols spec_with_alias)) ∧
    regs !! 0%nat = Some m0 ∧
    last regs = Some m ∧
    ∀ (i : nat) w ty, symbols spec_with_alias !! i = Some (w, ty) →
      ∃ r r' k,
        regs !! i = Some r ∧ regs !! S i = Some r' ∧
        (w ∉ (take i (symbols spec_with_alias)).*1) ∧
        w ≠ unk_piece spec_with_alias ∧
        0 ≤ k ∧ r' = <[k := (w, ty)]> r ∧
        m !! k = Some (w, ty) ∧
        (aliased spec_with_alias w →
           alias_of spec_with_alias w k ∧ (∃ c, r !! k = Some (w, c)) ∧
           dom r' = dom r) ∧
        (¬ aliased spec_with_alias w →
           r !! k = None ∧ ∀ j, 0 ≤ j < k → is_Some (r !! j)).
Proof.
  intros m0 m.
  assert (insert_reserved spec_with_alias ∅ = Ok m0) as H1
    by (vm_compute; reflexivity).
  split; [exact H1|]. split; [exact InitMetaPieces_with_alias|].
  exact (proj2 (proj2 (proj2
           (InitMetaPieces_symbol_allocation spec_with_alias m0 H1)))
           m InitMetaPieces_with_alias).
Defined.


(** ** LoadSentences: reading the corpus (C9, C7) *)

Lemma load_lines_app (X : Externals) (spec : TrainerSpec) (is_tsv : bool)
    (l1 l2 : list string) (st : load_state X) :
  load_lines X spec is_tsv (l1 ++ l2) st
  = (r ← load_lines X spec is_tsv l1 st;
     match r with
     | Next st' => load_lines X spec is_tsv l2 st'
     | GotoEnd st' => Ok (GotoEnd st')
     end).
Proof.
  revert st. induction l1 as [|l l1 IH]; intros st; simpl; [done|].
  destruct (load_line X spec is_tsv l st) as [[st'|st']|e]; simpl; [|done..].
  apply IH.
Qed.

Lemma load_files_app (X : Externals) (spec : TrainerSpec) (is_tsv : bool)
    (f1 f2 : list string) (st : load_state X) :
  load_files X spec is_tsv (f1 ++ f2) st
  = (r ← load_files X spec is_tsv f1 st;
     match r with
     | Next st' => load_files X spec is_tsv f2 st'
     | GotoEnd st' => Ok (GotoEnd st')
     end).
Proof.
  revert st. induction f1 as [|f f1 IH]; intros st; simpl; [done|].
  destruct (NewReadableFile X f) as [lines|]; simpl; [|done].
  destruct (load_lines X spec is_tsv lines st) as [[st'|st']|e]; simpl;
    [|done..].
  apply IH.
Qed.

Lemma read_candidate_tsv (X : Externals) (line s : string) (f : Z) :
  read_candidate X true line = Ok (s, f) ↔
    ∃ b, Split X line kUPPBoundaryStr = [s; b] ∧ f = atoll X b ∧ 1 ≤ f.
Proof.
  unfold read_candidate.
  destruct (Split X line kUPPBoundaryStr) as [|a [|b [|c v]]] eqn:Hv.
  - split; [done|]. by intros (? & [=] & _).
  - split; [done|]. by intros (? & [=] & _).
  - cbn. destruct (Z.leb_spec 1 (atoll X b)) as [Hf|Hf]; cbn; split.
    + intros [= <- <-]. by exists b.
    + intros (? & [= <- <-] & -> & ?). done.
    + done.
    + intros (? & [= <- <-] & -> & ?). lia.
  - split; [|by intros (? & [=] & _)].
    rewrite seq_Ok, CHECK_Ok, Z.eqb_eq. simpl length. intros [? _]. lia.
Qed.

Lemma read_candidate_tsv_Err (X : Externals) (line : string) (e : error) :
  read_candidate X true line = Err e → e = TsvFieldCount ∨ e = TsvFrequency.
Proof.
  unfold read_candidate.
  destruct (Z.of_nat (length (Split X line kUPPBoundaryStr)) =? 2); simpl;
    [|intros [= <-]; by left].
  destruct (1 <=? atoll X _); simpl; [done|intros [= <-]; by right].
Qed.

(** C9.  A line read in the tsv format.  The candidate is [(s, f)] if and
    only if the line splits at tabs into exactly two fields, [s] and a
    second one that [atoll] reads as [f], with [f ≥ 1].  When it is not
    so, the check on the number of fields or on the frequency fails and
    [LoadSentences] as a whole returns that error.  ([fpre] and [pre] are
    the files and the lines read before, without a jump to [END].) *)
Theorem tsv_line_checked (X : Externals) (t : TrainerInterface)
    (fpre fpost : list string) (filename : string)
    (pre post : list string) (line : string) (st1 st2 : load_state X) :
  status_ t = Ok () → sentences_ t = [] → required_chars_ t = ∅ →
  input_format (trainer_spec_ t) = "tsv" →
  input (trainer_spec_ t) = fpre ++ filename :: fpost →
  NewReadableFile X filename = Some (pre ++ line :: post) →
  load_files X (trainer_spec_ t) true fpre (new_load_state X t)
  = Ok (Next st1) →
  load_lines X (trainer_spec_ t) true pre st1 = Ok (Next st2) →
  (∀ s f, read_candidate X true line = Ok (s, f) ↔
          ∃ b, Split X line kUPPBoundaryStr = [s; b] ∧ f = atoll X b ∧ 1 ≤ f) ∧
  (∀ e, read_candidate X true line = Err e →
        (e = TsvFieldCount ∨ e = TsvFrequency) ∧
        LoadSentences X t = Err e).
Proof.
  intros Hst Hsen Hreq Hfmt Hin Hfile Hfpre Hpre.
  split; [intros s f; apply read_candidate_tsv|].
  intros e He. split; [by eapply read_candidate_tsv_Err|].
  unfold LoadSentences. rewrite Hst, Hsen, Hreq, Hfmt, Hin. simpl.
  rewrite load_files_app, Hfpre. simpl.
  rewrite Hfile. simpl. rewrite load_lines_app, Hpre. simpl.
  unfold load_line. by rewrite He.
Qed.

(** A word list in the tsv format. *)
Definition tsv_spec : TrainerSpec :=
  {| model_prefix := "m"; input := ["words.tsv"]; input_format := "tsv";
     vocab_size := 8000; model_type := UNIGRAM; use_all_vocab := false;
     hard_vocab_limit := true; character_coverage := default_character_coverage;
     max_sentencepiece_length := 16; num_sub_iterations := 2;
     num_threads := 16; self_test_sample_size := 0;
     shrinking_factor := 75 # 100; max_sentence_length := 4192;
     input_sentence_size := 0; shuffle_input_sentence := true;
     unk_piece := "<unk>"; bos_piece := "<s>"; eos_piece := "</s>";
     pad_piece := "<pad>"; unk_id := 0; bos_id := 1; eos_id := 2;
     pad_id := -1; control_symbols := []; user_defined_symbols := [];
     treat_whitespace_as_suffix := false; split_by_whitespace := true;
     split_by_number := true; split_by_unicode_script := true |}.

Definition tab (a b : string) : string := a +:+ kUPPBoundaryStr +:+ b.

Example read_candidate_word :
  read_candidate (run_env [] id) true (tab "hello" "3") = Ok ("hello", 3).
Proof. vm_compute. reflexivity. Qed.

Example read_candidate_zero :
  read_candidate (run_env [] id) true (tab "hello" "0") = Err TsvFrequency.
Proof. vm_compute. reflexivity. Qed.

Example read_candidate_third_field :
  read_candidate (run_env [] id) true (tab "hello" (tab "3" "x"))
  = Err TsvFieldCount.
Proof. vm_compute. reflexivity. Qed.

Lemma tsv_line_checked_witness :
  let X := run_env [("words.tsv", [tab "hello" "3"; "world"])] id in
  let t := new_TrainerInterface tsv_spec {| name := "identity" |} in
  let st2 : load_state X :=
    {| selector := None; loaded := [("hello", 3)];
       test_sentence_sampler := (0 : sampler (test_sampler X));
       test_samples := []; too_long_lines := 0 |} in
  status_ t = Ok () ∧ sentences_ t = [] ∧ required_chars_ t = ∅ ∧
  input_format (trainer_spec_ t) = "tsv" ∧
  input (trainer_spec_ t) = [] ++ "words.tsv" :: [] ∧
  NewReadableFile X "words.tsv" = Some ([tab "hello" "3"] ++ "world" :: []) ∧
  load_files X (trainer_spec_ t) true [] (new_load_state X t)
  = Ok (Next (new_load_state X t)) ∧
  load_lines X (trainer_spec_ t) true [tab "hello" "3"] (new_load_state X t)
  = Ok (Next st2) ∧
  read_candidate X true "world" = Err TsvFieldCount ∧
  LoadSentences X t = Err TsvFieldCount.
Proof.
  intros X t st2.
  assert (status_ t = Ok ()) as H1 by (vm_compute; reflexivity).
  assert (sentences_ t = []) as H2 by reflexivity.
  assert (required_chars_ t = ∅) as H3 by reflexivity.
  assert (input_format (trainer_spec_ t) = "tsv") as H4 by reflexivity.
  assert (input (trainer_spec_ t) = [] ++ "words.tsv" :: []) as H5
    by reflexivity.
  assert (NewReadableFile X "words.tsv"
          = Some ([tab "hello" "3"] ++ "world" :: [])) as H6
    by (vm_compute; reflexivity).
  assert (load_files X (trainer_spec_ t) true [] (new_load_state X t)
          = Ok (Next (new_load_state X t))) as H7 by reflexivity.
  assert (load_lines X (trainer_spec_ t) true [tab "hello" "3"]
            (new_load_state X t) = Ok (Next st2)) as H8
    by reflexivity.
  assert (read_candidate X true "world" = Err TsvFieldCount) as H9
    by (vm_compute; reflexivity).
  repeat (split; [assumption|]).
  exact (proj2 (proj2 (tsv_line_checked X t [] [] "words.tsv"
                         [tab "hello" "3"] [] "world" _ st2
                         H1 H2 H3 H4 H5 H6 H7 H8) _ H9)).
Defined.

(** A line longer than the limit is skipped. *)
Lemma load_line_too_long (X : Externals) (spec : TrainerSpec)
    (line : string) (st : load_state X) :
  max_sentence_length spec < Z.of_nat (String.length line) < 2 ^ 31 →
  ∃ st', load_line X spec false line st = Ok (Next st') ∧
         loaded st' = loaded st.
Proof.
  intros Hlen. unfold load_line. cbn [read_candidate bind].
  destruct (empty line); [by exists st|].
  assert (to_int (Z.of_nat (String.length line))
          = Z.of_nat (String.length line)) as ->.
  { unfold to_int. rewrite Z.mod_small; lia. }
  rewrite (proj2 (Z.ltb_lt _ _)) by lia.
  by eexists.
Qed.

Lemma load_lines_too_long (X : Externals) (spec : TrainerSpec)
    (lines : list string) (st : load_state X) :
  Forall (λ l, max_sentence_length spec < Z.of_nat (String.length l) < 2 ^ 31)
    lines →
  ∃ st', load_lines X spec false lines st = Ok (Next st') ∧
         loaded st' = loaded st.
Proof.
  intros Hall. revert st.
  induction Hall as [|line lines Hline _ IH]; intros st; simpl.
  - by exists st.
  - destruct (load_line_too_long X spec line st Hline) as (st1 & -> & Hst1).
    simpl. destruct (IH st1) as (st' & -> & Hst').
    exists st'. split; [done|congruence].
Qed.

Lemma load_files_too_long (X : Externals) (spec : TrainerSpec)
    (filenames : list string) (st : load_state X) :
  (∀ f, f ∈ filenames →
     ∃ lines, NewReadableFile X f = Some lines ∧
       Forall (λ l, max_sentence_length spec < Z.of_nat (String.length l)
                    < 2 ^ 31) lines) →
  ∃ st', load_files X spec false filenames st = Ok (Next st') ∧
         loaded st' = loaded st.
Proof.
  revert st. induction filenames as [|f fs IH]; intros st Hall; simpl.
  - by exists st.
  - destruct (Hall f) as (lines & -> & Hlines); [apply list_elem_of_here|].
    simpl.
    destruct (load_lines_too_long X spec lines st Hlines) as (st1 & -> & Hst1).
    simpl. destruct (IH st1) as (st' & -> & Hst').
    { intros f' Hf'. apply Hall. by apply list_elem_of_further. }
    exists st'. split; [done|congruence].
Qed.

(** C7, amended.  When every line of a plain text corpus is longer than
    the sentence-length limit, no sentence is loaded and [LoadSentences]
    fails: the error is the one of the check that sentences were loaded
    (line 336), which comes before the normalization; the characters are
    not counted and the vocabulary size is not compared. *)
Theorem LoadSentences_all_lines_too_long (X : Externals)
    (t : TrainerInterface) :
  status_ t = Ok () → sentences_ t = [] → required_chars_ t = ∅ →
  input_format (trainer_spec_ t) = "" ∨
  input_format (trainer_spec_ t) = "text" →
  (∀ f, f ∈ input (trainer_spec_ t) →
     ∃ lines, NewReadableFile X f = Some lines ∧
       Forall (λ l, max_sentence_length (trainer_spec_ t)
                    < Z.of_nat (String.length l) < 2 ^ 31) lines) →
  LoadSentences X t = Err NoSentences.
Proof.
  intros Hst Hsen Hreq Hfmt Hall. unfold LoadSentences.
  rewrite Hst, Hsen, Hreq. simpl.
  assert (String.eqb (input_format (trainer_spec_ t)) "tsv" = false) as ->
    by (by destruct Hfmt as [-> | ->]).
  assert (empty (input_format (trainer_spec_ t))
          || String.eqb (input_format (trainer_spec_ t)) "text" = true) as ->
    by (by destruct Hfmt as [-> | ->]).
  simpl.
  destruct (load_files_too_long X (trainer_spec_ t)
              (input (trainer_spec_ t)) (new_load_state X t) Hall)
    as (st' & -> & Hst').
  simpl. unfold normalize_sentences. rewrite Hst'. simpl. by rewrite Hsen.
Qed.

(** A configuration with the smallest sentence-length limit. *)
Definition short_lines_spec : TrainerSpec :=
  {| model_prefix := "m"; input := ["corpus.txt"]; input_format := "";
     vocab_size := 8000; model_type := UNIGRAM; use_all_vocab := false;
     hard_vocab_limit := true; character_coverage := default_character_coverage;
     max_sentencepiece_length := 16; num_sub_iterations := 2;
     num_threads := 16; self_test_sample_size := 0;
     shrinking_factor := 75 # 100; max_sentence_length := 10;
     input_sentence_size := 0; shuffle_input_sentence := true;
     unk_piece := "<unk>"; bos_piece := "<s>"; eos_piece := "</s>";
     pad_piece := "<pad>"; unk_id := 0; bos_id := 1; eos_id := 2;
     pad_id := -1; control_symbols := []; user_defined_symbols := [];
     treat_whitespace_as_suffix := false; split_by_whitespace := true;
     split_by_number := true; split_by_unicode_script := true |}.

Definition long_lines : list string :=
  ["this line is too long"; "and so is this one"].

(** C7, as stated, fails: both lines of this corpus are longer than the
    limit of 10, and the error of [LoadSentences] is that no sentences
    were loaded, not that the vocabulary is too small. *)
Lemma LoadSentences_too_long_not_vocabulary_error :
  Forall (λ l, max_sentence_length short_lines_spec
               < Z.of_nat (String.length l)) long_lines ∧
  LoadSentences (run_env [("corpus.txt", long_lines)] id)
    (new_TrainerInterface short_lines_spec {| name := "identity" |})
  = Err NoSentences ∧
  LoadSentences (run_env [("corpus.txt", long_lines)] id)
    (new_TrainerInterface short_lines_spec {| name := "identity" |})
  ≠ Err VocabSmallerThanRequiredChars.
Proof.
  assert (LoadSentences (run_env [("corpus.txt", long_lines)] id)
            (new_TrainerInterface short_lines_spec {| name := "identity" |})
          = Err NoSentences) as H by (vm_compute; reflexivity).
  split; [repeat constructor|]. split; [exact H|]. rewrite H. discriminate.
Qed.

Lemma LoadSentences_all_lines_too_long_witness :
  let X := run_env [("corpus.txt", long_lines)] id in
  let t := new_TrainerInterface short_lines_spec {| name := "identity" |} in
  status_ t = Ok () ∧ sentences_ t = [] ∧ required_chars_ t = ∅ ∧
  (input_format (trainer_spec_ t) = "" ∨
   input_format (trainer_spec_ t) = "text") ∧
  (∀ f, f ∈ input (trainer_spec_ t) →
     ∃ lines, NewReadableFile X f = Some lines ∧
       Forall (λ l, max_sentence_length (trainer_spec_ t)
                    < Z.of_nat (String.length l) < 2 ^ 31) lines) ∧
  LoadSentences X t = Err NoSentences.
Proof.
  intros X t.
  assert (status_ t = Ok ()) as H1 by (vm_compute; reflexivity).
  assert (sentences_ t = []) as H2 by reflexivity.
  assert (required_chars_ t = ∅) as H3 by reflexivity.
  assert (input_format (trainer_spec_ t) = "" ∨
          input_format (trainer_spec_ t) = "text") as H4 by (by left).
  assert (∀ f, f ∈ input (trainer_spec_ t) →
            ∃ lines, NewReadableFile X f = Some lines ∧
              Forall (λ l, max_sentence_length (trainer_spec_ t)
                           < Z.of_nat (String.length l) < 2 ^ 31) lines) as H5.
  { intros f Hf. apply list_elem_of_singleton in Hf. subst f.
    exists long_lines. split; [vm_compute; reflexivity|].
    repeat constructor. }
  repeat (split; [assumption|]).
  exact (LoadSentences_all_lines_too_long X t H1 H2 H3 H4 H5).
Defined.


(** ** LoadSentences: the normalization block (C2) *)

(** A normalization that takes the dashes out of a sentence. *)
Fixpoint without_dashes (s : string) : string :=
  match s with
  | "" => ""
  | String c s' =>
      if Ascii.eqb c (byte 45) then without_dashes s'
      else String c (without_dashes s')
  end.

(** C2 (the code departs from it).  The loop that is to drop the empty
    sentences moves the last sentence into the place of an empty one and
    goes on to the next index, so the sentence moved in is looked at
    neither for emptiness nor for a space.  With a normalization that
    turns ["-"] and ["--"] into the empty string: of three sentences
    normalized to ["", "ab", ""] the block keeps ["", "ab"], and of
    ["", "b", "x y"] it keeps ["x y", "b"] without the error for the
    space.  [LoadSentences] then returns OK with the empty sentence in
    the first case; in the second the count of the characters finds the
    space. *)
Theorem normalize_sentences_skips_swapped_in :
  let X := run_env [("corpus.txt", ["-"; "ab"; "--"])] without_dashes in
  let Y := run_env [("corpus.txt", ["-"; "b"; "x y"])] without_dashes in
  let t := new_TrainerInterface default_spec {| name := "identity" |} in
  normalize_sentences X t [("-", 1); ("ab", 1); ("--", 1)]
  = Ok [("", 1); ("ab", 1)] ∧
  normalize_sentences Y t [("-", 1); ("b", 1); ("x y", 1)]
  = Ok [("x y", 1); ("b", 1)] ∧
  match LoadSentences X t with
  | Ok t' => sentences_ t' = [("", 1); ("ab", 1)]
  | Err _ => False
  end ∧
  LoadSentences Y t = Err SpaceInCounted.
Proof.
  intros X Y t.
  split; [vm_compute; reflexivity|]. split; [vm_compute; reflexivity|].
  split; vm_compute; reflexivity.
Qed.


(** ** LoadSentences: character coverage (C3) *)

(** The codepoints that the counting loop counts. *)
Definition is_counted (X : Externals) (c : Z) : bool :=
  IsValidCodepoint X c && negb (c =? 0x0000) && negb (c =? 0x0020).

(** The counted occurrences of a sentence, each with the frequency of the
    sentence, and those of a corpus. *)
Definition sentence_events (X : Externals) (w : Sentence) : list (Z * Z) :=
  (λ c, (c, w.2)) <$> filter (λ c, is_counted X c = true)
                        (UTF8ToUnicodeText X w.1).

Fixpoint char_events (X : Externals) (sentences : list Sentence)
    : list (Z * Z) :=
  match sentences with
  | [] => []
  | w :: sentences' => sentence_events X w ++ char_events X sentences'
  end.

Definition sum_counts (l : list (Z * Z)) : Z := foldr (λ e s, e.2 + s) 0 l.

(** The weighted frequency of a codepoint: the frequencies of the
    sentences, summed over its occurrences. *)
Definition weighted_frequency (X : Externals) (sentences : list Sentence)
    (c : Z) : Z :=
  sum_counts (filter (λ e, e.1 = c) (char_events X sentences)).

Definition count_event (st : Z * gmap Z Z) (e : Z * Z) : Z * gmap Z Z :=
  (st.1 + e.2, add_count e.1 e.2 st.2).

Lemma sum_counts_app (l1 l2 : list (Z * Z)) :
  sum_counts (l1 ++ l2) = sum_counts l1 + sum_counts l2.
Proof. induction l1 as [|e l1 IH]; simpl; [done|]. rewrite IH. lia. Qed.

Lemma count_sentence_events (X : Externals) (w : Sentence) (cs : list Z)
    (st : Z * gmap Z Z) :
  contains w.1 " " = false →
  for_each (count_char X w) cs st
  = Ok (foldl count_event st
          ((λ c, (c, w.2)) <$> filter (λ c, is_counted X c = true) cs)).
Proof.
  intros Hw. revert st. induction cs as [|c cs IH]; intros st; [done|].
  cbn [for_each]. unfold count_char at 1.
  destruct (IsValidCodepoint X c) eqn:Hv; cbn [negb andb].
  2: { rewrite filter_cons_False; [apply IH|].
       unfold is_counted. by rewrite Hv. }
  destruct (Z.eqb_spec c 0) as [->|H0]; cbn [negb andb].
  { rewrite filter_cons_False; [apply IH|].
    unfold is_counted. rewrite Hv. done. }
  destruct (Z.eqb_spec c 32) as [->|H32]; cbn [negb andb].
  { rewrite Hw. cbn [negb CHECK_OR_RETURN bind].
    rewrite filter_cons_False; [apply IH|].
    unfold is_counted. rewrite Hv. done. }
  cbn [bind]. rewrite filter_cons_True.
  - rewrite fmap_cons. cbn [foldl]. apply IH.
  - unfold is_counted. rewrite Hv.
    by rewrite (proj2 (Z.eqb_neq _ _) H0), (proj2 (Z.eqb_neq _ _) H32).
Qed.

Lemma count_chars_from (X : Externals) (sentences : list Sentence)
    (st : Z * gmap Z Z) :
  Forall (λ w, contains w.1 " " = false) sentences →
  for_each (λ w, for_each (count_char X w) (UTF8ToUnicodeText X w.1))
    sentences st
  = Ok (foldl count_event st (char_events X sentences)).
Proof.
  intros Hall. revert st.
  induction Hall as [|w ws Hw _ IH]; intros st; [done|].
  cbn [for_each char_events].
  rewrite (count_sentence_events X w _ st Hw). cbn [bind].
  rewrite foldl_app. apply IH.
Qed.

Lemma fold_events_total (l : list (Z * Z)) (st : Z * gmap Z Z) :
  (foldl count_event st l).1 = st.1 + sum_counts l.
Proof.
  revert st. induction l as [|e l IH]; intros st; simpl; [lia|].
  rewrite IH. simpl. lia.
Qed.

Lemma fold_events_lookup (l : list (Z * Z)) (st : Z * gmap Z Z) (c : Z) :
  (foldl count_event st l).2 !! c
  = if decide (c ∈ l.*1)
    then Some (default 0 (st.2 !! c)
               + sum_counts (filter (λ e, e.1 = c) l))
    else st.2 !! c.
Proof.
  revert st. induction l as [|e l IH]; intros st.
  - cbn [foldl fmap list_fmap].
    destruct (decide (c ∈ [])) as [H%elem_of_nil|]; done.
  - cbn [foldl]. rewrite IH. unfold count_event. cbn [fst snd].
    unfold add_count. rewrite fmap_cons.
    destruct (decide (e.1 = c)) as [He|He].
    + rewrite filter_cons_True by done. subst c.
      rewrite lookup_insert_eq. cbn [default sum_counts foldr].
      rewrite (decide_True (P := e.1 ∈ e.1 :: l.*1))
        by apply list_elem_of_here.
      fold (sum_counts (filter (λ e0, e0.1 = e.1) l)).
      destruct (decide (e.1 ∈ l.*1)) as [Hin|Hin].
      * unfold id. f_equal. lia.
      * unfold id. f_equal.
        assert (filter (λ e0, e0.1 = e.1) l = []) as ->.
        { destruct (filter (λ e0, e0.1 = e.1) l) as [|e' l'] eqn:Hf; [done|].
          exfalso. apply Hin.
          assert (e' ∈ filter (λ e0, e0.1 = e.1) l) as He'
            by (rewrite Hf; apply list_elem_of_here).
          apply list_elem_of_filter in He' as [<- He'].
          by apply list_elem_of_fmap_2. }
        simpl. lia.
    + rewrite filter_cons_False by done. rewrite lookup_insert_ne by done.
      destruct (decide (c ∈ l.*1)) as [Hin|Hin].
      * rewrite decide_True by (by apply list_elem_of_further). done.
      * rewrite decide_False; [done|].
        intros [?|?]%elem_of_cons; [congruence|done].
Qed.

(** What the counting loop leaves: the total and, for every counted
    codepoint that occurs, its weighted frequency. *)
Lemma count_chars_spec (X : Externals) (sentences : list Sentence) :
  Forall (λ w, contains w.1 " " = false) sentences →
  ∃ cc,
    count_chars X sentences = Ok (sum_counts (char_events X sentences), cc) ∧
    ∀ c n, cc !! c = Some n ↔
           c ∈ (char_events X sentences).*1 ∧
           n = weighted_frequency X sentences c.
Proof.
  intros Hall. unfold count_chars. rewrite count_chars_from by done.
  exists (foldl count_event (0, ∅) (char_events X sentences)).2. split.
  - f_equal. apply injective_projections; [|reflexivity].
    rewrite fold_events_total. simpl. lia.
  - intros c n. rewrite fold_events_lookup. cbn [snd]. rewrite lookup_empty.
    unfold weighted_frequency. simpl.
    destruct (decide (c ∈ (char_events X sentences).*1)).
    + split; [intros [= <-]|intros [_ ->]]; done.
    + split; [done|]. by intros [? _].
Qed.


#[local] Instance before_eq_total : Total before_eq.
Proof. intros [a b] [c d]. unfold before_eq. simpl. lia. Qed.

#[local] Instance before_eq_trans : Transitive before_eq.
Proof. intros [a b] [c d] [e f]. unfold before_eq. simpl. lia. Qed.

Lemma StronglySorted_before (l : list (Z * Z)) :
  NoDup (l.*1) → StronglySorted before_eq l → StronglySorted before l.
Proof.
  intros Hnd Hs. induction Hs as [|a l Hs IH Ha]; [constructor|].
  rewrite fmap_cons in Hnd. apply NoDup_cons in Hnd as [Hin Hnd].
  constructor; [by apply IH|].
  apply Forall_forall. intros b Hb.
  pose proof (proj1 (Forall_forall _ _) Ha b Hb) as Hab.
  assert (a.1 ≠ b.1) as Hne.
  { intros Heq. apply Hin. rewrite Heq. by apply list_elem_of_fmap_2. }
  unfold before, before_eq in *. lia.
Qed.

(** [Sorted] gives the entries of the map, each once, a larger count
    before a smaller one and, of equal counts, the smaller codepoint
    first. *)
Lemma util_Sorted_spec (m : gmap Z Z) :
  util_Sorted m ≡ₚ map_to_list m ∧
  NoDup ((util_Sorted m).*1) ∧
  StronglySorted before (util_Sorted m).
Proof.
  unfold util_Sorted.
  assert (merge_sort before_eq (map_to_list m) ≡ₚ map_to_list m) as Hp
    by apply merge_sort_Permutation.
  assert (NoDup ((merge_sort before_eq (map_to_list m)).*1)) as Hnd.
  { rewrite Hp. apply NoDup_fst_map_to_list. }
  split; [done|]. split; [done|].
  apply StronglySorted_before; [done|].
  apply StronglySorted_merge_sort; apply _.
Qed.

(** The loop over the sorted entries: it does not fail when no entry is
    the space, and it takes an entry exactly when the coverage was below
    the target at that entry and at every entry before it (or all
    characters are asked for) and the entry is not the tab. *)
Lemma required_chars_loop_spec (spec : TrainerSpec)
    (all : Z) (l : list (Z * Z)) (acc : Z) (req : gmap Z Z) :
  (∀ p, p ∈ l → p.1 ≠ 0x0020) →
  NoDup (l.*1) →
  (∀ p, p ∈ l → req !! p.1 = None) →
  ∃ acc' req',
    required_chars_loop spec all l (acc, req) = Ok (acc', req') ∧
    ∀ c n, req' !! c = Some n ↔
      req !! c = Some n ∨
      (c ≠ kUPPBoundaryChar ∧
       ∃ k, l !! k = Some (c, n) ∧
            (use_all_vocab spec = true ∨
             ∀ j, (j ≤ k)%nat →
                  coverage_ge (acc + sum_counts (take j l)) all
                    (character_coverage spec) = false)).
Proof.
  revert acc req. induction l as [|w l IH]; intros acc req Hsp Hnd Hfresh.
  - exists acc, req. split; [done|]. intros c n. split; [by left|].
    intros [?|(_ & k & Hk & _)]; [done|]. by rewrite lookup_nil in Hk.
  - cbn [required_chars_loop fst snd].
    rewrite fmap_cons in Hnd. apply NoDup_cons in Hnd as [Hw Hnd].
    destruct (negb (use_all_vocab spec)
              && coverage_ge acc all (character_coverage spec)) eqn:Hbrk.
    { exists acc, req. split; [done|]. intros c n. split; [by left|].
      intros [?|(_ & k & _ & [Hall|Hcov])]; [done|..].
      - rewrite Hall in Hbrk. done.
      - specialize (Hcov 0%nat ltac:(lia)). simpl in Hcov.
        rewrite Z.add_0_r in Hcov. rewrite Hcov, andb_false_r in Hbrk. done. }
    assert (use_all_vocab spec = true ∨
            coverage_ge acc all (character_coverage spec) = false) as Hgo.
    { apply andb_false_iff in Hbrk as [?%negb_false_iff|?]; auto. }
    assert (w.1 ≠ 32) as Hw32 by (apply Hsp, list_elem_of_here).
    rewrite (proj2 (Z.eqb_neq _ _) Hw32). cbn [negb CHECK_OR_RETURN bind].
    assert (∀ k : nat,
      (use_all_vocab spec = true ∨
       ∀ j, (j ≤ k)%nat →
         coverage_ge (acc + w.2 + sum_counts (take j l)) all
           (character_coverage spec) = false) ↔
      (use_all_vocab spec = true ∨
       ∀ j, (j ≤ S k)%nat →
         coverage_ge (acc + sum_counts (take j (w :: l))) all
           (character_coverage spec) = false)) as Hshift.
    { intros k. split; (intros [?|Hcov]; [by left|]).
      - destruct Hgo as [?|Hgo]; [by left|]. right. intros [|j] Hj.
        + simpl. by rewrite Z.add_0_r.
        + cbn [take sum_counts foldr]. fold (sum_counts (take j l)).
          rewrite Z.add_assoc. apply Hcov. lia.
      - right. intros j Hj. specialize (Hcov (S j) ltac:(lia)).
        cbn [take sum_counts foldr] in Hcov. fold (sum_counts (take j l)) in Hcov.
        by rewrite Z.add_assoc in Hcov. }
    destruct (Z.eqb_spec w.1 kUPPBoundaryChar) as [Htab|Htab].
    + destruct (IH (acc + w.2) req) as (acc' & req' & -> & Hreq').
      { intros p Hp. apply Hsp. by apply list_elem_of_further. }
      { done. }
      { intros p Hp. apply Hfresh. by apply list_elem_of_further. }
      exists acc', req'. split; [done|]. intros c n. rewrite Hreq'.
      split; (intros [?|(Hc & k & Hk & Hcov)]; [by left|right]).
      * split; [done|]. exists (S k). split; [done|]. by apply Hshift.
      * split; [done|]. destruct k as [|k].
        -- simpl in Hk. injection Hk as ->. simpl in Htab. done.
        -- exists k. split; [done|]. by apply Hshift.
    + assert (insert_new w req = <[w.1 := w.2]> req) as ->.
      { unfold insert_new. rewrite Hfresh; [done|apply list_elem_of_here]. }
      destruct (IH (acc + w.2) (<[w.1 := w.2]> req)) as (acc' & req' & -> & Hreq').
      { intros p Hp. apply Hsp. by apply list_elem_of_further. }
      { done. }
      { intros p Hp. rewrite lookup_insert_ne.
        - apply Hfresh. by apply list_elem_of_further.
        - intros Heq. apply Hw. rewrite Heq. by apply list_elem_of_fmap_2. }
      exists acc', req'. split; [done|]. intros c n. rewrite Hreq'.
      rewrite lookup_insert_Some. split.
      * intros [[[<- <-]|[_ ?]]|(Hc & k & Hk & Hcov)]; [|by left|].
        -- right. split; [done|]. exists 0%nat. split; [by destruct w|].
           destruct Hgo as [?|Hgo]; [by left|]. right. intros j Hj.
           assert (j = 0%nat) as -> by lia. simpl. by rewrite Z.add_0_r.
        -- right. split; [done|]. exists (S k). split; [done|].
           by apply Hshift.
      * intros [Hc|(Hc & k & Hk & Hcov)].
        -- left. right. split; [|done]. intros <-.
           rewrite Hfresh in Hc; [done|apply list_elem_of_here].
        -- destruct k as [|k].
           ++ simpl in Hk. injection Hk as Hk. left. left. by rewrite Hk.
           ++ right. split; [done|]. exists k. split; [done|].
              by apply Hshift.
Qed.

Example count_and_sort_ab :
  match count_chars (run_env [] id) [("ab", 2); ("b", 1)] with
  | Ok (all, cc) => all = 5 ∧ util_Sorted cc = [(98, 3); (97, 2)]
  | Err _ => False
  end.
Proof. vm_compute. done. Qed.

(** The sentences of [char_model_trainer_test.cc], with the spaces
    written as the whitespace character: the order of [Sorted] is the
    order the test expects of the pieces. *)
Definition test_sentence (ws : list string) : Sentence :=
  (foldr (λ w s, kWSStr +:+ w +:+ s) "" ws, 1).

Example char_model_trainer_test_order :
  match count_chars (run_env [] id)
          [ test_sentence ["I"; "have"; "a"; "pen"];
            test_sentence ["I"; "have"; "an"; "apple"];
            test_sentence ["apple"; "pen"] ] with
  | Ok (_, cc) =>
      UnicodeTextToUTF8 (run_env [] id) <$> ((λ e, [e.1]) <$> util_Sorted cc)
      = [kWSStr; "a"; "e"; "p"; "n"; "I"; "h"; "l"; "v"]
  | Err _ => False
  end.
Proof. vm_compute. reflexivity. Qed.


(** [LoadSentences] leaves in [required_chars_] what the loop over the
    sorted counts of the normalized sentences gives. *)
Lemma LoadSentences_required_chars (X : Externals) (t t' : TrainerInterface) :
  LoadSentences X t = Ok t' →
  ∃ r sentences all cc acc,
    load_files X (trainer_spec_ t)
      (String.eqb (input_format (trainer_spec_ t)) "tsv")
      (input (trainer_spec_ t)) (new_load_state X t) = Ok r ∧
    normalize_sentences X t (loaded (at_END r)) = Ok sentences ∧
    count_chars X sentences = Ok (all, cc) ∧
    required_chars_loop (trainer_spec_ t) all (util_Sorted cc) (0, ∅)
    = Ok (acc, required_chars_ t') ∧
    required_chars_ t' !! kUNKChar = None.
Proof.
  unfold LoadSentences. intros H.
  apply seq_Ok in H as [_ H]. apply seq_Ok in H as [_ H].
  apply seq_Ok in H as [Hreq%CHECK_Ok%bool_decide_eq_true H].
  apply seq_Ok in H as [_ H].
  apply bind_Ok in H as (r & Hr & H).
  apply bind_Ok in H as (sentences & Hs & H).
  apply bind_Ok in H as ([all cc] & Hc & H).
  apply bind_Ok in H as ([acc req] & Hl & H).
  apply seq_Ok in H as [Hunk%CHECK_Ok H].
  apply seq_Ok in H as [_ [= <-]]. simpl.
  exists r, sentences, all, cc, acc. rewrite Hreq in Hl.
  repeat split; try done.
  apply negb_true_iff, bool_decide_eq_false in Hunk.
  by apply eq_None_not_Some.
Qed.

(** ** The rounding of the coverage *)

Section Rounding.
Local Open Scope Q_scope.









(** The numbers [n * 2^j] with [|n| < 2^p]: the floating-point numbers
    of precision [p], the range of the exponent not limited.  The values
    of a [float] are representable with 24 bits, those of a [double]
    with 53. *)
Definition representable (p : Z) (f : Q) : Prop :=
  ∃ n j : Z, f == inject_Z n * 2 ^ j ∧ (Z.abs n < 2 ^ p)%Z.



















End Rounding.

(** *** The same coverage with the library's binary floating-point
    numbers

    [SpecFloat] is the specification of IEEE 754 arithmetic in the
    Standard Library, with the range of the exponent limited as the
    formats have it.  [coverage] is the same number on the runs
    below. *)

Definition double_of_int64 (n : Z) : SpecFloat.spec_float :=
  SpecFloat.binary_normalize 53 1024 n 0 false.

Definition float_of_double (x : SpecFloat.spec_float)
    : SpecFloat.spec_float :=
  match x with
  | SpecFloat.S754_finite s m e => SpecFloat.binary_round 24 128 s m e
  | _ => x
  end.

Definition coverage_binary32 (accumulated_chars_count all_chars_count : Z)
    : SpecFloat.spec_float :=
  float_of_double
    (SpecFloat.SFdiv 53 1024
       (SpecFloat.SFmul 53 1024 (SpecFloat.SFone 53 1024)
          (double_of_int64 accumulated_chars_count))
       (double_of_int64 all_chars_count)).

Definition float_value (x : SpecFloat.spec_float) : option Q :=
  match x with
  | SpecFloat.S754_zero _ => Some 0%Q
  | SpecFloat.S754_finite s m e =>
      let v := (inject_Z (Z.pos m) * 2 ^ e)%Q in
      Some (if s then Qopp v else v)
  | _ => None
  end.

Definition coverage_agrees (acc all : Z) : bool :=
  match float_value (coverage_binary32 acc all) with
  | Some v => Qeq_bool v (coverage acc all)
  | None => false
  end.

Example coverage_agrees_small :
  forallb (λ all, forallb (λ acc, coverage_agrees acc all) (seqZ 0 41))
    (seqZ 1 40) = true.
Proof. vm_compute. reflexivity. Qed.

Example coverage_agrees_large :
  forallb (λ p, coverage_agrees p.1 p.2)
    [(67108863, 67108864); (33554431, 33554432); (9995, 10000);
     (134217725, 134217728); (134217726, 134217728);
     (16777215, 16777216); (16777217, 33554432);
     (9007199254740993, 9007199254740994);
     (1, 9223372036854775807); (9223372036854775806, 9223372036854775807);
     (123456789012345678, 987654321098765432)] = true.
Proof. vm_compute. reflexivity. Qed.

(** The library's [float] of 134217725 / 134217728 is 1. *)
Example coverage_binary32_rounds_up :
  match float_value (coverage_binary32 134217725 134217728) with
  | Some v => Qeq_bool v 1
  | None => false
  end = true.
Proof. vm_compute. reflexivity. Qed.

(** The default target is the value of a [float], and so is 1. *)
Example default_character_coverage_representable :
  representable 24 default_character_coverage ∧ representable 24 1.
Proof.
  split.
  - exists 16768827, (-24). split; [reflexivity|done].
  - exists 1, 0. split; [reflexivity|done].
Qed.






(** *** The cut-off on the exact fraction *)

(** The entries taken in the words of the specification: in the order
    of the list, "while the accumulated fraction of the total character
    count is below the configured coverage target", the fraction being
    the exact quotient; all of them when all characters are asked for. *)
Fixpoint taken_below_target (spec : TrainerSpec) (all acc : Z)
    (l : list (Z * Z)) : list (Z * Z) :=
  match l with
  | [] => []
  | w :: l' =>
      if negb (use_all_vocab spec)
         && exact_coverage_ge acc all (character_coverage spec)
      then []
      else w :: taken_below_target spec all (acc + w.2) l'
  end.

Definition required_by_exact_fraction (spec : TrainerSpec) (all : Z)
    (sorted : list (Z * Z)) : gmap Z Z :=
  list_to_map (filter (λ w, w.1 ≠ kUPPBoundaryChar)
                 (taken_below_target spec all 0 sorted)).




(** On the default configuration and a small corpus the two cut-offs
    take the same codepoints. *)
Example required_by_exact_fraction_ab :
  match count_chars (run_env [] id) [("ab", 2); ("b", 1)] with
  | Ok (all, cc) =>
      required_chars_loop default_spec all (util_Sorted cc) (0, ∅)
      = Ok (all, required_by_exact_fraction default_spec all (util_Sorted cc))
  | Err _ => False
  end.
Proof. vm_compute. reflexivity. Qed.




(* ===================================================================== *)
(** * Further properties of the trainer                                   *)
(* ===================================================================== *)

(** ** The worker pool of the normalization block *)

Lemma stride_step (T d : Z) :
  1 ≤ T → 0 ≤ d → d ≠ 0 →
  (d mod T = 0 ↔ T ≤ d ∧ (d - T) mod T = 0) ∧ (d - T) / T = d / T - 1.
Proof.
  intros HT Hd Hd0.
  replace (d - T) with (d + (-1) * T) by lia.
  rewrite Z_mod_plus_full, Z_div_plus_full by lia.
  split; [|lia]. split; [|tauto].
  intros Hmod. split; [|done].
  destruct (Z.lt_ge_cases d T) as [Hlt|]; [|done].
  rewrite Z.mod_small in Hmod by lia. lia.
Qed.

(** The slots a worker writes: those at [i], [i + T], [i + 2T], ... *)
Definition worker_slot (T i : Z) (fuel : nat) (j : nat) : Prop :=
  i ≤ Z.of_nat j ∧ (Z.of_nat j - i) mod T = 0 ∧
  (Z.of_nat j - i) / T < Z.of_nat fuel.

#[local] Instance worker_slot_dec (T i : Z) (fuel j : nat) :
  Decision (worker_slot T i fuel j).
Proof. unfold worker_slot. apply _. Defined.

Lemma worker_loop_lookup (fuel : nat) (f : string → string) (T i : Z)
    (ss : list Sentence) (j : nat) :
  1 ≤ T → 0 ≤ i →
  worker_loop fuel f T i ss !! j
  = if decide (worker_slot T i fuel j) then on_text f <$> ss !! j
    else ss !! j.
Proof.
  intros HT. revert i ss. induction fuel as [|fuel IH]; intros i ss Hi.
  - cbn [worker_loop]. rewrite decide_False; [done|].
    intros (Hj & _ & Hq).
    pose proof (Z.div_pos (Z.of_nat j - i) T ltac:(lia) ltac:(lia)). lia.
  - cbn [worker_loop]. destruct (Z.ltb_spec i (Z.of_nat (length ss))) as [Hlt|Hge].
    + rewrite IH by lia.
      destruct (decide (Z.of_nat j = i)) as [Hji|Hji].
      * assert (j = Z.to_nat i) as -> by lia.
        rewrite decide_False by (intros (? & _); lia).
        rewrite list_lookup_alter_eq.
        rewrite decide_True; [done|].
        split; [lia|]. replace (Z.of_nat (Z.to_nat i) - i) with 0 by lia.
        rewrite Z.mod_0_l, Z.div_0_l by lia. lia.
      * rewrite list_lookup_alter_ne by lia.
        destruct (Z.lt_ge_cases (Z.of_nat j) i) as [Hlj|Hgj].
        { rewrite !decide_False; [done|intros (? & _); lia|intros (? & _); lia]. }
        destruct (stride_step T (Z.of_nat j - i) HT ltac:(lia) ltac:(lia))
          as [Hmod Hdiv].
        destruct (decide (worker_slot T i (S fuel) j)) as [(H1 & H2 & H3)|Hn].
        -- rewrite decide_True; [done|].
           apply Hmod in H2 as [H2 H2']. split; [lia|].
           replace (Z.of_nat j - (i + T)) with (Z.of_nat j - i - T) by lia.
           split; [done|]. lia.
        -- rewrite decide_False; [done|].
           intros (H1 & H2 & H3). apply Hn.
           replace (Z.of_nat j - (i + T)) with (Z.of_nat j - i - T) in H2, H3
             by lia.
           split; [lia|]. split; [apply Hmod; split; [lia|done]|lia].
    + destruct (decide (worker_slot T i (S fuel) j)) as [(H1 & _)|]; [|done].
      assert (ss !! j = None) as Hnone by (apply lookup_ge_None_2; lia).
      by rewrite Hnone.
Qed.

Lemma worker_loop_length (fuel : nat) (f : string → string) (T i : Z)
    (ss : list Sentence) :
  length (worker_loop fuel f T i ss) = length ss.
Proof.
  revert i ss. induction fuel as [|fuel IH]; intros i ss; [done|].
  cbn [worker_loop]. destruct (i <? Z.of_nat (length ss)); [|done].
  by rewrite IH, length_alter.
Qed.

(** Worker [n] of [T] normalizes the slots [j] with [j mod T = n]. *)
Lemma worker_lookup (f : string → string) (T n : Z) (ss : list Sentence)
    (j : nat) :
  0 ≤ n < T →
  worker_loop (length ss) f T n ss !! j
  = if decide (Z.of_nat j mod T = n) then on_text f <$> ss !! j else ss !! j.
Proof.
  intros Hn. rewrite worker_loop_lookup by lia.
  destruct (decide (j < length ss)%nat) as [Hj|Hj].
  2: { assert (ss !! j = None) as Hnone by (apply lookup_ge_None_2; lia).
       rewrite Hnone. by repeat case_decide. }
  destruct (decide (Z.of_nat j mod T = n)) as [Hm|Hm].
  - rewrite decide_True; [done|].
    pose proof (Z.div_mod (Z.of_nat j) T ltac:(lia)) as Hdm.
    pose proof (Z.div_pos (Z.of_nat j) T ltac:(lia) ltac:(lia)) as Hq.
    assert (Z.of_nat j - n = Z.of_nat j / T * T) as Heq by (rewrite Hm in Hdm; nia).
    unfold worker_slot. rewrite Heq, Z.mod_mul, Z.div_mul by lia.
    split; [nia|]. split; [done|]. nia.
  - rewrite decide_False; [done|].
    intros (H1 & H2 & _). apply Hm.
    replace (Z.of_nat j) with ((Z.of_nat j - n) + n) by lia.
    rewrite Z.add_mod, H2, Z.add_0_l, Z.mod_mod by lia.
    apply Z.mod_small. lia.
Qed.

Lemma workers_lookup (f : string → string) (T : Z) (ss : list Sentence)
    (m : nat) (j : nat) :
  Z.of_nat m ≤ T →
  let r := foldl (λ ss n, worker_loop (length ss) f T n ss) ss
             (seqZ 0 (Z.of_nat m)) in
  length r = length ss ∧
  r !! j = if decide (Z.of_nat j mod T < Z.of_nat m)
           then on_text f <$> ss !! j else ss !! j.
Proof.
  induction m as [|m IH]; intros Hm; cbn zeta.
  - simpl. split; [done|]. rewrite decide_False; [done|].
    destruct (decide (T = 0)) as [->|]; [rewrite Z.mod_0_r; lia|].
    pose proof (Z.mod_pos_bound (Z.of_nat j) T ltac:(lia)). lia.
  - rewrite seqZ_S, foldl_app. cbn [foldl].
    destruct (IH ltac:(lia)) as [Hlen Hlook]. cbn zeta in Hlen, Hlook.
    rewrite worker_loop_length. split; [done|].
    rewrite worker_lookup by lia. rewrite Hlook.
    pose proof (Z.mod_pos_bound (Z.of_nat j) T ltac:(lia)).
    repeat case_decide; try done; try lia.
Qed.

Lemma normalize_all_lookup (f : string → string) (num_threads : Z)
    (sentences : list Sentence) (j : nat) :
  1 ≤ num_threads →
  normalize_all f num_threads sentences !! j = on_text f <$> sentences !! j.
Proof.
  intros HT. unfold normalize_all.
  destruct (workers_lookup f num_threads sentences (Z.to_nat num_threads) j)
    as [_ Hj]; [lia|].
  rewrite Z2Nat.id in Hj by lia. rewrite Hj.
  rewrite decide_True; [done|].
  apply Z.mod_pos_bound. lia.
Qed.

(** X1.  The worker pool of lines 338-349 normalizes every sentence
    once, whatever the number of threads is, provided there is at least
    one: the vector after the join is the vector of the normalized
    sentences, in the same order and with the same frequencies. *)
Theorem normalize_all_is_map (f : string → string) (num_threads : Z)
    (sentences : list Sentence) :
  1 ≤ num_threads →
  normalize_all f num_threads sentences = on_text f <$> sentences.
Proof.
  intros HT. apply list_eq. intros j.
  rewrite normalize_all_lookup by done.
  by rewrite list_lookup_fmap.
Qed.

Lemma normalize_all_is_map_witness :
  1 ≤ 3 ∧
  normalize_all without_dashes 3 [("a-b", 1); ("-", 2); ("c", 3); ("d--", 4)]
  = on_text without_dashes <$> [("a-b", 1); ("-", 2); ("c", 3); ("d--", 4)].
Proof.
  split; [lia|]. apply (normalize_all_is_map without_dashes 3). lia.
Defined.


(** ** The loop that checks for spaces and drops empty sentences *)

Lemma swap_with_last_and_shrink_perm (i : nat) (ss : list Sentence)
    (s : Sentence) :
  ss !! i = Some s →
  ss ≡ₚ swap_with_last_and_shrink i ss ++ [s] ∧
  S (length (swap_with_last_and_shrink i ss)) = length ss.
Proof.
  intros Hi. unfold swap_with_last_and_shrink. rewrite Hi.
  destruct (last ss) as [l|] eqn:Hl.
  2: { apply last_None in Hl. subst ss. done. }
  apply last_Some in Hl as [ss' ->].
  rewrite length_app. cbn [length].
  replace (length ss' + 1 - 1)%nat with (length ss') by lia.
  rewrite take_insert_ge by lia.
  destruct (decide (i < length ss')%nat) as [Hlt|Hge].
  - rewrite insert_app_l by done. rewrite take_app_length'
      by (by rewrite length_insert).
    rewrite lookup_app_l in Hi by done.
    rewrite length_insert. split; [|lia].
    rewrite <- (take_drop_middle ss' i s Hi) at 1.
    rewrite (insert_take_drop ss' i l) by done.
    rewrite <- !app_assoc. cbn [app].
    apply Permutation_app_head.
    rewrite (Permutation_app_comm (drop (S i) ss') [s]).
    rewrite (Permutation_app_comm (drop (S i) ss') [l]).
    cbn [app]. apply perm_swap.
  - assert (i = length ss') as ->.
    { apply lookup_lt_Some in Hi. rewrite length_app in Hi. simpl in Hi. lia. }
    rewrite list_lookup_middle in Hi by done. injection Hi as <-.
    rewrite (list_insert_id (ss' ++ [l]) (length ss') l)
      by (by apply list_lookup_middle).
    rewrite take_app_length. split; [done|lia].
Qed.

Lemma check_and_remove_empty_spec (fuel i : nat) (ss : list Sentence) :
  match check_and_remove_empty fuel i ss with
  | Ok r =>
      ∃ dropped, ss ≡ₚ r ++ dropped ∧ Forall (λ w, w.1 = "") dropped ∧
                 (Forall (λ w, w.1 ≠ "") ss → r = ss)
  | Err e => e = SpaceInNormalized ∧ ∃ w, w ∈ ss ∧ contains w.1 " " = true
  end.
Proof.
  revert i ss. induction fuel as [|fuel IH]; intros i ss; cbn [check_and_remove_empty].
  { exists []. rewrite app_nil_r. done. }
  destruct (ss !! i) as [s|] eqn:Hi.
  2: { exists []. rewrite app_nil_r. done. }
  destruct (contains s.1 " ") eqn:Hsp; cbn [negb CHECK_OR_RETURN bind].
  { split; [done|]. exists s. split; [|done]. by eapply list_elem_of_lookup_2. }
  destruct (empty s.1) eqn:He.
  - destruct (swap_with_last_and_shrink_perm i ss s Hi) as [Hperm Hlen].
    specialize (IH (S i) (swap_with_last_and_shrink i ss)).
    destruct (check_and_remove_empty fuel (S i) _) as [r|e].
    + destruct IH as (dropped & Hr & Hd & _).
      exists (dropped ++ [s]). split; [|split].
      * rewrite Hperm, Hr. by rewrite app_assoc.
      * apply Forall_app. split; [done|].
        apply Forall_singleton. by apply empty_true.
      * intros Hne. exfalso.
        apply (proj1 (Forall_forall _ _) Hne s);
          [by eapply list_elem_of_lookup_2|by apply empty_true].
    + destruct IH as (-> & w & Hw & Hws). split; [done|].
      exists w. split; [|done]. rewrite Hperm. apply elem_of_app. by left.
  - specialize (IH (S i) ss).
    destruct (check_and_remove_empty fuel (S i) ss) as [r|e]; done.
Qed.

Lemma check_and_remove_empty_no_space (fuel i : nat) (ss : list Sentence) :
  Forall (λ w, contains w.1 " " = false) ss →
  is_ok (check_and_remove_empty fuel i ss) = true.
Proof.
  intros Hall.
  pose proof (check_and_remove_empty_spec fuel i ss) as H.
  destruct (check_and_remove_empty fuel i ss) as [r|e]; [done|].
  destruct H as (_ & w & Hw & Hws).
  apply (proj1 (Forall_forall _ _) Hall) in Hw. congruence.
Qed.

(** X2.  The normalization block (lines 326-360), for at least one
    thread.  If it fails on a corpus that is not empty, some normalized
    sentence has a raw space; if no normalized sentence has one, it does
    not fail.  What it returns are the normalized sentences up to their
    order, less some of the empty ones: it drops nothing but empty
    sentences, and nothing at all (and keeps the order) when no sentence
    normalizes to the empty string. *)
Theorem normalize_sentences_keeps_nonempty (X : Externals)
    (t : TrainerInterface) (sentences : list Sentence) :
  1 ≤ num_threads (trainer_spec_ t) → sentences ≠ [] →
  let f := λ s, GlobalReplace X (meta_pieces_set (meta_pieces_ t))
                  (Normalize X (normalizer_spec_ t) s) kUPPBoundaryStr in
  let normalized := on_text f <$> sentences in
  (Forall (λ w, contains w.1 " " = false) normalized →
     is_ok (normalize_sentences X t sentences) = true) ∧
  (∀ e, normalize_sentences X t sentences = Err e →
     e = SpaceInNormalized ∧ ∃ w, w ∈ normalized ∧ contains w.1 " " = true) ∧
  (∀ r, normalize_sentences X t sentences = Ok r →
     ∃ dropped, normalized ≡ₚ r ++ dropped ∧
                Forall (λ w, w.1 = "") dropped ∧
                (Forall (λ w, w.1 ≠ "") normalized → r = normalized)).
Proof.
  intros HT Hne f normalized. unfold normalize_sentences.
  rewrite bool_decide_false by done. cbn [negb CHECK_OR_RETURN bind].
  assert (∀ g, normalize_all g (num_threads (trainer_spec_ t)) sentences
               = on_text g <$> sentences) as Hmap.
  { intros g. apply list_eq. intros j. rewrite normalize_all_lookup by done.
    by rewrite list_lookup_fmap. }
  rewrite Hmap.
  change (check_and_remove_empty _ 0 _)
    with (check_and_remove_empty (length normalized) 0 normalized).
  pose proof (check_and_remove_empty_spec (length normalized) 0 normalized)
    as Hspec.
  split; [apply check_and_remove_empty_no_space|].
  destruct (check_and_remove_empty (length normalized) 0 normalized) as [r|e].
  - split; [done|]. by intros r' [= <-].
  - split; [|done]. by intros e' [= <-].
Qed.

Lemma normalize_sentences_keeps_nonempty_witness :
  let X := run_env [] without_dashes in
  let t := new_TrainerInterface default_spec {| name := "identity" |} in
  let sentences : list Sentence := [("a-b", 1); ("-", 2); ("c", 3)] in
  1 ≤ num_threads (trainer_spec_ t) ∧ sentences ≠ [] ∧
  let f := λ s, GlobalReplace X (meta_pieces_set (meta_pieces_ t))
                  (Normalize X (normalizer_spec_ t) s) kUPPBoundaryStr in
  let normalized := on_text f <$> sentences in
  (Forall (λ w, contains w.1 " " = false) normalized →
     is_ok (normalize_sentences X t sentences) = true) ∧
  (∀ e, normalize_sentences X t sentences = Err e →
     e = SpaceInNormalized ∧ ∃ w, w ∈ normalized ∧ contains w.1 " " = true) ∧
  (∀ r, normalize_sentences X t sentences = Ok r →
     ∃ dropped, normalized ≡ₚ r ++ dropped ∧
                Forall (λ w, w.1 = "") dropped ∧
                (Forall (λ w, w.1 ≠ "") normalized → r = normalized)).
Proof.
  intros X t sentences.
  assert (1 ≤ num_threads (trainer_spec_ t)) as H1 by (by vm_compute).
  assert (sentences ≠ []) as H2 by done.
  split; [exact H1|]. split; [exact H2|].
  exact (normalize_sentences_keeps_nonempty X t sentences H1 H2).
Defined.

(** ** Reading the corpus: which lines are loaded *)

(** The lines that pass lines 282-300: not empty, not longer than the
    limit, without the unknown-character marker. *)
Definition kept (spec : TrainerSpec) (s : string) : bool :=
  negb (empty s)
  && negb (max_sentence_length spec <? to_int (Z.of_nat (String.length s)))
  && negb (contains s kUNKStr).

(** The lines of the files, in the order they are read. *)
Fixpoint corpus_lines (X : Externals) (filenames : list string)
    : list string :=
  match filenames with
  | [] => []
  | f :: fs => default [] (NewReadableFile X f) ++ corpus_lines X fs
  end.

Definition kept_sentences (spec : TrainerSpec) (lines : list string)
    : list Sentence :=
  (λ l, (l, 1)) <$> filter (λ l, kept spec l = true) lines.

Lemma kept_sentences_app (spec : TrainerSpec) (l1 l2 : list string) :
  kept_sentences spec (l1 ++ l2)
  = kept_sentences spec l1 ++ kept_sentences spec l2.
Proof. unfold kept_sentences. by rewrite filter_app, fmap_app. Qed.

Lemma kept_sentences_cons (spec : TrainerSpec) (l : string)
    (ls : list string) :
  kept_sentences spec (l :: ls)
  = (if kept spec l then [(l, 1)] else []) ++ kept_sentences spec ls.
Proof.
  unfold kept_sentences. destruct (kept spec l) eqn:Hk.
  - by rewrite filter_cons_True.
  - rewrite filter_cons_False; [done|]. by rewrite Hk.
Qed.

(** A round of the [while] loop on a plain text line: a line that is not
    kept changes nothing in [sentences_]; a kept line goes to the
    selector. *)
Lemma load_line_text (X : Externals) (spec : TrainerSpec) (line : string)
    (st : load_state X) :
  if kept spec line then
    ∃ tsmp tests,
      load_line X spec false line st
      = (r ← selector_Add X spec (line, 1) (selector st, loaded st);
         let st' := {| selector := r.2.1; loaded := r.2.2;
                       test_sentence_sampler := tsmp; test_samples := tests;
                       too_long_lines := too_long_lines st |} in
         Ok (if r.1 then Next st' else GotoEnd st'))
  else
    ∃ st', load_line X spec false line st = Ok (Next st') ∧
           loaded st' = loaded st ∧ selector st' = selector st.
Proof.
  unfold kept, load_line. cbn [read_candidate bind].
  destruct (empty line); cbn [negb andb]; [by exists st|].
  destruct (max_sentence_length spec <? _); cbn [negb andb]; [by eexists|].
  destruct (contains line kUNKStr); cbn [negb]; [by exists st|].
  destruct (sampler_Add (test_sampler X) line _) as [tsmp tests].
  exists tsmp, tests.
  destruct (selector_Add X spec (line, 1) _) as [[more [sel sentences]]|e];
    done.
Qed.

Lemma load_lines_all (X : Externals) (spec : TrainerSpec)
    (lines : list string) (st : load_state X) :
  input_sentence_size spec ≤ 0 →
  ∃ st', load_lines X spec false lines st = Ok (Next st') ∧
         loaded st' = loaded st ++ kept_sentences spec lines.
Proof.
  intros Hsize. revert st. induction lines as [|line lines IH]; intros st.
  - exists st. split; [done|]. unfold kept_sentences. simpl.
    by rewrite app_nil_r.
  - cbn [load_lines]. rewrite kept_sentences_cons.
    pose proof (load_line_text X spec line st) as Hline.
    destruct (kept spec line).
    + destruct Hline as (tsmp & tests & ->).
      unfold selector_Add. rewrite (proj2 (Z.leb_le _ _) Hsize).
      cbn [bind fst snd].
      destruct (IH {| selector := selector st;
                      loaded := loaded st ++ [(line, 1)];
                      test_sentence_sampler := tsmp; test_samples := tests;
                      too_long_lines := too_long_lines st |})
        as (st' & Hrun & Hst').
      exists st'. split; [exact Hrun|]. rewrite Hst'. simpl.
      by rewrite <- app_assoc.
    + destruct Hline as (st1 & -> & Hl & _). cbn [bind].
      destruct (IH st1) as (st' & -> & Hst').
      exists st'. split; [done|]. by rewrite Hst', Hl.
Qed.

(** X3.  Without a sentence limit ([input_sentence_size <= 0]) and with
    readable files, the loops of lines 266-308 load, in the order of the
    files and of their lines and each with frequency 1, exactly the lines
    of the plain text corpus that are not empty, not longer than the
    limit and without the unknown-character marker. *)
Theorem load_files_loads_kept_lines (X : Externals) (spec : TrainerSpec)
    (filenames : list string) (st : load_state X) :
  input_sentence_size spec ≤ 0 →
  (∀ f, f ∈ filenames → is_Some (NewReadableFile X f)) →
  ∃ st', load_files X spec false filenames st = Ok (Next st') ∧
         loaded st'
         = loaded st ++ kept_sentences spec (corpus_lines X filenames).
Proof.
  intros Hsize. revert st.
  induction filenames as [|f fs IH]; intros st Hread.
  - exists st. split; [done|]. by rewrite app_nil_r.
  - cbn [load_files corpus_lines].
    destruct (Hread f) as [lines Hf]; [apply list_elem_of_here|].
    rewrite Hf. cbn [CHECK_SOME bind default].
    destruct (load_lines_all X spec lines st Hsize) as (st1 & -> & Hst1).
    cbn [bind].
    destruct (IH st1) as (st' & -> & Hst').
    { intros f' Hf'. apply Hread. by apply list_elem_of_further. }
    exists st'. split; [done|].
    by rewrite Hst', Hst1, kept_sentences_app, app_assoc.
Qed.

Lemma load_files_loads_kept_lines_witness :
  let X := run_env [("a.txt", ["one"; ""; "two"]);
                    ("b.txt", [kUNKStr +:+ "x"; "three"])] id in
  let st := new_load_state X
              (new_TrainerInterface default_spec {| name := "identity" |}) in
  input_sentence_size default_spec ≤ 0 ∧
  (∀ f, f ∈ ["a.txt"; "b.txt"] → is_Some (NewReadableFile X f)) ∧
  ∃ st', load_files X default_spec false ["a.txt"; "b.txt"] st
         = Ok (Next st') ∧
         loaded st'
         = loaded st
           ++ kept_sentences default_spec (corpus_lines X ["a.txt"; "b.txt"]).
Proof.
  intros X st.
  assert (input_sentence_size default_spec ≤ 0) as H1 by done.
  assert (∀ f, f ∈ ["a.txt"; "b.txt"] → is_Some (NewReadableFile X f)) as H2.
  { intros f Hf. apply elem_of_cons in Hf as [->|Hf].
    - exists ["one"; ""; "two"]. reflexivity.
    - apply list_elem_of_singleton in Hf as ->.
      exists [kUNKStr +:+ "x"; "three"]. reflexivity. }
  split; [exact H1|]. split; [exact H2|].
  exact (load_files_loads_kept_lines X default_spec _ st H1 H2).
Defined.

Example corpus_of_two_files :
  kept_sentences default_spec
    (corpus_lines (run_env [("a.txt", ["one"; ""; "two"]);
                            ("b.txt", [kUNKStr +:+ "x"; "three"])] id)
       ["a.txt"; "b.txt"])
  = [("one", 1); ("two", 1); ("three", 1)].
Proof. vm_compute. reflexivity. Qed.


Lemma load_lines_head (X : Externals) (spec : TrainerSpec)
    (lines : list string) (st : load_state X) :
  0 < input_sentence_size spec → shuffle_input_sentence spec = false →
  Z.of_nat (length (loaded st)) < input_sentence_size spec →
  let all := loaded st ++ kept_sentences spec lines in
  if decide (Z.of_nat (length all) < input_sentence_size spec) then
    ∃ st', load_lines X spec false lines st = Ok (Next st') ∧
           loaded st' = all
  else
    ∃ st', load_lines X spec false lines st = Ok (GotoEnd st') ∧
           loaded st' = take (Z.to_nat (input_sentence_size spec)) all.
Proof.
  intros HN Hsh. revert st. induction lines as [|line lines IH];
    intros st Hlen; cbn zeta.
  - unfold kept_sentences. cbn. rewrite app_nil_r.
    rewrite decide_True by done. by exists st.
  - cbn [load_lines]. rewrite kept_sentences_cons.
    pose proof (load_line_text X spec line st) as Hline.
    destruct (kept spec line).
    + destruct Hline as (tsmp & tests & ->).
      unfold selector_Add. rewrite (proj2 (Z.leb_gt _ _) HN), Hsh.
      unfold Sentence in *.
      match goal with
      | |- context [?a <=? ?b] => destruct (Z.leb_spec a b) as [Hfull|Hroom]
      end;
        rewrite length_app in Hfull || rewrite length_app in Hroom;
        cbn [length] in *; cbn [bind fst snd].
      * rewrite decide_False
          by (rewrite !length_app; cbn [length]; lia).
        eexists. split; [reflexivity|]. cbn [loaded].
        rewrite app_assoc. rewrite take_app_le
          by (rewrite length_app; cbn [length]; lia).
        rewrite take_ge; [done|]. rewrite length_app. cbn [length]. lia.
      * specialize (IH {| selector := selector st;
                          loaded := loaded st ++ [(line, 1)];
                          test_sentence_sampler := tsmp;
                          test_samples := tests;
                          too_long_lines := too_long_lines st |}).
        assert (Z.of_nat (length (loaded st ++ [(line, 1)]))
                < input_sentence_size spec) as Hlen'
          by (rewrite length_app; cbn [length]; unfold Sentence in *; lia).
        specialize (IH Hlen'). cbn [loaded] in IH. cbn zeta in IH.
        rewrite <- !app_assoc in IH. cbn [app] in IH. cbn [app].
        exact IH.
    + destruct Hline as (st1 & -> & Hl & _). cbn [bind app].
      specialize (IH st1). rewrite Hl in IH. by apply IH.
Qed.

Lemma load_files_head (X : Externals) (spec : TrainerSpec)
    (filenames rest : list string) (st : load_state X) :
  0 < input_sentence_size spec → shuffle_input_sentence spec = false →
  Z.of_nat (length (loaded st)) < input_sentence_size spec →
  (∀ f, f ∈ filenames → is_Some (NewReadableFile X f)) →
  let all := loaded st ++ kept_sentences spec (corpus_lines X filenames) in
  (Z.of_nat (length all) < input_sentence_size spec →
     ∃ st', load_files X spec false filenames st = Ok (Next st') ∧
            loaded st' = all) ∧
  (input_sentence_size spec ≤ Z.of_nat (length all) →
     ∃ st', load_files X spec false (filenames ++ rest) st
            = Ok (GotoEnd st') ∧
            loaded st' = take (Z.to_nat (input_sentence_size spec)) all).
Proof.
  intros HN Hsh. revert st.
  induction filenames as [|f fs IH]; intros st Hlen Hread; cbn zeta.
  - cbn [corpus_lines]. unfold kept_sentences. cbn. rewrite app_nil_r.
    split; [by exists st|]. intros ?. lia.
  - destruct (Hread f) as [lines Hf]; [apply list_elem_of_here|].
    cbn [load_files corpus_lines app]. rewrite Hf.
    cbn [default CHECK_SOME bind]. unfold id.
    rewrite kept_sentences_app, app_assoc.
    pose proof (load_lines_head X spec lines st HN Hsh Hlen) as Hlines.
    cbn zeta in Hlines.
    destruct (decide (Z.of_nat (length (loaded st ++ kept_sentences spec lines))
                      < input_sentence_size spec)) as [Hroom|Hfull].
    + destruct Hlines as (st1 & -> & Hst1). cbn [bind].
      specialize (IH st1). rewrite Hst1 in IH.
      apply IH; [done|].
      intros f' Hf'. apply Hread. by apply list_elem_of_further.
    + destruct Hlines as (st1 & -> & Hst1). cbn [bind]. split.
      * intros Hall. rewrite length_app in Hall.
        unfold Sentence in *. lia.
      * intros _. exists st1. split; [done|].
        rewrite Hst1.
        rewrite (take_app_le (loaded st ++ kept_sentences spec lines))
          by (unfold Sentence in *; lia).
        done.
Qed.

(** X4.  With a sentence limit [N > 0] and no shuffling, on plain text
    and from an empty [sentences_]: when the readable files [filenames]
    hold at least [N] lines that are kept, exactly the first [N] of them
    are loaded and reading stops there, so that the files after them
    ([rest]) are not opened, readable or not; when the files hold fewer
    than [N] such lines, all of them are loaded. *)
Theorem load_files_first_N (X : Externals) (spec : TrainerSpec)
    (filenames rest : list string) (st : load_state X) :
  0 < input_sentence_size spec → shuffle_input_sentence spec = false →
  loaded st = [] →
  (∀ f, f ∈ filenames → is_Some (NewReadableFile X f)) →
  let all := kept_sentences spec (corpus_lines X filenames) in
  (Z.of_nat (length all) < input_sentence_size spec →
     ∃ st', load_files X spec false filenames st = Ok (Next st') ∧
            loaded st' = all) ∧
  (input_sentence_size spec ≤ Z.of_nat (length all) →
     ∃ st', load_files X spec false (filenames ++ rest) st
            = Ok (GotoEnd st') ∧
            loaded st' = take (Z.to_nat (input_sentence_size spec)) all).
Proof.
  intros HN Hsh Hempty Hread.
  pose proof (load_files_head X spec filenames rest st HN Hsh) as H.
  rewrite Hempty in H. cbn [length app] in H.
  apply H; [lia|done].
Qed.

(** A limit of two sentences, taken from the head of the corpus, to run
    the loops on ([VerifySpec] asks for a limit above 100). *)
Definition first_two_spec : TrainerSpec :=
  {| model_prefix := "m"; input := ["a.txt"; "missing.txt"];
     input_format := "";
     vocab_size := 8000; model_type := UNIGRAM; use_all_vocab := false;
     hard_vocab_limit := true; character_coverage := default_character_coverage;
     max_sentencepiece_length := 16; num_sub_iterations := 2;
     num_threads := 16; self_test_sample_size := 0;
     shrinking_factor := 75 # 100; max_sentence_length := 4192;
     input_sentence_size := 2; shuffle_input_sentence := false;
     unk_piece := "<unk>"; bos_piece := "<s>"; eos_piece := "</s>";
     pad_piece := "<pad>"; unk_id := 0; bos_id := 1; eos_id := 2;
     pad_id := -1; control_symbols := []; user_defined_symbols := [];
     treat_whitespace_as_suffix := false; split_by_whitespace := true;
     split_by_number := true; split_by_unicode_script := true |}.

Lemma load_files_first_N_witness :
  let X := run_env [("a.txt", ["one"; ""; "two"; "three"])] id in
  let st := new_load_state X
              (new_TrainerInterface first_two_spec {| name := "identity" |}) in
  0 < input_sentence_size first_two_spec ∧
  shuffle_input_sentence first_two_spec = false ∧
  loaded st = [] ∧
  (∀ f, f ∈ ["a.txt"] → is_Some (NewReadableFile X f)) ∧
  input_sentence_size first_two_spec
  ≤ Z.of_nat (length (kept_sentences first_two_spec
                        (corpus_lines X ["a.txt"]))) ∧
  NewReadableFile X "missing.txt" = None ∧
  ∃ st', load_files X first_two_spec false (["a.txt"] ++ ["missing.txt"]) st
         = Ok (GotoEnd st') ∧
         loaded st'
         = take (Z.to_nat (input_sentence_size first_two_spec))
             (kept_sentences first_two_spec (corpus_lines X ["a.txt"])).
Proof.
  intros X st.
  assert (0 < input_sentence_size first_two_spec) as H1 by done.
  assert (shuffle_input_sentence first_two_spec = false) as H2 by done.
  assert (loaded st = []) as H3 by reflexivity.
  assert (∀ f, f ∈ ["a.txt"] → is_Some (NewReadableFile X f)) as H4.
  { intros f Hf. apply list_elem_of_singleton in Hf as ->.
    exists ["one"; ""; "two"; "three"]. reflexivity. }
  assert (input_sentence_size first_two_spec
          ≤ Z.of_nat (length (kept_sentences first_two_spec
                                (corpus_lines X ["a.txt"])))) as H5
    by (by vm_compute).
  repeat (split; [assumption|]). split; [reflexivity|].
  exact (proj2 (load_files_first_N X first_two_spec ["a.txt"] ["missing.txt"]
                  st H1 H2 H3 H4) H5).
Defined.


(** X5.  [LoadSentences] fails as soon as it comes to a file that cannot
    be read, whatever was loaded from the files before it ([fpre] are
    the files read before, without a jump to [END]). *)
Theorem LoadSentences_unreadable_file (X : Externals) (t : TrainerInterface)
    (fpre fpost : list string) (filename : string) (st1 : load_state X) :
  status_ t = Ok () → sentences_ t = [] → required_chars_ t = ∅ →
  input_format (trainer_spec_ t) ∈ [""; "text"; "tsv"] →
  input (trainer_spec_ t) = fpre ++ filename :: fpost →
  load_files X (trainer_spec_ t)
    (String.eqb (input_format (trainer_spec_ t)) "tsv") fpre
    (new_load_state X t) = Ok (Next st1) →
  NewReadableFile X filename = None →
  LoadSentences X t = Err FileNotReadable.
Proof.
  intros Hst Hsen Hreq Hfmt Hin Hfpre Hfile. unfold LoadSentences.
  rewrite Hst, Hsen, Hreq. cbn [bind].
  rewrite !bool_decide_true by done. cbn [CHECK_OR_RETURN bind].
  assert (empty (input_format (trainer_spec_ t))
          || String.eqb (input_format (trainer_spec_ t)) "text"
          || String.eqb (input_format (trainer_spec_ t)) "tsv" = true) as ->.
  { repeat (apply elem_of_cons in Hfmt as [->|Hfmt]; [done|]).
    by apply elem_of_nil in Hfmt. }
  cbn [CHECK_OR_RETURN bind].
  rewrite Hin, load_files_app, Hfpre. cbn [bind load_files].
  by rewrite Hfile.
Qed.

(** The default configuration with a second input file. *)
Definition two_files_spec : TrainerSpec :=
  {| model_prefix := "m"; input := ["a.txt"; "missing.txt"];
     input_format := "";
     vocab_size := 8000; model_type := UNIGRAM; use_all_vocab := false;
     hard_vocab_limit := true; character_coverage := default_character_coverage;
     max_sentencepiece_length := 16; num_sub_iterations := 2;
     num_threads := 16; self_test_sample_size := 0;
     shrinking_factor := 75 # 100; max_sentence_length := 4192;
     input_sentence_size := 0; shuffle_input_sentence := true;
     unk_piece := "<unk>"; bos_piece := "<s>"; eos_piece := "</s>";
     pad_piece := "<pad>"; unk_id := 0; bos_id := 1; eos_id := 2;
     pad_id := -1; control_symbols := []; user_defined_symbols := [];
     treat_whitespace_as_suffix := false; split_by_whitespace := true;
     split_by_number := true; split_by_unicode_script := true |}.

Lemma LoadSentences_unreadable_file_witness :
  let X := run_env [("a.txt", ["one"; "two"])] id in
  let t := new_TrainerInterface two_files_spec {| name := "identity" |} in
  let st1 : load_state X :=
    {| selector := None; loaded := [("one", 1); ("two", 1)];
       test_sentence_sampler := (0 : sampler (test_sampler X));
       test_samples := []; too_long_lines := 0 |} in
  status_ t = Ok () ∧ sentences_ t = [] ∧ required_chars_ t = ∅ ∧
  input_format (trainer_spec_ t) ∈ [""; "text"; "tsv"] ∧
  input (trainer_spec_ t) = ["a.txt"] ++ "missing.txt" :: [] ∧
  load_files X (trainer_spec_ t)
    (String.eqb (input_format (trainer_spec_ t)) "tsv") ["a.txt"]
    (new_load_state X t) = Ok (Next st1) ∧
  NewReadableFile X "missing.txt" = None ∧
  LoadSentences X t = Err FileNotReadable.
Proof.
  intros X t st1.
  assert (status_ t = Ok ()) as H1 by (vm_compute; reflexivity).
  assert (sentences_ t = []) as H2 by reflexivity.
  assert (required_chars_ t = ∅) as H3 by reflexivity.
  assert (input_format (trainer_spec_ t) ∈ [""; "text"; "tsv"]) as H4
    by apply list_elem_of_here.
  assert (input (trainer_spec_ t) = ["a.txt"] ++ "missing.txt" :: []) as H5
    by reflexivity.
  assert (load_files X (trainer_spec_ t)
            (String.eqb (input_format (trainer_spec_ t)) "tsv") ["a.txt"]
            (new_load_state X t) = Ok (Next st1)) as H6 by reflexivity.
  assert (NewReadableFile X "missing.txt" = None) as H7 by reflexivity.
  repeat (split; [assumption|]).
  exact (LoadSentences_unreadable_file X t ["a.txt"] [] "missing.txt" st1
           H1 H2 H3 H4 H5 H6 H7).
Defined.


(** ** What [LoadSentences] leaves in the trainer *)

Lemma count_char_keys (X : Externals) (w : Sentence) (c : Z)
    (st st' : Z * gmap Z Z) :
  (∀ k, is_Some (st.2 !! k) → is_counted X k = true) →
  count_char X w c st = Ok st' →
  ∀ k, is_Some (st'.2 !! k) → is_counted X k = true.
Proof.
  intros Hst. unfold count_char.
  destruct (IsValidCodepoint X c) eqn:Hv; cbn [negb]; [|by intros [= <-]].
  destruct (Z.eqb_spec c 0) as [|H0]; [by intros [= <-]|].
  destruct (Z.eqb_spec c 32) as [|H32].
  { destruct (negb (contains w.1 " ")); cbn; [by intros [= <-]|done]. }
  intros [= <-] k. cbn [snd]. unfold add_count.
  rewrite lookup_insert_is_Some. intros [<-|[_ Hk]]; [|by apply Hst].
  unfold is_counted. rewrite Hv.
  by rewrite (proj2 (Z.eqb_neq _ _) H0), (proj2 (Z.eqb_neq _ _) H32).
Qed.

(** Whenever the counting loop succeeds, it has counted only valid
    codepoints other than NUL and the space. *)
Lemma count_chars_keys (X : Externals) (sentences : list Sentence)
    (all : Z) (cc : gmap Z Z) :
  count_chars X sentences = Ok (all, cc) →
  ∀ k, is_Some (cc !! k) → is_counted X k = true.
Proof.
  unfold count_chars. intros H.
  set (P := λ st : Z * gmap Z Z,
              ∀ k, is_Some (st.2 !! k) → is_counted X k = true).
  refine (for_each_inv _ P sentences (0, ∅) (all, cc) _ _ H).
  - intros w st st' Hst Hw.
    refine (for_each_inv _ P _ st st' _ Hst Hw).
    intros c s s' Hs Hc. exact (count_char_keys X w c s s' Hs Hc).
  - intros k. cbn [snd]. rewrite lookup_empty. by intros [? ?].
Qed.

(** X6.  When [LoadSentences] returns OK: the specs, the meta pieces and
    the final pieces are as before; every required character is a valid
    codepoint and is none of NUL, the space, the tab and the unknown
    character; and for the model types other than WORD and CHAR the
    required characters and the meta pieces together are at most
    [vocab_size] (the sum is compared as an [int]). *)
Theorem LoadSentences_postconditions (X : Externals)
    (t t' : TrainerInterface) :
  LoadSentences X t = Ok t' →
  trainer_spec_ t' = trainer_spec_ t ∧
  normalizer_spec_ t' = normalizer_spec_ t ∧
  meta_pieces_ t' = meta_pieces_ t ∧
  final_pieces_ t' = final_pieces_ t ∧
  (∀ c n, required_chars_ t' !! c = Some n →
     IsValidCodepoint X c = true ∧ c ≠ 0x0000 ∧ c ≠ 0x0020 ∧
     c ≠ kUPPBoundaryChar ∧ c ≠ kUNKChar) ∧
  (model_type (trainer_spec_ t) ≠ WORD → model_type (trainer_spec_ t) ≠ CHAR →
     to_int (Z.of_nat (size (required_chars_ t') + size (meta_pieces_ t)))
     ≤ vocab_size (trainer_spec_ t)).
Proof.
  intros H.
  destruct (LoadSentences_required_chars X t t' H)
    as (r & sentences & all & cc & acc & _ & _ & Hcc & Hloop & Hunk).
  pose proof (count_chars_keys X sentences all cc Hcc) as Hkeys.
  destruct (util_Sorted_spec cc) as (Hperm & Hnd & _).
  assert (∀ p, p ∈ util_Sorted cc → is_counted X p.1 = true) as Hsorted.
  { intros [c n] Hp. rewrite Hperm in Hp. apply elem_of_map_to_list in Hp.
    apply Hkeys. eauto. }
  destruct (required_chars_loop_spec (trainer_spec_ t) all (util_Sorted cc)
              0 ∅) as (acc' & req' & Hloop' & Hreq).
  { intros p Hp%Hsorted. unfold is_counted in Hp. intros Heq.
    rewrite Heq, andb_false_r in Hp. done. }
  { done. }
  { intros p _. apply lookup_empty. }
  rewrite Hloop in Hloop'. injection Hloop' as <- <-.
  unfold LoadSentences in H.
  apply seq_Ok in H as [_ H]. apply seq_Ok in H as [_ H].
  apply seq_Ok in H as [_ H]. apply seq_Ok in H as [_ H].
  apply bind_Ok in H as (r' & _ & H).
  apply bind_Ok in H as (sentences' & _ & H).
  apply bind_Ok in H as ([all' cc'] & _ & H).
  apply bind_Ok in H as ([acc'' req''] & _ & H).
  apply seq_Ok in H as [_ H]. apply seq_Ok in H as [Hvocab [= <-]].
  cbn. split; [done|]. split; [done|]. split; [done|]. split; [done|].
  split.
  - intros c n Hc.
    assert (c ≠ kUNKChar) as Hnu by (intros ->; cbn in Hunk; congruence).
    apply Hreq in Hc as [Hc|(Htab & k & Hk & _)];
      [by rewrite lookup_empty in Hc|].
    apply list_elem_of_lookup_2, Hsorted in Hk. unfold is_counted in Hk.
    cbn in Hk. apply andb_true_iff in Hk as [Hk H32].
    apply andb_true_iff in Hk as [Hv H0].
    apply negb_true_iff, Z.eqb_neq in H0, H32. done.
  - intros Hw Hc. rewrite !bool_decide_false in Hvocab by done.
    cbn in Hvocab. apply CHECK_Ok, Z.leb_le in Hvocab. exact Hvocab.
Qed.

Lemma LoadSentences_postconditions_witness :
  ∃ t',
    LoadSentences (run_env [("corpus.txt", ["ab"; "b"])] id)
      (new_TrainerInterface default_spec {| name := "identity" |}) = Ok t' ∧
    sentences_ t' = [("ab", 1); ("b", 1)] ∧
    required_chars_ t' = {[ 97 := 1; 98 := 2 ]} ∧
    (∀ c n, required_chars_ t' !! c = Some n →
       IsValidCodepoint (run_env [("corpus.txt", ["ab"; "b"])] id) c = true ∧
       c ≠ 0x0000 ∧ c ≠ 0x0020 ∧ c ≠ kUPPBoundaryChar ∧ c ≠ kUNKChar).
Proof.
  eexists. split; [vm_compute; reflexivity|].
  split; [reflexivity|]. split; [vm_compute; reflexivity|].
  refine (proj1 (proj2 (proj2 (proj2 (proj2
    (LoadSentences_postconditions
       (run_env [("corpus.txt", ["ab"; "b"])] id)
       (new_TrainerInterface default_spec {| name := "identity" |}) _ _)))))).
  vm_compute. reflexivity.
Defined.


(** ** The layout of the serialized model *)

Lemma for_each_seqZ_inv {St : Type} (body : Z → St → result St)
    (P : Z → St → Prop) (k : nat) (m : Z) (s s' : St) :
  (∀ n s s', m ≤ n < m + Z.of_nat k → P n s → body n s = Ok s' →
             P (n + 1) s') →
  P m s → for_each body (seqZ m (Z.of_nat k)) s = Ok s' →
  P (m + Z.of_nat k) s'.
Proof.
  revert m s. induction k as [|k IH]; intros m s Hbody Hs.
  - cbn. intros [= <-]. by rewrite Z.add_0_r.
  - rewrite seqZ_cons by lia. cbn [for_each].
    destruct (body m s) as [s1|e] eqn:Hs1; cbn [bind]; [|done].
    replace (Z.pred (Z.of_nat (S k))) with (Z.of_nat k) by lia.
    intros Hrest.
    replace (m + Z.of_nat (S k)) with (Z.succ m + Z.of_nat k) by lia.
    apply (IH (Z.succ m) s1); [|by apply (Hbody m s s1); [lia|..]|done].
    intros n s2 s3 Hn. apply Hbody. lia.
Qed.

(** The learned pieces among the pieces of a model. *)
Definition learned (l : list SentencePiece) : list (string * Q) :=
  (λ sp, (piece sp, score sp)) <$> filter (λ sp, type sp = NORMAL) l.

(** What holds after the ids below [n]. *)
Record layout_inv (t : TrainerInterface) (n : Z) (st : serialize_state)
    : Prop := {
  lay_length : Z.of_nat (length (out_pieces st)) ≤ n;
  lay_learned : learned (out_pieces st) = take (fid st) (final_pieces_ t);
  lay_fid : (fid st ≤ length (final_pieces_ t))%nat;
  lay_meta : ∀ i w ty, 0 ≤ i < n → meta_pieces_ t !! i = Some (w, ty) →
               out_pieces st !! Z.to_nat i
               = Some {| piece := w; score := 0; type := ty |};
  lay_other : ∀ k sp, out_pieces st !! k = Some sp → type sp ≠ NORMAL →
                meta_pieces_ t !! Z.of_nat k = Some (piece sp, type sp) ∧
                score sp = 0%Q;
}.

Lemma learned_snoc (l : list SentencePiece) (sp : SentencePiece) :
  learned (l ++ [sp])
  = learned l ++ (if decide (type sp = NORMAL)
                  then [(piece sp, score sp)] else []).
Proof.
  unfold learned. rewrite filter_app, fmap_app. f_equal.
  destruct (decide (type sp = NORMAL)).
  - by rewrite filter_cons_True.
  - by rewrite filter_cons_False.
Qed.

Lemma serialize_step_layout (X : Externals) (t : TrainerInterface) (n : Z)
    (st st' : serialize_state) :
  0 ≤ n → layout_inv t n st → serialize_step X t n st = Ok st' →
  layout_inv t (n + 1) st'.
Proof.
  intros Hn [Hlen Hlearned Hfid Hmeta Hother]. unfold serialize_step.
  destruct (meta_pieces_ t !! n) as [[w ty]|] eqn:Hmn.
  - rewrite !seq_Ok, !CHECK_Ok. intros (Hpos%Z.eqb_eq & Hty & Hst).
    apply bind_Ok in Hst as (dup' & _ & [= <-]).
    rewrite length_app in Hpos. cbn in Hpos, Hty.
    apply negb_true_iff, bool_decide_eq_false in Hty.
    assert (length (out_pieces st) = Z.to_nat n) as Hl by lia.
    split; cbn [out_pieces fid seen].
    + rewrite length_app. cbn. lia.
    + rewrite learned_snoc. cbn. rewrite decide_False by congruence.
      by rewrite app_nil_r.
    + done.
    + intros i w' ty' Hi Hmi. destruct (decide (i = n)) as [->|Hne].
      * rewrite Hmn in Hmi. injection Hmi as <- <-.
        rewrite <- Hl. by rewrite list_lookup_middle.
      * rewrite lookup_app_l; [apply Hmeta; [lia|done]|].
        apply lookup_lt_is_Some. rewrite (Hmeta i w' ty'); [eauto|lia|done].
    + intros k sp Hk Hsp.
      apply lookup_app_Some in Hk as [Hk|[Hge Hk]]; [by apply Hother|].
      apply list_lookup_singleton_Some in Hk as [Hk0 <-]. cbn.
      assert (Z.of_nat k = n) as -> by lia. done.
  - destruct (final_pieces_ t !! fid st) as [p|] eqn:Hp.
    + intros Hst. apply bind_Ok in Hst as (dup' & _ & [= <-]).
      split; cbn [out_pieces fid seen].
      * rewrite length_app. cbn. lia.
      * rewrite learned_snoc. cbn. rewrite decide_True by done.
        rewrite Hlearned. destruct p as [pw ps]. cbn.
        by rewrite (take_S_r _ _ _ Hp).
      * apply lookup_lt_Some in Hp. lia.
      * intros i w' ty' Hi Hmi.
        assert (i ≠ n) by (intros ->; congruence).
        rewrite lookup_app_l; [apply Hmeta; [lia|done]|].
        apply lookup_lt_is_Some. rewrite (Hmeta i w' ty'); [eauto|lia|done].
      * intros k sp Hk Hsp.
        apply lookup_app_Some in Hk as [Hk|[Hge Hk]]; [by apply Hother|].
        apply list_lookup_singleton_Some in Hk as [Hk0 <-]. done.
    + intros [= <-]. split; try done; [lia|].
      intros i w' ty' Hi Hmi.
      assert (i ≠ n) by (intros ->; congruence).
      apply Hmeta; [lia|done].
Qed.

(** X7.  The pieces of a model that [Serialize] returns, on a new
    [ModelProto]: the learned pieces are the final pieces, all of them
    and in their order, with their scores; every meta piece with an
    identifier from 0 up to [vocab_size] is the piece at that index, with
    score 0 and its category; and every piece that is not a learned one
    is the meta piece of its index, so that a meta piece with an
    identifier outside this range is not in the model. *)
Theorem Serialize_layout (X : Externals) (t : TrainerInterface)
    (mp : ModelProto) :
  Serialize X t new_ModelProto = Ok mp →
  learned (pieces mp) = final_pieces_ t ∧
  (∀ i w ty, 0 ≤ i < vocab_size (trainer_spec_ t) →
     meta_pieces_ t !! i = Some (w, ty) →
     pieces mp !! Z.to_nat i = Some {| piece := w; score := 0; type := ty |}) ∧
  (∀ k sp, pieces mp !! k = Some sp → type sp ≠ NORMAL →
     meta_pieces_ t !! Z.of_nat k = Some (piece sp, type sp) ∧
     score sp = 0%Q ∧ Z.of_nat k < vocab_size (trainer_spec_ t)).
Proof.
  intros (st & Hst & Hfid & -> & _)%Serialize_Ok. cbn in Hst.
  destruct (Z.le_gt_cases 0 (vocab_size (trainer_spec_ t))) as [Hv|Hv].
  - rewrite <- (Z2Nat.id (vocab_size (trainer_spec_ t))) in Hst by done.
    apply (for_each_seqZ_inv _ (layout_inv t)) in Hst.
    + rewrite Z.add_0_l, Z2Nat.id in Hst by done.
      destruct Hst as [Hlen Hlearned _ Hmeta Hother].
      split; [|split; [done|]].
      * rewrite Hlearned, Hfid. apply take_ge. lia.
      * intros k sp Hk Hsp. destruct (Hother k sp Hk Hsp) as [? ?].
        apply lookup_lt_Some in Hk. repeat split; try done. lia.
    + intros n s s' Hn. apply serialize_step_layout. lia.
    + split; cbn; [done|done|lia|intros i w ty ?; lia|done].
  - rewrite seqZ_nil in Hst by lia. cbn in Hst. injection Hst as <-.
    cbn in Hfid. cbn. split; [|split].
    + symmetry in Hfid. by apply nil_length_inv in Hfid as ->.
    + intros i w ty ?. lia.
    + intros k sp Hk. done.
Qed.

Lemma Serialize_layout_witness :
  ∃ mp,
    Serialize (run_env [] id)
      (with_final_pieces [("ab", -1 # 1); ("a", -2 # 1)]
         (new_TrainerInterface (set_vocab_size 7 spec_with_odd_symbols)
            {| name := "identity" |}))
      new_ModelProto = Ok mp ∧
    piece <$> pieces mp
    = ["<unk>"; "<s>"; "</s>"; "a b"; kUNKStr; "ab"; "a"] ∧
    learned (pieces mp) = [("ab", -1 # 1); ("a", -2 # 1)] ∧
    (∀ k sp, pieces mp !! k = Some sp → type sp ≠ NORMAL →
       meta_pieces_
         (new_TrainerInterface (set_vocab_size 7 spec_with_odd_symbols)
            {| name := "identity" |})
         !! Z.of_nat k = Some (piece sp, type sp) ∧
       score sp = 0%Q ∧ Z.of_nat k < 7).
Proof.
  eexists. split; [vm_compute; reflexivity|]. split; [reflexivity|].
  refine ((λ H, conj (proj1 H) (proj2 (proj2 H)))
            (Serialize_layout (run_env [] id)
               (with_final_pieces [("ab", -1 # 1); ("a", -2 # 1)]
                  (new_TrainerInterface
                     (set_vocab_size 7 spec_with_odd_symbols)
                     {| name := "identity" |})) _ _)).
  vm_compute. reflexivity.
Defined.


(** ** What [InitMetaPieces] registers *)

(** What holds, besides [symbols_inv], after the symbols [done_]. *)
Record registered_inv (ts : TrainerSpec) (done_ : list (string * PieceType))
    (st : symbol_state) : Prop := {
  reg_inv : symbols_inv ts (done_.*1) st;
  reg_distinct : NoDup (done_.*1);
  reg_not_unk : unk_piece ts ∉ done_.*1;
  reg_present : ∀ p, p ∈ done_ → ∃ k, registry st !! k = Some p;
  reg_keys : ∀ k, is_Some (registry st !! k) → 0 ≤ k;
}.

Lemma registered_inv_step (ts : TrainerSpec)
    (done_ : list (string * PieceType)) (st st' : symbol_state)
    (w : string) (ty : PieceType) :
  registered_inv ts done_ st → ty ≠ UNKNOWN →
  insert_meta_symbol ts w ty st = Some st' →
  registered_inv ts (done_ ++ [(w, ty)]) st'.
Proof.
  intros [Hinv Hnd Hunk Hpres Hkeys] Hty Hst.
  pose proof (symbols_inv_step ts _ st st' w ty Hinv Hty Hst) as Hinv'.
  destruct (insert_meta_symbol_spec ts (done_.*1) st w ty Hinv)
    as (Hrej & Halias & Halloc).
  destruct (decide (w ∈ done_.*1)) as [Hin|Hin];
    [rewrite Hrej in Hst by (by left); done|].
  destruct (decide (w = unk_piece ts)) as [Hu|Hu];
    [rewrite Hrej in Hst by (by right); done|].
  assert (NoDup ((done_ ++ [(w, ty)]).*1)) as Hnd'.
  { rewrite fmap_app. apply NoDup_app. split; [done|]. split.
    - intros x Hx. cbn. rewrite list_elem_of_singleton. by intros ->.
    - apply NoDup_singleton. }
  assert (unk_piece ts ∉ (done_ ++ [(w, ty)]).*1) as Hunk'.
  { rewrite fmap_app, elem_of_app. cbn. rewrite list_elem_of_singleton.
    intros [?|?]; [done|congruence]. }
  split; [by rewrite fmap_app|done|done|..].
  - destruct (decide (aliased ts w)) as [Hal|Hal].
    + destruct (Halias Hin Hu Hal) as (k & c & _ & Hc & Heq).
      rewrite Heq in Hst. injection Hst as <-. cbn.
      intros p [Hp|Hp%list_elem_of_singleton]%elem_of_app.
      * destruct (Hpres p Hp) as [k' Hk'].
        exists k'. rewrite lookup_insert_ne; [done|].
        intros ->. rewrite Hc in Hk'. injection Hk' as <-.
        apply Hin. by apply (list_elem_of_fmap_2 fst) in Hp.
      * subst p. exists k. by rewrite lookup_insert_eq.
    + destruct (Halloc Hin Hu Hal) as (k & _ & Hfree & _ & Heq).
      rewrite Heq in Hst. injection Hst as <-. cbn.
      intros p [Hp|Hp%list_elem_of_singleton]%elem_of_app.
      * destruct (Hpres p Hp) as [k' Hk'].
        exists k'. rewrite lookup_insert_ne; [done|]. congruence.
      * subst p. exists k. by rewrite lookup_insert_eq.
  - destruct (decide (aliased ts w)) as [Hal|Hal].
    + destruct (Halias Hin Hu Hal) as (k & c & _ & Hc & Heq).
      rewrite Heq in Hst. injection Hst as <-. cbn.
      intros k'. rewrite lookup_insert_is_Some.
      intros [<-|[_ ?]]; [apply Hkeys; eauto|by apply Hkeys].
    + destruct (Halloc Hin Hu Hal) as (k & Hk0 & _ & _ & Heq).
      rewrite Heq in Hst. injection Hst as <-. cbn.
      intros k'. rewrite lookup_insert_is_Some.
      intros [<-|[_ ?]]; [done|by apply Hkeys].
Qed.

Lemma registered_inv_run (ts : TrainerSpec) (l : list (string * PieceType))
    (done_ : list (string * PieceType)) (st st' : symbol_state) :
  registered_inv ts done_ st → Forall (λ p, p.2 ≠ UNKNOWN) l →
  insert_meta_symbols ts l st = Some st' →
  registered_inv ts (done_ ++ l) st'.
Proof.
  revert done_ st. induction l as [|[w ty] l IH]; intros done_ st Hinv Hl Hst.
  - cbn in Hst. injection Hst as <-. by rewrite app_nil_r.
  - apply Forall_cons in Hl as [Hp Hl]. cbn [insert_meta_symbols fst snd] in Hst.
    destruct (insert_meta_symbol ts w ty st) as [st1|] eqn:Hst1; [|done].
    rewrite cons_middle, app_assoc.
    eapply IH; [|done|done]. by eapply registered_inv_step.
Qed.

(** X8.  What [InitMetaPieces] accepts and registers.  When it returns
    OK: the configured control and user defined symbols are pairwise
    distinct and none is the unknown text; each of them is in the
    registry with its own category; each reserved symbol with a
    non-negative identifier is at that identifier, which is below
    [vocab_size]; and no identifier of the registry is negative. *)
Theorem InitMetaPieces_registers_symbols (ts : TrainerSpec)
    (m : gmap Z (string * PieceType)) :
  InitMetaPieces ts ∅ = Ok m →
  NoDup ((symbols ts).*1) ∧
  (unk_piece ts ∉ (symbols ts).*1) ∧
  (∀ p, p ∈ symbols ts → ∃ k, m !! k = Some p) ∧
  (∀ k w, (k, w) ∈ reserved ts → 0 ≤ k →
          k < vocab_size ts ∧ ∃ c, m !! k = Some (w, c)) ∧
  (∀ k, is_Some (m !! k) → 0 ≤ k).
Proof.
  intros (m0 & st & Hm0 & Hst & ->)%InitMetaPieces_Ok.
  pose proof (symbols_inv_init ts m0 Hm0) as Hinit.
  pose proof Hm0 as (Hv & Hnd & _ & Hm0eq)%insert_reserved_Ok_iff.
  assert (registered_inv ts [] {| next_id := 0; dup := ∅; registry := m0 |})
    as Hreg.
  { split; [done|constructor|by intros ?%elem_of_nil|
            by intros ? ?%elem_of_nil|].
    cbn. intros k [e He]. rewrite Hm0eq in He.
    apply add_all_lookup in He as [(w & Hw & _)|[_ He]]; [|done|done].
    by apply list_elem_of_filter in Hw as [? _]. }
  apply (registered_inv_run ts (symbols ts) [] _ st Hreg) in Hst;
    [|by apply (symbols_not_unknown ts)].
  destruct Hst as [Hinv Hnd' Hunk Hpres Hkeys]. cbn in *.
  split; [done|]. split; [done|]. split; [done|]. split; [|done].
  intros k w Hkw Hk.
  assert ((k, w) ∈ registered (reserved ts)) as Hr
    by (by apply list_elem_of_filter).
  split.
  - by apply (proj1 (Forall_forall _ _) Hv (k, w)).
  - by apply (inv_reserved _ _ _ Hinv).
Qed.

Lemma InitMetaPieces_registers_symbols_witness :
  let m : gmap Z (string * PieceType) :=
    {[ 0 := ("<unk>", UNKNOWN); 1 := ("<s>", CONTROL);
       2 := ("</s>", CONTROL); 3 := ("<mask>", CONTROL);
       4 := ("<sep>", USER_DEFINED) ]} in
  InitMetaPieces spec_with_alias ∅ = Ok m ∧
  NoDup ((symbols spec_with_alias).*1) ∧
  (unk_piece spec_with_alias ∉ (symbols spec_with_alias).*1) ∧
  (∀ p, p ∈ symbols spec_with_alias → ∃ k, m !! k = Some p) ∧
  (∀ k w, (k, w) ∈ reserved spec_with_alias → 0 ≤ k →
          k < vocab_size spec_with_alias ∧ ∃ c, m !! k = Some (w, c)) ∧
  (∀ k, is_Some (m !! k) → 0 ≤ k).
Proof.
  intros m. split; [exact InitMetaPieces_with_alias|].
  exact (InitMetaPieces_registers_symbols spec_with_alias m
           InitMetaPieces_with_alias).
Defined.


(** ** What [IsValidSentencePiece] accepts *)

(** The script that the loop compares, lines 224-234: Hiragana,
    Katakana and the long vowel mark count as Han, and a digit has no
    script of its own when numbers are not split off. *)
Definition script_of (X : Externals) (spec : TrainerSpec) (c : Z) : Z :=
  let s := GetScript X c in
  let s := if (s =? U_Hiragana X) || (s =? U_Katakana X) || (c =? 0x30FC)
           then U_Han X else s in
  if negb (split_by_number spec) && is_number c then kAnyType else s.

(** The characters that lines 183-199 let through. *)
Definition char_allowed (X : Externals) (c : Z) : Prop :=
  c ≠ kUNKChar ∧ c ≠ 0x0000 ∧ c ≠ kUPPBoundaryChar ∧ c ≠ 0x0020 ∧
  IsValidCodepoint X c = true.

(** Where the whitespace marker may stand in a piece of [n] characters. *)
Definition ws_allowed (spec : TrainerSpec) (n i : nat) : Prop :=
  if treat_whitespace_as_suffix spec then
    if split_by_whitespace spec then S i = n else S i = n ∨ i ≠ 0%nat
  else
    if split_by_whitespace spec then i = 0%nat else i = 0%nat ∨ S i ≠ n.

(** Two scripts that may follow each other. *)
Definition compatible (spec : TrainerSpec) (a b : Z) : Prop :=
  split_by_unicode_script spec = true →
  a ≠ kAnyType → b ≠ kAnyType → a = b.

(** The scripts of the characters other than the whitespace marker. *)
Definition piece_scripts (X : Externals) (spec : TrainerSpec)
    (u : list Z) : list Z :=
  script_of X spec <$> filter (λ c, c ≠ kWSChar) u.

Fixpoint chain (spec : TrainerSpec) (prev : Z) (l : list Z) : Prop :=
  match l with
  | [] => True
  | s :: rest => compatible spec prev s ∧ chain spec s rest
  end.

Lemma chain_adjacent (spec : TrainerSpec) (prev : Z) (l : list Z) :
  chain spec prev l ↔
  ∀ i a b, (prev :: l) !! i = Some a → l !! i = Some b → compatible spec a b.
Proof.
  revert prev. induction l as [|s l IH]; intros prev; cbn [chain].
  - split; [intros _ i a b _ Hb; by rewrite lookup_nil in Hb|done].
  - rewrite IH. split.
    + intros [H0 Hrest] [|i] a b Ha Hb; cbn in Ha, Hb.
      * by injection Ha as <-; injection Hb as <-.
      * by apply (Hrest i).
    + intros H. split; [by apply (H 0%nat)|].
      intros i a b Ha Hb. by apply (H (S i)).
Qed.

Lemma chain_any (spec : TrainerSpec) (l : list Z) :
  chain spec kAnyType l ↔
  ∀ i a b, l !! i = Some a → l !! S i = Some b → compatible spec a b.
Proof.
  destruct l as [|s l]; cbn [chain].
  - split; [intros _ i a b Ha; by rewrite lookup_nil in Ha|done].
  - rewrite chain_adjacent. split; [by intros [_ ?]|].
    intros H. split; [by intros _ ?|done].
Qed.

(** The whitespace test of lines 209-222 at position [p]. *)
Definition ws_allowed_at (spec : TrainerSpec) (size p : Z) : Prop :=
  if treat_whitespace_as_suffix spec then
    if split_by_whitespace spec then ¬ p < size - 1
    else ¬ (p < size - 1 ∧ p = 0)
  else
    if split_by_whitespace spec then ¬ 0 < p
    else ¬ (0 < p ∧ p = size - 1).

Lemma valid_from_iff (X : Externals) (spec : TrainerSpec) (size pos : Z)
    (prev_script : Z) (u : list Z) :
  valid_from X spec size pos prev_script u = true ↔
  Forall (char_allowed X) u ∧
  (∀ i, u !! i = Some kWSChar →
        ws_allowed_at spec size (pos + Z.of_nat i)) ∧
  chain spec prev_script (piece_scripts X spec u).
Proof.
  revert pos prev_script. induction u as [|c u IH]; intros pos prev.
  - cbn. split; [|done]. intros _.
    split; [constructor|]. split; [|done].
    intros i Hi. by rewrite lookup_nil in Hi.
  - assert ((∀ i, (c :: u) !! i = Some kWSChar →
                  ws_allowed_at spec size (pos + Z.of_nat i)) ↔
            (c = kWSChar → ws_allowed_at spec size pos) ∧
            (∀ i, u !! i = Some kWSChar →
                  ws_allowed_at spec size (pos + 1 + Z.of_nat i))) as Hws.
    { split.
      - intros H. split.
        + intros ->. specialize (H 0%nat eq_refl). by rewrite Z.add_0_r in H.
        + intros i Hi. specialize (H (S i) Hi).
          by replace (pos + 1 + Z.of_nat i) with (pos + Z.of_nat (S i)) by lia.
      - intros [H0 Hrest] [|i] Hi; cbn in Hi.
        + injection Hi as ->. rewrite Z.add_0_r. by apply H0.
        + replace (pos + Z.of_nat (S i)) with (pos + 1 + Z.of_nat i) by lia.
          by apply Hrest. }
    rewrite Hws, Forall_cons. unfold char_allowed at 1. cbn [valid_from].
    destruct (Z.eqb_spec c kUNKChar); [split; [done|tauto]|].
    destruct (Z.eqb_spec c 0); [split; [done|tauto]|].
    destruct (Z.eqb_spec c kUPPBoundaryChar); [split; [done|tauto]|].
    destruct (Z.eqb_spec c 32); [split; [done|tauto]|].
    destruct (IsValidCodepoint X c) eqn:Hv; cbn [negb];
      [|split; [done|intros [[(_ & _ & _ & _ & ?) _] _]; done]].
    destruct (Z.eqb_spec c kWSChar) as [->|Hc].
    + unfold piece_scripts. rewrite filter_cons_False by (by intros ?).
      fold (piece_scripts X spec u).
      assert (char_allowed X kWSChar) as Hchar by (by unfold char_allowed).
      unfold char_allowed in Hchar.
      destruct (treat_whitespace_as_suffix spec) eqn:Ht;
        match goal with
        | |- (if ?b then _ else _) = true ↔ _ =>
            assert (b = false ↔ ws_allowed_at spec size pos) as Hb;
            [unfold ws_allowed_at; rewrite Ht;
             destruct (split_by_whitespace spec),
               (Z.ltb_spec pos (size - 1)), (Z.ltb_spec 0 pos),
               (Z.eqb_spec pos 0), (Z.eqb_spec pos (size - 1));
             cbn [andb orb negb]; split; intros;
             first [done|lia|exfalso; lia]
            |destruct b;
             [split; [done|];
              intros (_ & [Hw _] & _); specialize (Hw eq_refl);
              apply Hb in Hw; done
             |rewrite IH; pose proof (proj1 Hb eq_refl); tauto]]
        end.
    + unfold piece_scripts. rewrite filter_cons_True by done.
      rewrite fmap_cons. fold (piece_scripts X spec u). cbn [chain].
      cbv zeta. fold (script_of X spec c).
      set (s := script_of X spec c).
      assert ((split_by_unicode_script spec && negb (s =? kAnyType)
               && negb (prev =? kAnyType) && negb (prev =? s)) = false ↔
              compatible spec prev s) as Hcompat.
      { unfold compatible.
        destruct (split_by_unicode_script spec), (Z.eqb_spec s kAnyType),
          (Z.eqb_spec prev kAnyType), (Z.eqb_spec prev s);
          cbn [andb negb]; split; try done; try (intros H; by apply H).
        intros H. exfalso.
        match goal with Hn : prev ≠ s |- _ => by apply Hn, H end. }
      destruct (split_by_unicode_script spec && negb (s =? kAnyType)
                && negb (prev =? kAnyType) && negb (prev =? s)) eqn:Hb.
      * split; [done|]. intros (_ & _ & Hcp & _).
        apply Hcompat in Hcp. done.
      * rewrite IH. pose proof (proj1 Hcompat eq_refl). tauto.
Qed.

(** X9.  [IsValidSentencePiece] accepts exactly the pieces that are not
    empty and not longer than [max_sentencepiece_length] (read as an
    unsigned size), have no unknown character, NUL, tab, space or
    invalid codepoint, have the whitespace marker only where the two
    whitespace settings allow it, and in which every two characters that
    follow each other, whitespace markers left out, have compatible
    scripts.  Only neighbours are compared: a character without a script
    separates what is before it from what is after it. *)
Theorem IsValidSentencePiece_iff (X : Externals) (spec : TrainerSpec)
    (u : list Z) :
  IsValidSentencePiece X spec u = true ↔
  u ≠ [] ∧
  Z.of_nat (length u) ≤ max_sentencepiece_length spec mod 2 ^ 64 ∧
  Forall (char_allowed X) u ∧
  (∀ i, u !! i = Some kWSChar → ws_allowed spec (length u) i) ∧
  (∀ i a b, piece_scripts X spec u !! i = Some a →
            piece_scripts X spec u !! S i = Some b → compatible spec a b).
Proof.
  unfold IsValidSentencePiece. rewrite <- chain_any.
  assert ((∀ i, u !! i = Some kWSChar →
                ws_allowed_at spec (Z.of_nat (length u)) (0 + Z.of_nat i)) ↔
          (∀ i, u !! i = Some kWSChar → ws_allowed spec (length u) i))
    as Hws.
  { split; intros H i Hi; specialize (H i Hi);
      apply lookup_lt_Some in Hi; revert H;
      unfold ws_allowed_at, ws_allowed;
      destruct (treat_whitespace_as_suffix spec), (split_by_whitespace spec);
      lia. }
  case_bool_decide as Hu; [split; [done|by intros [? _]]|].
  destruct (Z.ltb_spec (max_sentencepiece_length spec mod 2 ^ 64)
              (Z.of_nat (length u))) as [Hlen|Hlen]; cbn [orb].
  - split; [done|]. intros (_ & ? & _). lia.
  - rewrite valid_from_iff, Hws. tauto.
Qed.

(** [set_split_by_number] of the generated message class. *)
Definition set_split_by_number (b : bool) (ts : TrainerSpec) : TrainerSpec :=
  {| model_prefix := model_prefix ts; input := input ts;
     input_format := input_format ts; vocab_size := vocab_size ts;
     model_type := model_type ts; use_all_vocab := use_all_vocab ts;
     hard_vocab_limit := hard_vocab_limit ts;
     character_coverage := character_coverage ts;
     max_sentencepiece_length := max_sentencepiece_length ts;
     num_sub_iterations := num_sub_iterations ts;
     num_threads := num_threads ts;
     self_test_sample_size := self_test_sample_size ts;
     shrinking_factor := shrinking_factor ts;
     max_sentence_length := max_sentence_length ts;
     input_sentence_size := input_sentence_size ts;
     shuffle_input_sentence := shuffle_input_sentence ts;
     unk_piece := unk_piece ts; bos_piece := bos_piece ts;
     eos_piece := eos_piece ts; pad_piece := pad_piece ts;
     unk_id := unk_id ts; bos_id := bos_id ts; eos_id := eos_id ts;
     pad_id := pad_id ts; control_symbols := control_symbols ts;
     user_defined_symbols := user_defined_symbols ts;
     treat_whitespace_as_suffix := treat_whitespace_as_suffix ts;
     split_by_whitespace := split_by_whitespace ts;
     split_by_number := b;
     split_by_unicode_script := split_by_unicode_script ts |}.

(** A Latin letter, a digit and a Hiragana letter: the digit separates
    the two scripts when numbers are not split off, and is a script of
    its own when they are. *)
Example digit_between_two_scripts :
  let u := [0x61; 0x31; 0x3042] in
  IsValidSentencePiece (run_env [] id)
    (set_split_by_number false default_spec) u = true ∧
  IsValidSentencePiece (run_env [] id) default_spec u = false ∧
  IsValidSentencePiece (run_env [] id) default_spec [0x61; 0x3042] = false ∧
  IsValidSentencePiece (run_env [] id)
    (set_split_by_number false default_spec) [0x61; 0x3042] = false.
Proof. vm_compute. done. Qed.

(** The whitespace marker under the default settings: first, or not at
    all. *)
Example whitespace_marker_first :
  IsValidSentencePiece (run_env [] id) default_spec [kWSChar; 0x61] = true ∧
  IsValidSentencePiece (run_env [] id) default_spec [0x61; kWSChar] = false ∧
  IsValidSentencePiece (run_env [] id) default_spec [kWSChar] = true.
Proof. vm_compute. done. Qed.

Lemma chain_constant (spec : TrainerSpec) (prev : Z) (l : list Z) :
  split_by_unicode_script spec = true → prev ≠ kAnyType →
  Forall (λ s, s ≠ kAnyType) l → chain spec prev l →
  Forall (λ s, s = prev) l.
Proof.
  intros Hsplit. revert prev.
  induction l as [|s l IH]; intros prev Hprev Hl Hch; [constructor|].
  apply Forall_cons in Hl as [Hs Hl]. destruct Hch as [Hc Hch].
  assert (prev = s) as <- by (by apply Hc).
  constructor; [done|]. by apply IH.
Qed.

(** X10.  With [split_by_unicode_script] on, an accepted piece has one
    script: when every character of it other than the whitespace marker
    has a script (none is a digit read with [split_by_number] off), all
    these characters have the same script, Hiragana and Katakana
    counted as Han. *)
Theorem IsValidSentencePiece_single_script (X : Externals)
    (spec : TrainerSpec) (u : list Z) :
  split_by_unicode_script spec = true →
  Forall (λ c, c ≠ kWSChar → script_of X spec c ≠ kAnyType) u →
  IsValidSentencePiece X spec u = true →
  ∀ c c', c ∈ u → c' ∈ u → c ≠ kWSChar → c' ≠ kWSChar →
          script_of X spec c = script_of X spec c'.
Proof.
  intros Hsplit Hdef Hvalid.
  assert (∃ s, Forall (λ s', s' = s) (piece_scripts X spec u)) as [s Hs].
  { unfold IsValidSentencePiece in Hvalid.
    destruct (bool_decide (u = []) ||
              (max_sentencepiece_length spec mod 2 ^ 64
               <? Z.of_nat (length u))); [done|].
    apply valid_from_iff in Hvalid as (_ & _ & Hch).
    assert (Forall (λ s, s ≠ kAnyType) (piece_scripts X spec u)) as Hall.
    { apply Forall_forall. intros s (c & -> & Hc)%list_elem_of_fmap.
      apply list_elem_of_filter in Hc as [Hne Hc].
      by apply (proj1 (Forall_forall _ _) Hdef c). }
    destruct (piece_scripts X spec u) as [|s l]; [by exists 0|].
    exists s. apply Forall_cons in Hall as [Hs Hall].
    destruct Hch as [_ Hch]. constructor; [done|].
    exact (chain_constant spec s l Hsplit Hs Hall Hch). }
  assert (∀ c, c ∈ u → c ≠ kWSChar → script_of X spec c = s) as Hone.
  { intros c Hc Hne. apply (proj1 (Forall_forall _ _) Hs).
    apply list_elem_of_fmap. exists c. split; [done|].
    by apply list_elem_of_filter. }
  intros c c' Hc Hc' Hne Hne'. by rewrite !Hone.
Qed.

Lemma IsValidSentencePiece_single_script_witness :
  let X := run_env [] id in
  let u := [kWSChar; 0x30AB; 0x30FC; 0x3042; 0x6F22] in
  IsValidSentencePiece X default_spec u = true ∧
  ∀ c c', c ∈ u → c' ∈ u → c ≠ kWSChar → c' ≠ kWSChar →
          script_of X default_spec c = script_of X default_spec c'.
Proof.
  split; [reflexivity|].
  apply IsValidSentencePiece_single_script; [reflexivity| |reflexivity].
  repeat constructor; intros _; vm_compute; done.
Defined.


(** ** The sentences that [LoadSentences] leaves *)

(** Without a sentence limit, a run of the file loop that does not fail
    has opened every file and loaded all the kept lines. *)
Lemma load_files_all_Ok (X : Externals) (spec : TrainerSpec)
    (filenames : list string) (st : load_state X)
    (r : flow (load_state X)) :
  input_sentence_size spec ≤ 0 →
  load_files X spec false filenames st = Ok r →
  (∀ f, f ∈ filenames → is_Some (NewReadableFile X f)) ∧
  ∃ st', r = Next st' ∧
         loaded st'
         = loaded st ++ kept_sentences spec (corpus_lines X filenames).
Proof.
  intros Hsize. revert st.
  induction filenames as [|f fs IH]; intros st Hrun.
  - cbn in Hrun. injection Hrun as <-.
    split; [by intros f ?%elem_of_nil|].
    exists st. split; [done|]. by rewrite app_nil_r.
  - cbn [load_files corpus_lines] in *.
    destruct (NewReadableFile X f) as [lines|] eqn:Hf; [|done].
    cbn [CHECK_SOME bind default] in *.
    destruct (load_lines_all X spec lines st Hsize) as (st1 & Hst1 & Hl1).
    rewrite Hst1 in Hrun. cbn [bind] in Hrun.
    destruct (IH st1 Hrun) as (Hread & st' & -> & Hl').
    split.
    + intros f' [->|?]%elem_of_cons; [by rewrite Hf|by apply Hread].
    + exists st'. split; [done|].
      by rewrite Hl', Hl1, kept_sentences_app, app_assoc.
Qed.

(** X12.  [LoadSentences] on a plain text corpus without a sentence
    limit.  When it returns OK, every input file was readable, and the
    sentences it leaves are the kept lines of the files (not empty, not
    too long, without the unknown-character marker), normalized, up to
    their order and less some that normalize to the empty string, with
    the characters that are not required replaced by the unknown
    character; every one of them has frequency 1. *)
Theorem LoadSentences_text_corpus (X : Externals) (t t' : TrainerInterface) :
  input_sentence_size (trainer_spec_ t) ≤ 0 →
  input_format (trainer_spec_ t) ≠ "tsv" →
  1 ≤ num_threads (trainer_spec_ t) →
  LoadSentences X t = Ok t' →
  let spec := trainer_spec_ t in
  let f := λ s, GlobalReplace X (meta_pieces_set (meta_pieces_ t))
                  (Normalize X (normalizer_spec_ t) s) kUPPBoundaryStr in
  let normalized :=
    on_text f <$> kept_sentences spec (corpus_lines X (input spec)) in
  (∀ file, file ∈ input spec → is_Some (NewReadableFile X file)) ∧
  (∃ r dropped,
     sentences_ t' = replace_rare X (required_chars_ t') <$> r ∧
     normalized ≡ₚ r ++ dropped ∧
     Forall (λ w, w.1 = "") dropped) ∧
  Forall (λ w, w.2 = 1) (sentences_ t').
Proof.
  intros Hsize Hfmt HT H spec f normalized.
  unfold LoadSentences in H.
  apply seq_Ok in H as [_ H].
  apply seq_Ok in H as [Hsen%CHECK_Ok%bool_decide_eq_true H].
  apply seq_Ok in H as [_ H]. apply seq_Ok in H as [_ H].
  apply bind_Ok in H as (r0 & Hr0 & H).
  apply bind_Ok in H as (sentences & Hs & H).
  apply bind_Ok in H as ([all cc] & _ & H).
  apply bind_Ok in H as ([acc req] & _ & H).
  apply seq_Ok in H as [_ H]. apply seq_Ok in H as [_ [= <-]].
  cbn [sentences_ required_chars_].
  rewrite (proj2 (String.eqb_neq _ _) Hfmt) in Hr0.
  apply (load_files_all_Ok X _ _ _ _ Hsize) in Hr0
    as (Hread & st' & -> & Hloaded).
  cbn [at_END] in Hs. rewrite Hloaded in Hs.
  change (loaded (new_load_state X t)) with (sentences_ t) in Hs.
  rewrite Hsen, app_nil_l in Hs.
  fold spec in Hs.
  set (kept_ := kept_sentences spec (corpus_lines X (input spec))) in *.
  unfold normalize_sentences in Hs.
  apply seq_Ok in Hs as [_ Hs].
  assert (normalize_all f (num_threads (trainer_spec_ t)) kept_ = normalized)
    as Hmap.
  { apply list_eq. intros j. rewrite normalize_all_lookup by done.
    unfold normalized. by rewrite list_lookup_fmap. }
  change (check_and_remove_empty _ 0 _)
    with (check_and_remove_empty
            (length (normalize_all f (num_threads (trainer_spec_ t)) kept_))
            0 (normalize_all f (num_threads (trainer_spec_ t)) kept_)) in Hs.
  rewrite Hmap in Hs.
  pose proof (check_and_remove_empty_spec (length normalized) 0 normalized)
    as Hspec.
  rewrite Hs in Hspec. destruct Hspec as (dropped & Hperm & Hdropped & _).
  split; [done|]. split; [by exists sentences, dropped|].
  apply Forall_fmap, Forall_forall. intros w Hw. cbn.
  assert (w ∈ normalized) as Hn
    by (rewrite Hperm; apply elem_of_app; by left).
  apply list_elem_of_fmap in Hn as (w0 & -> & Hw0).
  apply list_elem_of_fmap in Hw0 as (l & -> & _). done.
Qed.

Lemma LoadSentences_text_corpus_witness :
  ∃ t',
    LoadSentences (run_env [("corpus.txt", ["a-b"; "-"; ""; "c"])]
                     without_dashes)
      (new_TrainerInterface default_spec {| name := "identity" |}) = Ok t' ∧
    sentences_ t' = [("ab", 1); ("c", 1)] ∧
    (∀ file, file ∈ input default_spec →
       is_Some (NewReadableFile
                  (run_env [("corpus.txt", ["a-b"; "-"; ""; "c"])]
                     without_dashes) file)) ∧
    Forall (λ w, w.2 = 1) (sentences_ t').
Proof.
  eexists. split; [vm_compute; reflexivity|].
  split; [reflexivity|].
  refine (let H := LoadSentences_text_corpus
                     (run_env [("corpus.txt", ["a-b"; "-"; ""; "c"])]
                        without_dashes)
                     (new_TrainerInterface default_spec
                        {| name := "identity" |}) _ _ _ _ _ in
          conj (proj1 H) (proj2 (proj2 H))).
  - vm_compute. discriminate.
  - vm_compute. discriminate.
  - vm_compute. discriminate.
  - vm_compute. reflexivity.
Defined.


(** ** The errors of [LoadSentences] *)

(** The sampler of the selector is there whenever [Add] asks for it. *)
Definition sampler_set (X : Externals) (spec : TrainerSpec)
    (st : load_state X) : Prop :=
  (0 <? input_sentence_size spec) && shuffle_input_sentence spec = true →
  is_Some (selector st).

Lemma load_line_outcome (X : Externals) (spec : TrainerSpec) (is_tsv : bool)
    (line : string) (st : load_state X) :
  sampler_set X spec st →
  match load_line X spec is_tsv line st with
  | Ok r => sampler_set X spec (at_END r)
  | Err e => e = TsvFieldCount ∨ e = TsvFrequency
  end.
Proof.
  intros Hst. unfold load_line.
  assert (match read_candidate X is_tsv line with
          | Ok _ => True
          | Err e => e = TsvFieldCount ∨ e = TsvFrequency
          end) as Hread.
  { unfold read_candidate. destruct is_tsv; [|done].
    destruct (Z.of_nat (length (Split X line kUPPBoundaryStr)) =? 2);
      cbn [CHECK_OR_RETURN bind]; [|by left].
    destruct (1 <=? atoll X (Split X line kUPPBoundaryStr !!! 1%nat));
      cbn [CHECK_OR_RETURN bind]; [done|by right]. }
  destruct (read_candidate X is_tsv line) as [[sentence freq]|e];
    cbn [bind]; [|done].
  destruct (empty sentence); [done|].
  destruct (max_sentence_length spec <? _); [done|].
  destruct (contains sentence kUNKStr); [done|].
  destruct (sampler_Add (test_sampler X) sentence _) as [tsmp tests].
  unfold selector_Add, sampler_set in *.
  destruct (Z.leb_spec (input_sentence_size spec) 0) as [Hle|Hgt];
    cbn [bind].
  { intros [Hp%Z.ltb_lt _]%andb_true_iff. lia. }
  destruct (shuffle_input_sentence spec).
  - destruct Hst as [smp ->];
      [by rewrite (proj2 (Z.ltb_lt _ _) Hgt)|].
    destruct (sampler_Add (sentence_sampler X) _ _) as [smp' sentences'].
    cbn [bind at_END selector]. by intros _.
  - destruct (input_sentence_size spec <=? _); cbn [bind at_END selector];
      rewrite andb_false_r; done.
Qed.

Lemma load_lines_outcome (X : Externals) (spec : TrainerSpec) (is_tsv : bool)
    (lines : list string) (st : load_state X) :
  sampler_set X spec st →
  match load_lines X spec is_tsv lines st with
  | Ok r => sampler_set X spec (at_END r)
  | Err e => e = TsvFieldCount ∨ e = TsvFrequency
  end.
Proof.
  revert st. induction lines as [|line lines IH]; intros st Hst; [done|].
  cbn [load_lines].
  pose proof (load_line_outcome X spec is_tsv line st Hst) as Hline.
  destruct (load_line X spec is_tsv line st) as [[st1|st1]|e]; cbn [bind];
    [by apply IH|done|done].
Qed.

Lemma load_files_outcome (X : Externals) (spec : TrainerSpec) (is_tsv : bool)
    (filenames : list string) (st : load_state X) :
  sampler_set X spec st →
  match load_files X spec is_tsv filenames st with
  | Ok r => sampler_set X spec (at_END r)
  | Err e => e = FileNotReadable ∨ e = TsvFieldCount ∨ e = TsvFrequency
  end.
Proof.
  revert st. induction filenames as [|f fs IH]; intros st Hst; [done|].
  cbn [load_files].
  destruct (NewReadableFile X f) as [lines|]; cbn [CHECK_SOME bind];
    [|by left].
  pose proof (load_lines_outcome X spec is_tsv lines st Hst) as Hlines.
  destruct (load_lines X spec is_tsv lines st) as [[st1|st1]|e]; cbn [bind];
    [by apply IH|done|by right].
Qed.

Lemma for_each_Err {A St : Type} (body : A → St → result St)
    (E : error → Prop) (l : list A) (s : St) (e : error) :
  (∀ a s e, body a s = Err e → E e) →
  for_each body l s = Err e → E e.
Proof.
  intros Hbody. revert s. induction l as [|a l IH]; intros s; [done|].
  cbn [for_each]. destruct (body a s) as [s1|e1] eqn:Hs1; cbn [bind].
  - apply IH.
  - intros [= <-]. by eapply Hbody.
Qed.

Lemma count_chars_Err (X : Externals) (sentences : list Sentence)
    (e : error) :
  count_chars X sentences = Err e → e = SpaceInCounted.
Proof.
  unfold count_chars.
  apply (for_each_Err _ (λ e, e = SpaceInCounted)).
  intros w st e1. apply (for_each_Err _ (λ e, e = SpaceInCounted)).
  intros c s e2. unfold count_char.
  destruct (negb (IsValidCodepoint X c)); [done|].
  destruct (c =? 0); [done|]. destruct (c =? 32); [|done].
  destruct (negb (contains w.1 " ")); cbn [CHECK_OR_RETURN bind]; [done|].
  by intros [= <-].
Qed.

Lemma normalize_sentences_Err (X : Externals) (t : TrainerInterface)
    (sentences : list Sentence) (e : error) :
  normalize_sentences X t sentences = Err e →
  e = NoSentences ∨ e = SpaceInNormalized.
Proof.
  unfold normalize_sentences.
  destruct (negb (bool_decide (sentences = [])));
    cbn [CHECK_OR_RETURN bind]; [|intros [= <-]; by left].
  match goal with
  | |- check_and_remove_empty ?n 0 ?ss = _ → _ =>
      pose proof (check_and_remove_empty_spec n 0 ss) as Hspec;
      destruct (check_and_remove_empty n 0 ss) as [r|e']
  end; [done|].
  intros [= <-]. right. by destruct Hspec.
Qed.

Local Ltac in_list :=
  solve [repeat first [apply list_elem_of_here|apply list_elem_of_further]].

(** X13.  The errors of [LoadSentences] on a trainer whose status is
    OK.  The null-pointer check of the sampler in [SentenceSelector::Add]
    never fires, since the sampler is made exactly when [Add] uses it,
    and the check against the space in the loop over the sorted
    character counts never fails, since the space is never counted. *)
Theorem LoadSentences_errors (X : Externals) (t : TrainerInterface)
    (e : error) :
  status_ t = Ok () → LoadSentences X t = Err e →
  e ∈ [SentencesNotEmpty; RequiredCharsNotEmpty; BadInputFormat;
       FileNotReadable; TsvFieldCount; TsvFrequency; NoSentences;
       SpaceInNormalized; SpaceInCounted; UnkCharRequired;
       VocabSmallerThanRequiredChars].
Proof.
  intros Hst H. unfold LoadSentences in H. rewrite Hst in H.
  cbn [bind] in H.
  destruct (bool_decide (sentences_ t = []));
    cbn [CHECK_OR_RETURN bind] in H; [|injection H as <-; in_list].
  destruct (bool_decide (required_chars_ t = ∅)) eqn:Hreq;
    cbn [CHECK_OR_RETURN bind] in H; [|injection H as <-; in_list].
  apply bool_decide_eq_true in Hreq. rewrite Hreq in H.
  destruct (empty _ || _ || _);
    cbn [CHECK_OR_RETURN bind] in H; [|injection H as <-; in_list].
  assert (sampler_set X (trainer_spec_ t) (new_load_state X t)) as Hinit.
  { unfold sampler_set, new_load_state, new_SentenceSelector. cbn.
    by intros ->. }
  pose proof (load_files_outcome X (trainer_spec_ t)
                (String.eqb (input_format (trainer_spec_ t)) "tsv")
                (input (trainer_spec_ t)) _ Hinit) as Hload.
  destruct (load_files X _ _ _ _) as [r|e0]; cbn [bind] in H;
    [|injection H as <-; destruct Hload as [->|[->| ->]]; in_list].
  destruct (normalize_sentences X t (loaded (at_END r)))
    as [sentences|e0] eqn:Hnorm; cbn [bind] in H;
    [|injection H as <-;
      apply normalize_sentences_Err in Hnorm as [->| ->]; in_list].
  destruct (count_chars X sentences) as [[all cc]|e0] eqn:Hcc;
    cbn [bind] in H;
    [|injection H as <-; apply count_chars_Err in Hcc as ->; in_list].
  pose proof (count_chars_keys X sentences all cc Hcc) as Hkeys.
  destruct (util_Sorted_spec cc) as (Hperm & Hnd & _).
  destruct (required_chars_loop_spec (trainer_spec_ t) all (util_Sorted cc)
              0 ∅) as (acc' & req' & Hloop & _).
  { intros [c n] Hp. rewrite Hperm in Hp. apply elem_of_map_to_list in Hp.
    assert (is_counted X c = true) as Hc by (apply Hkeys; eauto).
    unfold is_counted in Hc. cbn. intros ->.
    by rewrite andb_false_r in Hc. }
  { done. }
  { intros p _. apply lookup_empty. }
  rewrite Hloop in H. cbn [bind] in H.
  destruct (negb (bool_decide (is_Some (req' !! kUNKChar))));
    cbn [CHECK_OR_RETURN bind] in H; [|injection H as <-; in_list].
  destruct (negb (bool_decide (model_type (trainer_spec_ t) = WORD))
            && negb (bool_decide (model_type (trainer_spec_ t) = CHAR)));
    cbn [bind] in H; [|done].
  destruct (to_int _ <=? vocab_size (trainer_spec_ t));
    cbn [CHECK_OR_RETURN bind] in H; [done|].
  injection H as <-. in_list.
Qed.

Lemma LoadSentences_errors_witness :
  status_ (new_TrainerInterface short_lines_spec {| name := "identity" |})
  = Ok () ∧
  LoadSentences (run_env [("corpus.txt", long_lines)] id)
    (new_TrainerInterface short_lines_spec {| name := "identity" |})
  = Err NoSentences ∧
  NoSentences ∈ [SentencesNotEmpty; RequiredCharsNotEmpty; BadInputFormat;
                 FileNotReadable; TsvFieldCount; TsvFrequency; NoSentences;
                 SpaceInNormalized; SpaceInCounted; UnkCharRequired;
                 VocabSmallerThanRequiredChars].
Proof.
  split; [vm_compute; reflexivity|]. split; [vm_compute; reflexivity|].
  apply (LoadSentences_errors (run_env [("corpus.txt", long_lines)] id)
           (new_TrainerInterface short_lines_spec {| name := "identity" |}));
    vm_compute; reflexivity.
Defined.


(** ** Loading with the sampler *)

(** The sampler and the vector after the sentences [l] were given to
    [Add] one after the other. *)
Definition sampled (X : Externals) (l : list Sentence)
    (st : sampler (sentence_sampler X) * list Sentence)
    : sampler (sentence_sampler X) * list Sentence :=
  foldl (λ acc s, sampler_Add (sentence_sampler X) s acc) st l.

Lemma load_lines_sampled (X : Externals) (spec : TrainerSpec)
    (lines : list string) (st : load_state X)
    (smp : sampler (sentence_sampler X)) :
  0 < input_sentence_size spec → shuffle_input_sentence spec = true →
  selector st = Some smp →
  ∃ st' smp', load_lines X spec false lines st = Ok (Next st') ∧
              selector st' = Some smp' ∧
              (smp', loaded st')
              = sampled X (kept_sentences spec lines) (smp, loaded st).
Proof.
  intros Hsize Hshuffle. revert st smp.
  induction lines as [|line lines IH]; intros st smp Hsel.
  - by exists st, smp.
  - cbn [load_lines]. rewrite kept_sentences_cons.
    pose proof (load_line_text X spec line st) as Hline.
    destruct (kept spec line).
    + destruct Hline as (tsmp & tests & ->).
      unfold selector_Add. rewrite Hsel, Hshuffle.
      rewrite (proj2 (Z.leb_gt _ _) Hsize).
      destruct (sampler_Add (sentence_sampler X) (line, 1) (smp, loaded st))
        as [smp1 sentences1] eqn:Hadd.
      cbn [bind fst snd].
      destruct (IH {| selector := Some smp1; loaded := sentences1;
                      test_sentence_sampler := tsmp; test_samples := tests;
                      too_long_lines := too_long_lines st |} smp1 eq_refl)
        as (st' & smp' & Hrun & Hsel' & Hst').
      exists st', smp'. split; [exact Hrun|]. split; [done|].
      rewrite Hst'. unfold sampled. cbn [foldl app loaded]. by rewrite Hadd.
    + destruct Hline as (st1 & -> & Hl & Hs). cbn [bind].
      destruct (IH st1 smp) as (st' & smp' & -> & Hsel' & Hst');
        [by rewrite Hs|].
      exists st', smp'. split; [done|]. split; [done|]. by rewrite Hst', Hl.
Qed.

(** X14.  With a sentence limit and shuffling, and with readable files,
    the loops of lines 266-308 read every file to its end and give the
    kept lines of the plain text corpus to the sampler, in the order of
    the files and of their lines, each once and with frequency 1; the
    vector of sentences is what the sampler leaves. *)
Theorem load_files_feeds_sampler (X : Externals) (spec : TrainerSpec)
    (filenames : list string) (st : load_state X)
    (smp : sampler (sentence_sampler X)) :
  0 < input_sentence_size spec → shuffle_input_sentence spec = true →
  selector st = Some smp →
  (∀ f, f ∈ filenames → is_Some (NewReadableFile X f)) →
  ∃ st' smp', load_files X spec false filenames st = Ok (Next st') ∧
              selector st' = Some smp' ∧
              (smp', loaded st')
              = sampled X (kept_sentences spec (corpus_lines X filenames))
                  (smp, loaded st).
Proof.
  intros Hsize Hshuffle. revert st smp.
  induction filenames as [|f fs IH]; intros st smp Hsel Hread.
  - by exists st, smp.
  - cbn [load_files corpus_lines].
    destruct (Hread f) as [lines Hf]; [apply list_elem_of_here|].
    rewrite Hf. cbn [CHECK_SOME bind default].
    destruct (load_lines_sampled X spec lines st smp Hsize Hshuffle Hsel)
      as (st1 & smp1 & -> & Hsel1 & Hst1).
    cbn [bind].
    destruct (IH st1 smp1 Hsel1) as (st' & smp' & -> & Hsel' & Hst').
    { intros f' Hf'. apply Hread. by apply list_elem_of_further. }
    exists st', smp'. split; [done|]. split; [done|].
    rewrite Hst', Hst1, kept_sentences_app. unfold sampled.
    by rewrite foldl_app.
Qed.

(** A limit of two sentences with shuffling, to run the loops on. *)
Definition sample_two_spec : TrainerSpec :=
  {| model_prefix := "m"; input := ["a.txt"; "b.txt"];
     input_format := "";
     vocab_size := 8000; model_type := UNIGRAM; use_all_vocab := false;
     hard_vocab_limit := true; character_coverage := default_character_coverage;
     max_sentencepiece_length := 16; num_sub_iterations := 2;
     num_threads := 16; self_test_sample_size := 0;
     shrinking_factor := 75 # 100; max_sentence_length := 4192;
     input_sentence_size := 2; shuffle_input_sentence := true;
     unk_piece := "<unk>"; bos_piece := "<s>"; eos_piece := "</s>";
     pad_piece := "<pad>"; unk_id := 0; bos_id := 1; eos_id := 2;
     pad_id := -1; control_symbols := []; user_defined_symbols := [];
     treat_whitespace_as_suffix := false; split_by_whitespace := true;
     split_by_number := true; split_by_unicode_script := true |}.

Lemma load_files_feeds_sampler_witness :
  let X := run_env [("a.txt", ["one"; ""; "two"]); ("b.txt", ["three"])] id in
  let st := new_load_state X
              (new_TrainerInterface sample_two_spec {| name := "identity" |}) in
  let smp : sampler (sentence_sampler X) := 2 in
  0 < input_sentence_size sample_two_spec ∧
  shuffle_input_sentence sample_two_spec = true ∧
  selector st = Some smp ∧
  (∀ f, f ∈ ["a.txt"; "b.txt"] → is_Some (NewReadableFile X f)) ∧
  sampled X (kept_sentences sample_two_spec
               (corpus_lines X ["a.txt"; "b.txt"])) (smp, loaded st)
  = (smp, [("one", 1); ("two", 1)]) ∧
  ∃ st' smp', load_files X sample_two_spec false ["a.txt"; "b.txt"] st
              = Ok (Next st') ∧
              selector st' = Some smp' ∧
              (smp', loaded st')
              = sampled X (kept_sentences sample_two_spec
                             (corpus_lines X ["a.txt"; "b.txt"]))
                  (smp, loaded st).
Proof.
  intros X st smp.
  assert (0 < input_sentence_size sample_two_spec) as H1 by done.
  assert (shuffle_input_sentence sample_two_spec = true) as H2 by done.
  assert (selector st = Some smp) as H3 by reflexivity.
  assert (∀ f, f ∈ ["a.txt"; "b.txt"] → is_Some (NewReadableFile X f)) as H4.
  { intros f [->|Hf]%elem_of_cons; [by eexists|].
    apply list_elem_of_singleton in Hf as ->. by eexists. }
  repeat (split; [assumption|]). split; [reflexivity|].
  exact (load_files_feeds_sampler X sample_two_spec ["a.txt"; "b.txt"]
           st smp H1 H2 H3 H4).
Defined.


(** ** The errors of [Serialize] *)

Lemma CHECK_PIECE_Err (X : Externals) (w : string) (dup : gset string)
    (e : error) :
  CHECK_PIECE X w dup = Err e →
  e = PieceNotStructurallyValid ∨ e = PieceEmpty ∨ e = PieceAlreadyDefined.
Proof.
  unfold CHECK_PIECE.
  destruct (IsStructurallyValid X w); cbn [CHECK_OR_RETURN bind];
    [|intros [= <-]; by left].
  destruct (negb (empty w)); cbn [CHECK_OR_RETURN bind];
    [|intros [= <-]; right; by left].
  destruct (negb (bool_decide (w ∈ dup))); cbn [CHECK_OR_RETURN bind];
    [done|intros [= <-]; right; by right].
Qed.

Lemma serialize_step_Err (X : Externals) (t : TrainerInterface) (id : Z)
    (st : serialize_state) (e : error) :
  serialize_step X t id st = Err e →
  e ∈ [MetaPieceIdMismatch; MetaPieceIsNormal; PieceNotStructurallyValid;
       PieceEmpty; PieceAlreadyDefined].
Proof.
  unfold serialize_step.
  destruct (meta_pieces_ t !! id) as [[w ty]|].
  - destruct (_ =? id); cbn [CHECK_OR_RETURN bind];
      [|intros [= <-]; in_list].
    destruct (negb _); cbn [CHECK_OR_RETURN bind];
      [|intros [= <-]; in_list].
    destruct (CHECK_PIECE X _ _) as [dup'|e'] eqn:Hck; cbn [bind]; [done|].
    intros [= <-]. apply CHECK_PIECE_Err in Hck as [->|[->| ->]]; in_list.
  - destruct (final_pieces_ t !! fid st) as [p|]; [|done].
    destruct (CHECK_PIECE X _ _) as [dup'|e'] eqn:Hck; cbn [bind]; [done|].
    intros [= <-]. apply CHECK_PIECE_Err in Hck as [->|[->| ->]]; in_list.
Qed.

(** X15.  The errors of [Serialize] on a trainer whose status is OK and
    whose vocabulary size is an [int32] that is not negative.  The loop
    adds one piece for an id at most and every piece is new to [dup], so
    the comparisons of [dup.size()] with the vocabulary size repeat
    those of the number of pieces, and under the soft limit (or for the
    model type CHAR) no check after the loop fails but the one that all
    final pieces were used. *)
Theorem Serialize_errors (X : Externals) (t : TrainerInterface) (e : error) :
  status_ t = Ok () →
  0 ≤ vocab_size (trainer_spec_ t) < 2 ^ 31 →
  Serialize X t new_ModelProto = Err e →
  e ∈ [MetaPieceIdMismatch; MetaPieceIsNormal; PieceNotStructurallyValid;
       PieceEmpty; PieceAlreadyDefined; FinalPiecesLeft;
       PieceCountMismatch] ∧
  (e = PieceCountMismatch →
   hard_vocab_limit (trainer_spec_ t) = true ∧
   model_type (trainer_spec_ t) ≠ CHAR).
Proof.
  intros Hstatus Hv H. unfold Serialize in H. rewrite Hstatus in H.
  cbn [bind] in H.
  destruct (for_each _ _ _) as [st|e0] eqn:Hloop; cbn [bind] in H.
  2: { injection H as <-.
       assert (e0 ∈ [MetaPieceIdMismatch; MetaPieceIsNormal;
                     PieceNotStructurallyValid; PieceEmpty;
                     PieceAlreadyDefined]) as He.
       { refine (for_each_Err _
                   (λ e, e ∈ [MetaPieceIdMismatch; MetaPieceIsNormal;
                              PieceNotStructurallyValid; PieceEmpty;
                              PieceAlreadyDefined]) _ _ _ _ Hloop).
         intros a s e1. apply serialize_step_Err. }
       split.
       - repeat (apply elem_of_cons in He as [->|He]; [in_list|]).
         by apply elem_of_nil in He.
       - intros ->.
         repeat (apply elem_of_cons in He as [?|He]; [done|]).
         by apply elem_of_nil in He. }
  assert (serialize_inv X st) as Hinv.
  { refine (for_each_inv _ (serialize_inv X) _ _ _ _ _ Hloop).
    - intros a s s'. apply serialize_step_inv.
    - split; simpl; [|constructor|constructor].
      intros w. rewrite elem_of_nil, elem_of_empty. done. }
  apply serialize_inv_size in Hinv as [_ Hsize].
  assert (Z.of_nat (length (out_pieces st)) ≤ vocab_size (trainer_spec_ t))
    as Hlen.
  { rewrite <- (Z2Nat.id (vocab_size (trainer_spec_ t))) in Hloop by lia.
    apply (for_each_seqZ_inv _ (layout_inv t)) in Hloop.
    - destruct Hloop as [Hl _ _ _ _]. lia.
    - intros n s s' Hn. apply serialize_step_layout. lia.
    - split; cbn; [done|done|lia|intros i w ty ?; lia|done]. }
  assert (to_int32 (Z.of_nat (size (seen st)))
          = Z.of_nat (length (out_pieces st))) as Hdup.
  { rewrite Hsize. unfold to_int32, to_int. rewrite Z.mod_small; lia. }
  rewrite Hdup in H.
  destruct (fid st =? length (final_pieces_ t))%nat;
    cbn [CHECK_OR_RETURN bind] in H;
    [|injection H as <-; split; [in_list|done]].
  destruct (negb (hard_vocab_limit (trainer_spec_ t))
            || bool_decide (model_type (trainer_spec_ t) = CHAR)) eqn:Hmode.
  - rewrite (proj2 (Z.leb_le _ _) Hlen) in H. done.
  - destruct (vocab_size (trainer_spec_ t)
              =? Z.of_nat (length (out_pieces st)));
      cbn [CHECK_OR_RETURN bind] in H; [done|].
    injection H as <-. split; [in_list|]. intros _.
    apply orb_false_iff in Hmode as [Hh%negb_false_iff Hc].
    by apply bool_decide_eq_false in Hc.
Qed.

Lemma Serialize_errors_witness :
  let t := new_TrainerInterface (set_vocab_size 7 default_spec)
             {| name := "identity" |} in
  Serialize (run_env [] id) t new_ModelProto = Err PieceCountMismatch ∧
  PieceCountMismatch
  ∈ [MetaPieceIdMismatch; MetaPieceIsNormal; PieceNotStructurallyValid;
     PieceEmpty; PieceAlreadyDefined; FinalPiecesLeft; PieceCountMismatch] ∧
  (PieceCountMismatch = PieceCountMismatch →
   hard_vocab_limit (trainer_spec_ t) = true ∧
   model_type (trainer_spec_ t) ≠ CHAR).
Proof.
  intros t. split; [reflexivity|].
  apply (Serialize_errors (run_env [] id) t); [reflexivity|done|reflexivity].
Defined.


(** ** The model of a constructed trainer *)

(** The identifiers and categories of a registry: no identifier is
    negative, no category is [NORMAL], and the unknown symbol is below
    the vocabulary size. *)
Definition categories_ok (ts : TrainerSpec)
    (m : gmap Z (string * PieceType)) : Prop :=
  ∀ k w c, m !! k = Some (w, c) →
           0 ≤ k ∧ c ≠ NORMAL ∧ (c = UNKNOWN → k < vocab_size ts).

Lemma categories_ok_step (ts : TrainerSpec) (done_ : list string)
    (st st' : symbol_state) (w : string) (ty : PieceType) :
  symbols_inv ts done_ st → ty = CONTROL ∨ ty = USER_DEFINED →
  categories_ok ts (registry st) →
  insert_meta_symbol ts w ty st = Some st' →
  categories_ok ts (registry st').
Proof.
  intros Hinv Hty Hok Hst.
  destruct (insert_meta_symbol_spec ts done_ st w ty Hinv)
    as (Hrej & Halias & Halloc).
  destruct (decide (w ∈ done_)) as [Hin|Hin];
    [rewrite Hrej in Hst by (by left); done|].
  destruct (decide (w = unk_piece ts)) as [Hu|Hu];
    [rewrite Hrej in Hst by (by right); done|].
  assert (∀ k, 0 ≤ k →
               insert_meta_symbol ts w ty st
               = Some {| next_id := next_id st'; dup := {[w]} ∪ dup st;
                         registry := <[k := (w, ty)]> (registry st) |} →
               categories_ok ts (registry st')) as Hins.
  { intros k Hk Heq. rewrite Heq in Hst. injection Hst as <-. cbn.
    intros k' w' c. destruct (decide (k = k')) as [<-|Hne].
    - rewrite lookup_insert_eq. intros [= <- <-].
      split; [done|]. destruct Hty as [-> | ->]; done.
    - rewrite lookup_insert_ne by done. apply Hok. }
  destruct (decide (aliased ts w)) as [Hal|Hal].
  - destruct (Halias Hin Hu Hal) as (k & c & Hk & _ & Heq).
    apply list_elem_of_filter in Hk as [Hk _].
    apply (Hins k Hk). rewrite Heq. rewrite Heq in Hst.
    by injection Hst as <-.
  - destruct (Halloc Hin Hu Hal) as (k & Hk & _ & _ & Heq).
    apply (Hins k Hk). rewrite Heq. rewrite Heq in Hst.
    by injection Hst as <-.
Qed.

Lemma categories_ok_run (ts : TrainerSpec) (l : list (string * PieceType))
    (done_ : list string) (st st' : symbol_state) :
  symbols_inv ts done_ st → l ⊆ symbols ts →
  categories_ok ts (registry st) →
  insert_meta_symbols ts l st = Some st' →
  categories_ok ts (registry st').
Proof.
  revert done_ st. induction l as [|[w ty] l IH]; intros done_ st Hinv Hl Hok Hst.
  - cbn in Hst. by injection Hst as <-.
  - cbn [insert_meta_symbols fst snd] in Hst.
    destruct (insert_meta_symbol ts w ty st) as [st1|] eqn:Hst1; [|done].
    assert ((w, ty) ∈ symbols ts) as Hp by (apply Hl, list_elem_of_here).
    apply symbols_type in Hp as Hty. cbn in Hty.
    apply (IH (done_ ++ [w]) st1).
    + eapply symbols_inv_step; [done| |done].
      destruct Hty as [-> | ->]; done.
    + intros p ?. apply Hl. by apply list_elem_of_further.
    + by eapply categories_ok_step.
    + done.
Qed.

(** What [InitMetaPieces] leaves in the registry. *)
Lemma InitMetaPieces_categories (ts : TrainerSpec)
    (m : gmap Z (string * PieceType)) :
  InitMetaPieces ts ∅ = Ok m →
  categories_ok ts m ∧ one_unknown ts m ∧
  ∀ k w, (k, w) ∈ reserved ts → 0 ≤ k →
         k < vocab_size ts ∧ ∃ c, m !! k = Some (w, c).
Proof.
  intros (m0 & st & Hm0 & Hst & ->)%InitMetaPieces_Ok.
  pose proof (symbols_inv_init ts m0 Hm0) as Hinit.
  pose proof Hm0 as (Hv & Hnd & _ & Hm0eq)%insert_reserved_Ok_iff.
  assert (categories_ok ts m0) as Hok0.
  { intros k w c Hk. rewrite Hm0eq in Hk.
    apply add_all_lookup in Hk as [(w' & Hw & Heq)|[_ Hk]]; [|done|done].
    pose proof (proj1 (Forall_forall _ _) Hv _ Hw) as Hlt.
    apply list_elem_of_filter in Hw as [Hk0 _]. cbn in *.
    unfold entry in Heq. injection Heq as -> ->.
    split; [done|]. split; [|done]. by destruct (String.eqb w' _). }
  pose proof (categories_ok_run ts (symbols ts) [] _ st Hinit
                (reflexivity _) Hok0 Hst) as Hok.
  apply (symbols_inv_run ts (symbols ts) [] _ st Hinit) in Hst;
    [|by apply (symbols_not_unknown ts)].
  destruct Hst as [_ _ _ Hres Hunk].
  split; [done|]. split; [done|].
  intros k w Hkw Hk.
  assert ((k, w) ∈ registered (reserved ts)) as Hr
    by (by apply list_elem_of_filter).
  split; [by apply (proj1 (Forall_forall _ _) Hv (k, w))|by apply Hres].
Qed.

(** The layout at the end of a run of [Serialize] that returns OK. *)
Lemma Serialize_layout_inv (X : Externals) (t : TrainerInterface)
    (mp : ModelProto) :
  0 ≤ vocab_size (trainer_spec_ t) →
  Serialize X t new_ModelProto = Ok mp →
  ∃ st, pieces mp = out_pieces st ∧
        fid st = length (final_pieces_ t) ∧
        layout_inv t (vocab_size (trainer_spec_ t)) st.
Proof.
  intros Hv (st & Hst & Hfid & Hp & _)%Serialize_Ok.
  exists st. split; [done|]. split; [done|].
  rewrite <- (Z2Nat.id (vocab_size (trainer_spec_ t))) in Hst by done.
  apply (for_each_seqZ_inv _ (layout_inv t)) in Hst.
  - by rewrite Z.add_0_l, Z2Nat.id in Hst by done.
  - intros n s s' Hn. apply serialize_step_layout. lia.
  - split; cbn; [done|done|lia|intros i w ty ?; lia|done].
Qed.

(** X16.  The model of a trainer made by the constructor, whatever the
    final pieces are that training has left.  When [Serialize] returns
    OK: the spec had passed [VerifySpec]; the learned pieces of the model
    are the final pieces, in their order; the model has exactly one
    piece of type [UNKNOWN], with the unknown text and score 0; every
    reserved symbol with a non-negative identifier is the piece at that
    identifier, with score 0 and a type other than [NORMAL]; and every
    piece of a type other than [NORMAL] has score 0. *)
Theorem Serialize_of_constructed (X : Externals) (ts : TrainerSpec)
    (ns : NormalizerSpec) (fp : list (string * Q)) (mp : ModelProto) :
  Serialize X (with_final_pieces fp (new_TrainerInterface ts ns))
    new_ModelProto = Ok mp →
  VerifySpec ts = Ok () ∧
  learned (pieces mp) = fp ∧
  (∃ k, pieces mp !! k
        = Some {| piece := unk_piece ts; score := 0; type := UNKNOWN |} ∧
        ∀ k' sp, pieces mp !! k' = Some sp → type sp = UNKNOWN → k' = k) ∧
  (∀ k w, (k, w) ∈ reserved ts → 0 ≤ k →
     ∃ sp, pieces mp !! Z.to_nat k = Some sp ∧ piece sp = w ∧
           score sp = 0%Q ∧ type sp ≠ NORMAL) ∧
  (∀ k sp, pieces mp !! k = Some sp → type sp ≠ NORMAL → score sp = 0%Q).
Proof.
  intros H.
  assert (status_ (with_final_pieces fp (new_TrainerInterface ts ns))
          = Ok ()) as Hstatus.
  { unfold Serialize in H. by apply seq_Ok in H as [? _]. }
  cbn in Hstatus.
  destruct (VerifySpec ts) as [[]|e] eqn:Hverify; [|done].
  cbn [bind] in Hstatus.
  destruct (InitMetaPieces ts ∅) as [m|e] eqn:Hinit; [|done].
  destruct (InitMetaPieces_categories ts m Hinit)
    as (Hok & (k0 & Hk0 & Huniq) & Hres).
  destruct (Hok _ _ _ Hk0) as (Hk0pos & _ & Hk0lt).
  specialize (Hk0lt eq_refl).
  assert (meta_pieces_ (with_final_pieces fp (new_TrainerInterface ts ns))
          = m) as Hmeta.
  { cbn. by rewrite Hverify, Hinit. }
  apply Serialize_layout_inv in H as (st & Hp & Hfid & Hlay);
    [|cbn; lia].
  destruct Hlay as [Hlen Hlearned _ Hlmeta Hother].
  rewrite Hmeta in Hlmeta, Hother. cbn in Hlmeta, Hfid, Hlearned.
  rewrite Hp. split; [done|]. split.
  { rewrite Hlearned, Hfid. apply take_ge. lia. }
  split; [|split].
  - exists (Z.to_nat k0). split; [by apply Hlmeta|].
    intros k' sp Hk' Hty.
    destruct (Hother k' sp Hk') as [Hm _]; [by rewrite Hty|].
    rewrite Hty in Hm. apply Huniq in Hm. lia.
  - intros k w Hkw Hk. destruct (Hres k w Hkw Hk) as (Hlt & c & Hc).
    eexists. split; [by apply (Hlmeta k w c)|]. cbn.
    split; [done|]. split; [done|]. by destruct (Hok _ _ _ Hc) as (_ & ? & _).
  - intros k sp Hk Hty. by destruct (Hother k sp Hk Hty).
Qed.

Lemma Serialize_of_constructed_witness :
  ∃ mp,
    Serialize (run_env [] id)
      (with_final_pieces [("ab", -1 # 1); ("a", -2 # 1)]
         (new_TrainerInterface (set_vocab_size 5 default_spec)
            {| name := "identity" |}))
      new_ModelProto = Ok mp ∧
    piece <$> pieces mp = ["<unk>"; "<s>"; "</s>"; "ab"; "a"] ∧
    learned (pieces mp) = [("ab", -1 # 1); ("a", -2 # 1)] ∧
    (∃ k, pieces mp !! k
          = Some {| piece := "<unk>"; score := 0; type := UNKNOWN |} ∧
          ∀ k' sp, pieces mp !! k' = Some sp → type sp = UNKNOWN → k' = k).
Proof.
  eexists. split; [vm_compute; reflexivity|]. split; [reflexivity|].
  refine (let H := Serialize_of_constructed (run_env [] id)
                     (set_vocab_size 5 default_spec) {| name := "identity" |}
                     [("ab", -1 # 1); ("a", -2 # 1)] _ _ in
          conj (proj1 (proj2 H)) (proj1 (proj2 (proj2 H)))).
  vm_compute. reflexivity.
Defined.


(** ** SplitSentencesByWhitespace *)

Section SplitSentencesByWhitespace.

(** [SplitIntoWords] of model_interface.h and [Sorted] of util.h on a
    map from strings, neither of them among the sources. *)
Variable SplitIntoWords : string → bool → list string.
Variable Sorted_tokens : gmap string Z → list Sentence.

(** [tokens[w] += n] *)
Definition add_token (w : string) (n : Z) (tokens : gmap string Z)
    : gmap string Z :=
  <[w := default 0 (tokens !! w) + n]> tokens.

(** The two loops of lines 444-449. *)
Definition count_tokens (suffix : bool) (sentences : list Sentence)
    : gmap string Z :=
  foldl (λ tokens s,
           foldl (λ tokens w, add_token w s.2 tokens) tokens
             (SplitIntoWords s.1 suffix))
    ∅ sentences.

Definition SplitSentencesByWhitespace (t : TrainerInterface)
    : TrainerInterface :=
  {| trainer_spec_ := trainer_spec_ t;
     normalizer_spec_ := normalizer_spec_ t;
     status_ := status_ t;
     meta_pieces_ := meta_pieces_ t;
     sentences_ :=
       Sorted_tokens
         (count_tokens (treat_whitespace_as_suffix (trainer_spec_ t))
            (sentences_ t));
     required_chars_ := required_chars_ t;
     final_pieces_ := final_pieces_ t;
     self_test_samples_ := self_test_samples_ t |}.

(** The words of the sentences, each with the frequency of its
    sentence. *)
Definition word_events (suffix : bool) (sentences : list Sentence)
    : list (string * Z) :=
  sentences ≫= λ s, (λ w, (w, s.2)) <$> SplitIntoWords s.1 suffix.

(** The frequencies of the sentences, summed over the occurrences of
    the word. *)
Definition word_frequency (suffix : bool) (sentences : list Sentence)
    (w : string) : Z :=
  foldr (λ e n, e.2 + n) 0
    (filter (λ e, e.1 = w) (word_events suffix sentences)).

Lemma add_tokens_lookup (events : list (string * Z)) (m : gmap string Z)
    (w : string) :
  foldl (λ tokens e, add_token e.1 e.2 tokens) m events !! w
  = if decide (w ∈ events.*1)
    then Some (default 0 (m !! w)
               + foldr (λ e n, e.2 + n) 0 (filter (λ e, e.1 = w) events))
    else m !! w.
Proof.
  revert m. induction events as [|[w1 n1] events IH]; intros m.
  - cbn. by rewrite decide_False by (by intros ?%elem_of_nil).
  - cbn [foldl fst snd]. rewrite IH. unfold add_token.
    rewrite fmap_cons. cbn [fst].
    destruct (decide (w1 = w)) as [->|Hne].
    + rewrite lookup_insert_eq, filter_cons_True by done.
      rewrite (decide_True (P := w ∈ w :: events.*1))
        by apply list_elem_of_here.
      cbn [foldr snd default]. unfold id.
      destruct (decide (w ∈ events.*1)) as [Hin|Hin]; [f_equal; lia|].
      f_equal.
      assert (filter (λ e, e.1 = w) events = []) as ->; [|cbn; lia].
      destruct (filter (λ e, e.1 = w) events) as [|e' l'] eqn:Hf; [done|].
      exfalso. apply Hin.
      assert (e' ∈ filter (λ e, e.1 = w) events) as He'
        by (rewrite Hf; apply list_elem_of_here).
      apply list_elem_of_filter in He' as [<- He'].
      by apply list_elem_of_fmap_2.
    + rewrite lookup_insert_ne, filter_cons_False by done.
      destruct (decide (w ∈ events.*1)) as [Hin|Hin].
      * by rewrite decide_True by (by apply list_elem_of_further).
      * rewrite decide_False; [done|].
        by intros [?|?]%elem_of_cons.
Qed.

Lemma count_tokens_events (suffix : bool) (sentences : list Sentence)
    (m : gmap string Z) :
  foldl (λ tokens s,
           foldl (λ tokens w, add_token w s.2 tokens) tokens
             (SplitIntoWords s.1 suffix))
    m sentences
  = foldl (λ tokens e, add_token e.1 e.2 tokens) m
      (word_events suffix sentences).
Proof.
  revert m. induction sentences as [|s sentences IH]; intros m; [done|].
  cbn [foldl]. rewrite IH. unfold word_events. rewrite bind_cons, foldl_app.
  f_equal. generalize (SplitIntoWords s.1 suffix). intros ws. revert m.
  induction ws as [|w ws IHw]; intros m; [done|].
  cbn [foldl fmap list_fmap fst snd]. apply IHw.
Qed.

(** X17.  [SplitSentencesByWhitespace] leaves the sorted word counts:
    the map given to [Sorted] has an entry for exactly the words of the
    sentences, and the entry of a word is the sum of the frequencies of
    the sentences over its occurrences; the other members of the
    trainer stay. *)
Theorem SplitSentencesByWhitespace_counts (t : TrainerInterface) :
  ∃ tokens,
    sentences_ (SplitSentencesByWhitespace t) = Sorted_tokens tokens ∧
    (∀ w,
       let suffix := treat_whitespace_as_suffix (trainer_spec_ t) in
       tokens !! w
       = if decide (w ∈ (word_events suffix (sentences_ t)).*1)
         then Some (word_frequency suffix (sentences_ t) w)
         else None) ∧
    meta_pieces_ (SplitSentencesByWhitespace t) = meta_pieces_ t ∧
    required_chars_ (SplitSentencesByWhitespace t) = required_chars_ t.
Proof.
  eexists. split; [reflexivity|]. split; [|done].
  intros w suffix. unfold count_tokens.
  rewrite count_tokens_events, add_tokens_lookup, lookup_empty.
  destruct (decide _); [|done]. cbn [default]. by rewrite Z.add_0_l.
Qed.

End SplitSentencesByWhitespace.

(** A run with words split at the spaces and the counts in the order of
    the keys. *)
Example SplitSentencesByWhitespace_run :
  let words := λ (s : string) (_ : bool),
                 split_from (String.list_ascii_of_string " ") "" s in
  count_tokens words false [("a b a", 2); ("b", 5)]
  = {[ "a" := 4; "b" := 7 ]}.
Proof. vm_compute. reflexivity. Qed.


(** ** SaveVocab *)

(** The pieces in [*model_proto] when round [id] of the loop of
    [Serialize] has added its piece, lines 468-482: the checks of the
    round come after [add_pieces]. *)
Definition added (t : TrainerInterface) (id : Z) (st : serialize_state)
    : list SentencePiece :=
  match meta_pieces_ t !! id with
  | Some (w, ty) =>
      out_pieces st ++ [{| piece := w; score := 0; type := ty |}]
  | None =>
      match final_pieces_ t !! fid st with
      | Some w =>
          out_pieces st ++ [{| piece := w.1; score := w.2; type := NORMAL |}]
      | None => out_pieces st
      end
  end.

(** The pieces the loop leaves: those of its last state when it runs to
    its end, and those added so far when a check returns. *)
Fixpoint pieces_left (X : Externals) (t : TrainerInterface) (ids : list Z)
    (st : serialize_state) : list SentencePiece :=
  match ids with
  | [] => out_pieces st
  | id :: ids' =>
      match serialize_step X t id st with
      | Ok st' => pieces_left X t ids' st'
      | Err _ => added t id st
      end
  end.

(** The pieces in [*model_proto] after [Serialize(model_proto)], whatever
    status it returns; the checks after the loop do not touch them. *)
Definition Serialize_pieces (X : Externals) (t : TrainerInterface)
    (model_proto : ModelProto) : list SentencePiece :=
  match status_ t with
  | Ok _ =>
      pieces_left X t (seqZ 0 (vocab_size (trainer_spec_ t)))
        {| out_pieces := pieces model_proto; seen := ∅; fid := 0 |}
  | Err _ => pieces model_proto
  end.

Inductive save_status : Type :=
  | SaveOk
  | FileNotWritable
  | WriteLineFailed.

Section SaveVocab.

(** filesystem.h: whether the status of the file opened for writing is
    OK, and whether [WriteLine] succeeds on a file with the lines written
    so far; [operator<<] of a stream on a [float]. *)
Variable NewWritableFile : string → bool.
Variable WriteLine : string → list string → string → bool.
Variable show_score : Q → string.

(** [os << piece.piece() << "\t" << piece.score()] *)
Definition vocab_line (sp : SentencePiece) : string :=
  piece sp +:+ kUPPBoundaryStr +:+ show_score (score sp).

(** The loop of lines 537-541: the status, and the lines written. *)
Fixpoint write_lines (filename : string) (written lines : list string)
    : save_status * list string :=
  match lines with
  | [] => (SaveOk, written)
  | l :: lines' =>
      if WriteLine filename written l
      then write_lines filename (written ++ [l]) lines'
      else (WriteLineFailed, written)
  end.

(** The status of [Serialize] is not looked at. *)
Definition SaveVocab (X : Externals) (t : TrainerInterface)
    (filename : string) : save_status * list string :=
  let model_pieces := Serialize_pieces X t new_ModelProto in
  if NewWritableFile filename
  then write_lines filename [] (vocab_line <$> model_pieces)
  else (FileNotWritable, []).

Lemma pieces_left_Ok (X : Externals) (t : TrainerInterface) (ids : list Z)
    (st st' : serialize_state) :
  for_each (serialize_step X t) ids st = Ok st' →
  pieces_left X t ids st = out_pieces st'.
Proof.
  revert st. induction ids as [|id ids IH]; intros st.
  - cbn. by intros [= <-].
  - cbn [for_each pieces_left].
    destruct (serialize_step X t id st) as [st1|e]; cbn [bind]; [|done].
    apply IH.
Qed.

Lemma write_lines_all (filename : string) (written lines : list string) :
  (∀ written l, WriteLine filename written l = true) →
  write_lines filename written lines = (SaveOk, written ++ lines).
Proof.
  intros Hw. revert written.
  induction lines as [|l lines IH]; intros written; cbn [write_lines].
  - by rewrite app_nil_r.
  - rewrite Hw, IH. by rewrite <- app_assoc.
Qed.

Lemma pieces_left_app (X : Externals) (t : TrainerInterface)
    (ids ids' : list Z) (st st' : serialize_state) :
  for_each (serialize_step X t) ids st = Ok st' →
  pieces_left X t (ids ++ ids') st = pieces_left X t ids' st'.
Proof.
  revert st. induction ids as [|id ids IH]; intros st.
  - cbn. by intros [= <-].
  - cbn [for_each pieces_left app].
    destruct (serialize_step X t id st) as [st1|e]; cbn [bind]; [|done].
    apply IH.
Qed.

(** A round that returns an error has added its piece. *)
Lemma added_after_Err (X : Externals) (t : TrainerInterface) (id : Z)
    (st : serialize_state) (e : error) :
  serialize_step X t id st = Err e →
  ∃ sp, added t id st = out_pieces st ++ [sp] ∧
        match meta_pieces_ t !! id with
        | Some (w, ty) => sp = {| piece := w; score := 0; type := ty |}
        | None =>
            ∃ w, final_pieces_ t !! fid st = Some w ∧
                 sp = {| piece := w.1; score := w.2; type := NORMAL |}
        end.
Proof.
  unfold serialize_step, added.
  destruct (meta_pieces_ t !! id) as [[w ty]|].
  - intros _. by eexists.
  - destruct (final_pieces_ t !! fid st) as [w|]; [|done].
    intros _. eexists. split; [done|]. by exists w.
Qed.

(** X18.  [SaveVocab] does not look at the status of [Serialize]: when
    the file cannot be opened it writes nothing; when the file can be
    opened and every line can be written it returns OK and writes one
    line, the text, a tab and the score, for every piece that
    [Serialize] has left in the model.  These are the pieces of the
    finished model when [Serialize] has returned OK; none when the
    status of the trainer is an error; those of the last state of the
    loop when the loop has run to its end, whatever the checks after it
    say; and, when round [n] of the loop returns an error, the pieces of
    the rounds before it and the piece of round [n], the meta piece of
    the identifier [n] or else the next final piece. *)
Theorem SaveVocab_ignores_status (X : Externals) (t : TrainerInterface)
    (filename : string) :
  (NewWritableFile filename = false →
   SaveVocab X t filename = (FileNotWritable, [])) ∧
  (NewWritableFile filename = true →
   (∀ written l, WriteLine filename written l = true) →
   ∃ model_pieces,
     SaveVocab X t filename = (SaveOk, vocab_line <$> model_pieces) ∧
     (∀ mp, Serialize X t new_ModelProto = Ok mp →
            model_pieces = pieces mp) ∧
     (∀ e, status_ t = Err e → model_pieces = []) ∧
     (status_ t = Ok () →
      ∀ st,
        for_each (serialize_step X t)
          (seqZ 0 (vocab_size (trainer_spec_ t)))
          {| out_pieces := []; seen := ∅; fid := 0 |} = Ok st →
        model_pieces = out_pieces st) ∧
     (status_ t = Ok () →
      ∀ n st e,
        0 ≤ n < vocab_size (trainer_spec_ t) →
        for_each (serialize_step X t) (seqZ 0 n)
          {| out_pieces := []; seen := ∅; fid := 0 |} = Ok st →
        serialize_step X t n st = Err e →
        ∃ sp,
          model_pieces = out_pieces st ++ [sp] ∧
          match meta_pieces_ t !! n with
          | Some (w, ty) => sp = {| piece := w; score := 0; type := ty |}
          | None =>
              ∃ w, final_pieces_ t !! fid st = Some w ∧
                   sp = {| piece := w.1; score := w.2; type := NORMAL |}
          end)).
Proof.
  unfold SaveVocab. split; [by intros ->|].
  intros -> Hw. exists (Serialize_pieces X t new_ModelProto).
  split; [by rewrite write_lines_all|]. split; [|split; [|split]].
  - intros mp Hmp.
    assert (status_ t = Ok ()) as Hstatus.
    { unfold Serialize in Hmp. by apply seq_Ok in Hmp as [? _]. }
    apply Serialize_Ok in Hmp as (st & Hst & _ & -> & _).
    unfold Serialize_pieces. rewrite Hstatus. by apply pieces_left_Ok.
  - intros e He. unfold Serialize_pieces. by rewrite He.
  - intros Hstatus st Hst. unfold Serialize_pieces. rewrite Hstatus.
    by apply pieces_left_Ok.
  - intros Hstatus n st e Hn Hst Herr.
    unfold Serialize_pieces. rewrite Hstatus.
    replace (vocab_size (trainer_spec_ t))
      with (n + (vocab_size (trainer_spec_ t) - n)) by lia.
    rewrite seqZ_app by lia.
    rewrite (pieces_left_app X t _ _ _ st Hst).
    rewrite Z.add_0_l, seqZ_cons by lia. cbn [pieces_left]. rewrite Herr.
    by apply (added_after_Err X t n st e).
Qed.

End SaveVocab.

(** [Serialize] stops at a final piece with an empty text, and
    [SaveVocab] writes the pieces up to it and returns OK. *)
Example SaveVocab_after_failed_Serialize :
  let t := with_final_pieces [("ab", -1 # 1); ("", -2 # 1); ("a", -3 # 1)]
             (new_TrainerInterface (set_vocab_size 6 default_spec)
                {| name := "identity" |}) in
  Serialize (run_env [] id) t new_ModelProto = Err PieceEmpty ∧
  SaveVocab (λ _, true) (λ _ _ _, true) (λ _, "0") (run_env [] id) t "m.vocab"
  = (SaveOk,
     ["<unk>" +:+ kUPPBoundaryStr +:+ "0"; "<s>" +:+ kUPPBoundaryStr +:+ "0";
      "</s>" +:+ kUPPBoundaryStr +:+ "0"; "ab" +:+ kUPPBoundaryStr +:+ "0";
      kUPPBoundaryStr +:+ "0"]).
Proof. split; vm_compute; reflexivity. Qed.

(** The state of the loop of [Serialize] before the round of the empty
    final piece. *)
Definition before_empty_piece : serialize_state :=
  {| out_pieces := [ {| piece := "<unk>"; score := 0; type := UNKNOWN |};
                     {| piece := "<s>"; score := 0; type := CONTROL |};
                     {| piece := "</s>"; score := 0; type := CONTROL |};
                     {| piece := "ab"; score := -1 # 1; type := NORMAL |} ];
     seen := {[ "ab" ]} ∪ ({[ "</s>" ]} ∪ ({[ "<s>" ]} ∪ ({[ "<unk>" ]} ∪ ∅)));
     fid := 1 |}.

Lemma SaveVocab_ignores_status_witness :
  let t := with_final_pieces [("ab", -1 # 1); ("", -2 # 1); ("a", -3 # 1)]
             (new_TrainerInterface (set_vocab_size 6 default_spec)
                {| name := "identity" |}) in
  let show : Q → string := λ _, "0" in
  Serialize (run_env [] id) t new_ModelProto = Err PieceEmpty ∧
  for_each (serialize_step (run_env [] id) t) (seqZ 0 4)
    {| out_pieces := []; seen := ∅; fid := 0 |} = Ok before_empty_piece ∧
  serialize_step (run_env [] id) t 4 before_empty_piece = Err PieceEmpty ∧
  ∃ model_pieces,
    SaveVocab (λ _, true) (λ _ _ _, true) show (run_env [] id) t "m.vocab"
    = (SaveOk, vocab_line show <$> model_pieces) ∧
    ∃ sp,
      model_pieces = out_pieces before_empty_piece ++ [sp] ∧
      match meta_pieces_ t !! 4 with
      | Some (w, ty) => sp = {| piece := w; score := 0; type := ty |}
      | None =>
          ∃ w, final_pieces_ t !! fid before_empty_piece = Some w ∧
               sp = {| piece := w.1; score := w.2; type := NORMAL |}
      end.
Proof.
  intros t show.
  assert (for_each (serialize_step (run_env [] id) t) (seqZ 0 4)
            {| out_pieces := []; seen := ∅; fid := 0 |}
          = Ok before_empty_piece) as Hloop by reflexivity.
  assert (serialize_step (run_env [] id) t 4 before_empty_piece
          = Err PieceEmpty) as Hround by reflexivity.
  split; [reflexivity|]. split; [exact Hloop|]. split; [exact Hround|].
  destruct (proj2 (SaveVocab_ignores_status (λ _, true) (λ _ _ _, true) show
                     (run_env [] id) t "m.vocab")
              eq_refl (λ _ _, eq_refl))
    as (model_pieces & Hsave & _ & _ & _ & Hfail).
  exists model_pieces. split; [exact Hsave|].
  exact (Hfail eq_refl 4 before_empty_piece PieceEmpty
           (conj (proj1 (Z.leb_le 0 4) eq_refl)
                 (proj1 (Z.ltb_lt 4 6) eq_refl))
           Hloop Hround).
Defined.

End Trainer.
